(** * The prediction service of the stock pipeline

    A shallow embedding of [src/services/predict/handler.py]: feature
    engineering over a per-ticker price history, extraction of the latest
    feature row against the trained model's column schema, the missing-value
    check, the classifier call, and the importance-weighted rationale.

    Numbers are IEEE 754 binary64 values, as numpy holds them: the standard
    library's [spec_float] with the operations of [SpecFloat] instantiated at
    precision 53 and maximal exponent 1024.  A pandas frame is an index length
    and an ordered list of named columns; exceptions are an error monad.

    What the handler reads from outside is an argument: the model artifacts,
    the history table and the clock make a [World], and the watchlist with the
    two environment settings a [Config].  The classifier answers the row it is
    given with a probability or raises.  The JSON text of the response is not
    modelled; its body is a record.

    After the prediction service come, over the same floats, frames and
    series operations, the feature builder and the labelling of
    [src/train_shared_model.py], the day selection, the choice of the biggest
    mover and the fetch with retries of [src/services/ingest/handler.py], and
    the read API of [src/services/api/handler.py]. *)

From Stdlib Require Import Floats.SpecFloat.
From Stdlib Require Import ZArith List String Ascii Bool Lia.
From Stdlib Require Import Sorting.Permutation Sorting.Sorted.
Import ListNotations.

Local Open Scope Z_scope.

(** ** Binary64 arithmetic *)

Module F64.

Definition float := spec_float.

Definition prec : Z := 53.
Definition emax : Z := 1024.

Definition add : float -> float -> float := SFadd prec emax.
Definition sub : float -> float -> float := SFsub prec emax.
Definition mul : float -> float -> float := SFmul prec emax.
Definition div : float -> float -> float := SFdiv prec emax.
Definition sqrt : float -> float := SFsqrt prec emax.
Definition opp : float -> float := SFopp.
Definition abs : float -> float := SFabs.

Definition eqb : float -> float -> bool := SFeqb.
Definition ltb : float -> float -> bool := SFltb.
Definition leb : float -> float -> bool := SFleb.

Definition nan : float := S754_nan.
Definition zero : float := S754_zero false.
Definition neg_zero : float := S754_zero true.

(** [float(n)] for an integer [n]. *)
Definition of_Z (n : Z) : float := binary_normalize prec emax n 0 false.

Definition one : float := Eval cbv in of_Z 1.
Definition hundred : float := Eval cbv in of_Z 100.
Definition half : float := Eval cbv in div (of_Z 1) (of_Z 2).

(** [math.isnan], [np.isfinite]. *)
Definition is_nan (x : float) : bool :=
  match x with S754_nan => true | _ => false end.

Definition is_finite (x : float) : bool :=
  match x with S754_zero _ | S754_finite _ _ _ => true | _ => false end.

(** [signbit] of a value that is not NaN. *)
Definition signbit (x : float) : bool :=
  match x with
  | S754_zero s | S754_infinity s | S754_finite s _ _ => s
  | S754_nan => false
  end.


End F64.

Abbreviation float := F64.float.

(** ** Exceptions *)

Inductive exn : Type :=
| KeyError (key : string)
| TypeError
| ValueError
| IndexError
| AttributeError
| ArtifactError.

Inductive result (A : Type) : Type :=
| Ok (a : A)
| Raise (e : exn).
Arguments Ok {A} a.
Arguments Raise {A} e.

Definition bind {A B : Type} (m : result A) (k : A -> result B) : result B :=
  match m with
  | Ok a => k a
  | Raise e => Raise e
  end.

Declare Scope result_scope.
Delimit Scope result_scope with result.
Notation "x <- m ;; k" := (bind m (fun x => k))
  (at level 100, m at next level, right associativity) : result_scope.
Notation "' p <- m ;; k" := (bind m (fun p => k))
  (at level 100, p pattern, m at next level, right associativity) : result_scope.
Local Open Scope result_scope.

Definition is_ok {A : Type} (m : result A) : bool :=
  match m with Ok _ => true | Raise _ => false end.

Fixpoint mapM {A B : Type} (f : A -> result B) (l : list A) : result (list B) :=
  match l with
  | [] => Ok []
  | a :: l' => b <- f a ;; bs <- mapM f l' ;; Ok (b :: bs)
  end.

(** ** Cells, series and frames *)

(** A cell of a frame.  The pipeline meets four dtypes: float64 (prices and
    indicators), int64 (one-hot and day-of-week columns), object (the ticker
    symbol) and datetime64 (the date, held as a day number counted from
    1970-01-01). *)
Inductive cell : Type :=
| CFloat (x : float)
| CInt (n : Z)
| CStr (s : string)
| CDate (d : Z).

Definition Series := list cell.

Record DataFrame : Type := mkFrame {
  nrows : nat;
  columns : list (string * Series)
}.

(** [pd.DataFrame()] *)
Definition empty_frame : DataFrame := mkFrame 0 [].

(** [len(df)] and [df.empty] *)
Definition len (df : DataFrame) : nat := nrows df.

Definition empty (df : DataFrame) : bool :=
  Nat.eqb (nrows df) 0 || Nat.eqb (List.length (columns df)) 0.

Definition wf_frame (df : DataFrame) : Prop :=
  Forall (fun c => List.length (snd c) = nrows df) (columns df).

Fixpoint lookup (name : string) (cols : list (string * Series)) : option Series :=
  match cols with
  | [] => None
  | (n, s) :: rest => if String.eqb name n then Some s else lookup name rest
  end.

(** [c in df.columns] *)
Definition has_column (df : DataFrame) (name : string) : bool :=
  match lookup name (columns df) with Some _ => true | None => false end.

(** [df[name]] *)
Definition get_column (df : DataFrame) (name : string) : result Series :=
  match lookup name (columns df) with
  | Some s => Ok s
  | None => Raise (KeyError name)
  end.

Fixpoint assign (name : string) (s : Series) (cols : list (string * Series))
  : list (string * Series) :=
  match cols with
  | [] => [(name, s)]
  | (n, s') :: rest =>
      if String.eqb name n then (n, s) :: rest else (n, s') :: assign name s rest
  end.

(** [df[name] = s]: an existing column is replaced where it stands, a new one
    goes last. *)
Definition set_column (df : DataFrame) (name : string) (s : Series) : DataFrame :=
  mkFrame (nrows df) (assign name s (columns df)).

(** [df[name] = v] for a scalar [v], broadcast along the index. *)
Definition set_scalar (df : DataFrame) (name : string) (v : cell) : DataFrame :=
  set_column df name (repeat v (nrows df)).

(** [isna] of one cell: the pipeline never builds [None] or [NaT], so the
    missing marker is the float NaN. *)
Definition isna (c : cell) : bool :=
  match c with
  | CFloat x => F64.is_nan x
  | _ => false
  end.

(** A numeric column read as float64, as pandas arithmetic does. *)
Definition to_float (c : cell) : result float :=
  match c with
  | CFloat x => Ok x
  | CInt n => Ok (F64.of_Z n)
  | CStr _ => Raise TypeError
  | CDate _ => Raise TypeError
  end.

Definition float_column (df : DataFrame) (name : string) : result (list float) :=
  s <- get_column df name ;; mapM to_float s.

Definition floats (xs : list float) : Series := map CFloat xs.

(** ** Series operations

    Each pandas operation as pandas computes it, rounding by rounding. *)

Fixpoint map2 {A B C : Type} (f : A -> B -> C) (l1 : list A) (l2 : list B) : list C :=
  match l1, l2 with
  | a :: l1', b :: l2' => f a b :: map2 f l1' l2'
  | _, _ => []
  end.

(** [s.shift(k)]: [k] leading NaN, the tail dropped. *)
Definition series_shift (k : nat) (xs : list float) : list float :=
  firstn (List.length xs) (repeat F64.nan k ++ xs).

(** [s.pct_change(k)], computed as pandas does: [s / s.shift(k) - 1]
    (no forward fill of missing closes). *)
Definition pct_change (k : nat) (xs : list float) : list float :=
  map (fun q => F64.sub q F64.one) (map2 F64.div xs (series_shift k xs)).

(** [s.diff()] *)
Definition diff (xs : list float) : list float :=
  map2 F64.sub xs (series_shift 1 xs).

(** *** Rolling windows

    [s.rolling(w).mean()] and [s.rolling(w).std()] for a whole number [w] of
    rows and the default [min_periods = w], as the window aggregations of
    pandas compute them ([roll_mean] and [roll_var] of
    [pandas/_libs/window/aggregations.pyx], pandas 1.5 to 2.x).  Infinite
    values are first turned into NaN.  One state goes from row to row: the
    value that leaves the window is removed from it and the value that enters
    is added, in compensated (Kahan) arithmetic; NaN values are passed over.
    A window that holds one repeated value gives that value outright. *)

(** [values[np.isinf(values)] = np.nan] *)
Definition inf_to_nan (x : float) : float :=
  match x with
  | S754_infinity _ => F64.nan
  | _ => x
  end.

(** The bounds of the window that ends at row [i]: rows [start] to
    [end - 1]. *)
Definition window_start (w i : nat) : nat := S i - w.
Definition window_end (i : nat) : nat := S i.

(** [for j in range(a, b): f(values[j], state)] *)
Definition fold_range {S : Type} (f : float -> S -> S) (values : list float)
           (a b : nat) (st : S) : S :=
  fold_left (fun st j => f (nth j values F64.nan) st) (seq a (b - a)) st.

Module RollMean.

Record state : Type := mkState {
  nobs : Z;
  sum_x : float;
  neg_ct : Z;
  compensation_add : float;
  compensation_remove : float;
  num_consecutive_same_value : Z;
  prev_value : float
}.

Definition add_mean (val : float) (st : state) : state :=
  if F64.is_nan val then st
  else
    let y := F64.sub val (compensation_add st) in
    let t := F64.add (sum_x st) y in
    mkState (nobs st + 1) t
            (if F64.signbit val then neg_ct st + 1 else neg_ct st)
            (F64.sub (F64.sub t (sum_x st)) y)
            (compensation_remove st)
            (if F64.eqb val (prev_value st)
             then num_consecutive_same_value st + 1 else 1)
            val.

Definition remove_mean (val : float) (st : state) : state :=
  if F64.is_nan val then st
  else
    let y := F64.sub (F64.opp val) (compensation_remove st) in
    let t := F64.add (sum_x st) y in
    mkState (nobs st - 1) t
            (if F64.signbit val then neg_ct st - 1 else neg_ct st)
            (compensation_add st)
            (F64.sub (F64.sub t (sum_x st)) y)
            (num_consecutive_same_value st)
            (prev_value st).

Definition calc_mean (minp : Z) (st : state) : float :=
  if (minp <=? nobs st) && (0 <? nobs st)
  then
    let result := F64.div (sum_x st) (F64.of_Z (nobs st)) in
    if nobs st <=? num_consecutive_same_value st then prev_value st
    else if (neg_ct st =? 0) && F64.ltb result F64.zero then F64.zero
    else if (neg_ct st =? nobs st) && F64.ltb F64.zero result then F64.zero
    else result
  else F64.nan.

(** The state a new run of windows starts from. *)
Definition setup (values : list float) (s : nat) : state :=
  mkState 0 F64.zero 0 F64.zero F64.zero 0 (nth s values F64.nan).

(** One turn of the loop over the rows: the state after row [i]. *)
Definition row (w : nat) (values : list float) (i : nat) (st : state) : state :=
  let s := window_start w i in
  let e := window_end i in
  if Nat.eqb i 0 || Nat.leb (window_end (i - 1)) s
  then fold_range add_mean values s e (setup values s)
  else
    let st := fold_range remove_mean values (window_start w (i - 1)) s st in
    fold_range add_mean values (window_end (i - 1)) e st.

(** The outputs of [k] rows from row [i] on. *)
Fixpoint rows (w : nat) (minp : Z) (values : list float) (k i : nat) (st : state)
  : list float :=
  match k with
  | O => []
  | S k' =>
      let st := row w values i st in
      calc_mean minp st :: rows w minp values k' (S i) st
  end.

Definition roll_mean (w : nat) (values : list float) : list float :=
  rows w (Z.of_nat w) values (List.length values) 0 (setup values 0).

End RollMean.

Module RollVar.

Record state : Type := mkState {
  nobs : Z;
  mean_x : float;
  ssqdm_x : float;
  compensation_add : float;
  compensation_remove : float;
  num_consecutive_same_value : Z;
  prev_value : float
}.

(** Welford's update of the mean and of the sum of squared differences. *)
Definition add_var (val : float) (st : state) : state :=
  if F64.is_nan val then st
  else
    let nobs' := nobs st + 1 in
    let prev_mean := F64.sub (mean_x st) (compensation_add st) in
    let y := F64.sub val (compensation_add st) in
    let t := F64.sub y (mean_x st) in
    let compensation := F64.sub (F64.add t (mean_x st)) y in
    let delta := t in
    let mean' := if nobs' =? 0 then F64.zero
                 else F64.add (mean_x st) (F64.div delta (F64.of_Z nobs')) in
    mkState nobs' mean'
            (F64.add (ssqdm_x st)
                     (F64.mul (F64.sub val prev_mean) (F64.sub val mean')))
            compensation
            (compensation_remove st)
            (if F64.eqb val (prev_value st)
             then num_consecutive_same_value st + 1 else 1)
            val.

Definition remove_var (val : float) (st : state) : state :=
  if F64.is_nan val then st
  else
    let nobs' := nobs st - 1 in
    if nobs' =? 0
    then mkState nobs' F64.zero F64.zero
                 (compensation_add st) (compensation_remove st)
                 (num_consecutive_same_value st) (prev_value st)
    else
      let prev_mean := F64.sub (mean_x st) (compensation_remove st) in
      let y := F64.sub val (compensation_remove st) in
      let t := F64.sub y (mean_x st) in
      let compensation := F64.sub (F64.add t (mean_x st)) y in
      let delta := t in
      let mean' := F64.sub (mean_x st) (F64.div delta (F64.of_Z nobs')) in
      mkState nobs' mean'
              (F64.sub (ssqdm_x st)
                       (F64.mul (F64.sub val prev_mean) (F64.sub val mean')))
              (compensation_add st)
              compensation
              (num_consecutive_same_value st) (prev_value st).

Definition calc_var (minp ddof : Z) (st : state) : float :=
  if (minp <=? nobs st) && (ddof <? nobs st)
  then
    if (nobs st =? 1) || (nobs st <=? num_consecutive_same_value st)
    then F64.zero
    else F64.div (ssqdm_x st) (F64.of_Z (nobs st - ddof))
  else F64.nan.

Definition setup (values : list float) (s : nat) : state :=
  mkState 0 F64.zero F64.zero F64.zero F64.zero 0 (nth s values F64.nan).

Definition row (w : nat) (values : list float) (i : nat) (st : state) : state :=
  let s := window_start w i in
  let e := window_end i in
  if Nat.eqb i 0 || Nat.leb (window_end (i - 1)) s
  then fold_range add_var values s e (setup values s)
  else
    let st := fold_range remove_var values (window_start w (i - 1)) s st in
    fold_range add_var values (window_end (i - 1)) e st.

Fixpoint rows (w : nat) (minp ddof : Z) (values : list float) (k i : nat)
         (st : state) : list float :=
  match k with
  | O => []
  | S k' =>
      let st := row w values i st in
      calc_var minp ddof st :: rows w minp ddof values k' (S i) st
  end.

Definition roll_var (w : nat) (ddof : Z) (values : list float) : list float :=
  rows w (Z.max (Z.of_nat w) 1) ddof values (List.length values) 0 (setup values 0).

End RollVar.

(** [zsqrt]: the square root, with 0 for a negative variance. *)
Definition zsqrt (x : float) : float :=
  if F64.ltb x F64.zero then F64.zero else F64.sqrt x.

Definition rolling_mean (w : nat) (xs : list float) : list float :=
  RollMean.roll_mean w (map inf_to_nan xs).

Definition rolling_std (w : nat) (xs : list float) : list float :=
  map zsqrt (RollVar.roll_var w 1 (map inf_to_nan xs)).

(** *** Sums of a whole column

    [Series.mean()] and [Series.std()] go through numpy's [add.reduce], which
    sums a contiguous float64 array pairwise ([DOUBLE_pairwise_sum]): fewer
    than 8 values one after the other, up to 128 values in 8 interleaved
    partial sums, more values by halves. *)

(** The loop over the full groups of 8 that follow the first: the partial
    sums, and the values left over. *)
Fixpoint unrolled (r : list float) (xs : list float) : list float * list float :=
  match xs with
  | x0 :: x1 :: x2 :: x3 :: x4 :: x5 :: x6 :: x7 :: rest =>
      unrolled (map2 F64.add r [x0; x1; x2; x3; x4; x5; x6; x7]) rest
  | _ => (r, xs)
  end.

(** A block of 8 to 128 values. *)
Definition sum_block (xs : list float) : float :=
  match unrolled (firstn 8 xs) (skipn 8 xs) with
  | ([r0; r1; r2; r3; r4; r5; r6; r7], rest) =>
      fold_left F64.add rest
                (F64.add (F64.add (F64.add r0 r1) (F64.add r2 r3))
                         (F64.add (F64.add r4 r5) (F64.add r6 r7)))
  | (_, _) => F64.nan
  end.

(** The recursion halves the length, so as many turns as there are values
    are more than it takes. *)
Fixpoint pairwise_sum_rec (turns : nat) (xs : list float) : float :=
  let n := List.length xs in
  if Nat.ltb n 8 then fold_left F64.add xs F64.neg_zero
  else if Nat.leb n 128 then sum_block xs
  else
    match turns with
    | O => sum_block xs
    | S turns' =>
        let n2 := (n / 2 - (n / 2) mod 8)%nat in
        F64.add (pairwise_sum_rec turns' (firstn n2 xs))
                (pairwise_sum_rec turns' (skipn n2 xs))
    end.

Definition pairwise_sum (xs : list float) : float :=
  pairwise_sum_rec (List.length xs) xs.

(** [values.sum()]: the reduction starts from the identity of the addition,
    [-0.0]. *)
Definition np_sum (xs : list float) : float :=
  F64.add F64.neg_zero (pairwise_sum xs).

(** [s.where(cond, 0)] for the two conditions of the RSI. *)
Definition where_pos (xs : list float) : list float :=
  map (fun d => if F64.ltb F64.zero d then d else F64.zero) xs.

Definition where_neg (xs : list float) : list float :=
  map (fun d => if F64.ltb d F64.zero then d else F64.zero) xs.

(** ** Sorting a frame by date

    The table is keyed by ticker and date, so a ticker's dates are distinct
    and their ascending order is one order, whatever the sorting algorithm.
    Among rows of equal date pandas' default sort promises no order; here
    they keep the order they came in, and the properties that depend on the
    order of the rows are stated for distinct dates. *)

(** Stable insertion of a keyed row number into a list sorted by key. *)
Fixpoint insert_by_key (k : Z) (i : nat) (l : list (Z * nat)) : list (Z * nat) :=
  match l with
  | [] => [(k, i)]
  | (k', i') :: rest =>
      if Z.ltb k k' then (k, i) :: l else (k', i') :: insert_by_key k i rest
  end.

(** The row numbers in ascending key order; equal keys keep their order. *)
Definition sort_perm (keys : list Z) : list nat :=
  map snd
      (fold_left (fun acc ki => insert_by_key (fst ki) (snd ki) acc)
                 (combine keys (seq 0 (List.length keys))) []).

Definition date_of (c : cell) : result Z :=
  match c with
  | CDate d => Ok d
  | _ => Raise AttributeError
  end.

Definition take_rows (perm : list nat) (s : Series) : Series :=
  map (fun i => nth i s (CFloat F64.nan)) perm.

(** [df.sort_values("date")].  The date column is datetime64 throughout the
    service; a frame whose date column holds anything else is rejected here,
    where pandas rejects it at the [.dt] accessor that closes the feature
    builder. *)
Definition sort_values_date (df : DataFrame) : result DataFrame :=
  s <- get_column df "date" ;;
  keys <- mapM date_of s ;;
  let perm := sort_perm keys in
  Ok (mkFrame (nrows df)
              (map (fun c => (fst c, take_rows perm (snd c))) (columns df))).

(** ** Configuration *)

Record Config : Type := mkConfig {
  WATCHLIST : list string;
  LOOKBACK_DAYS : Z;
  MIN_HISTORY_DAYS : Z
}.

Definition default_config : Config :=
  mkConfig ["NVDA"; "AAPL"; "MSFT"; "GOOGL"; "AMZN"; "TSLA"]%string 60 25.

(** ** Feature engineering *)

(** [add_ticker_onehots]: one 0/1 column per watchlist member. *)
Definition onehot (t : string) (c : cell) : cell :=
  match c with
  | CStr s => CInt (if String.eqb s t then 1 else 0)
  | _ => CInt 0
  end.

Definition add_ticker_onehots (cfg : Config) (df : DataFrame) : result DataFrame :=
  fold_left
    (fun acc t =>
       df <- acc ;;
       tk <- get_column df "ticker" ;;
       Ok (set_column df (String.append "ticker_" t) (map (onehot t) tk)))
    (WATCHLIST cfg) (Ok df).

(** [Timestamp.dayofweek]: Monday is 0; day 0 (1970-01-01) is a Thursday. *)
Definition dayofweek (d : Z) : Z := (d + 3) mod 7.

(** The RSI block of the feature builder: simple 14-row means of the gains
    and of the losses, [rs = gain / loss], [100 - 100 / (1 + rs)]. *)
Definition rsi_of_rs (rs : float) : float :=
  F64.sub F64.hundred (F64.div F64.hundred (F64.add F64.one rs)).

Definition rsi_14 (close : list float) : list float :=
  let delta := diff close in
  let gain := rolling_mean 14 (where_pos delta) in
  let loss := map F64.opp (rolling_mean 14 (where_neg delta)) in
  let rs := map2 F64.div gain loss in
  map rsi_of_rs rs.

(** [add_features_lightweight] *)
Definition add_features_lightweight (df : DataFrame) : result DataFrame :=
  df <- sort_values_date df ;;
  close <- float_column df "close" ;;
  let df := set_column df "return_1d" (floats (pct_change 1 close)) in
  let df := set_column df "return_5d" (floats (pct_change 5 close)) in
  let df := set_column df "return_10d" (floats (pct_change 10 close)) in
  let ma_5 := rolling_mean 5 close in
  let ma_20 := rolling_mean 20 close in
  let df := set_column df "ma_5" (floats ma_5) in
  let df := set_column df "ma_20" (floats ma_20) in
  let df := set_column df "price_to_ma5" (floats (map2 F64.div close ma_5)) in
  let df := set_column df "price_to_ma20" (floats (map2 F64.div close ma_20)) in
  let df := set_column df "volatility_5d"
                       (floats (rolling_std 5 (pct_change 1 close))) in
  let df := set_column df "volatility_10d"
                       (floats (rolling_std 10 (pct_change 1 close))) in
  volume <- float_column df "volume" ;;
  let volume_ma_20 := rolling_mean 20 volume in
  let df := set_column df "volume_ma_20" (floats volume_ma_20) in
  let df := set_column df "volume_ratio" (floats (map2 F64.div volume volume_ma_20)) in
  let df := set_column df "rsi_14" (floats (rsi_14 close)) in
  high <- float_column df "high" ;;
  low <- float_column df "low" ;;
  open <- float_column df "open" ;;
  let df := set_column df "daily_range"
              (floats (map2 F64.div (map2 F64.sub high low) open)) in
  df <- (if has_column df "vwap"
         then vwap <- float_column df "vwap" ;;
              Ok (set_column df "close_to_vwap" (floats (map2 F64.div close vwap)))
         else Ok df) ;;
  dates <- (s <- get_column df "date" ;; mapM date_of s) ;;
  Ok (set_column df "day_of_week" (map (fun d => CInt (dayofweek d)) dates)).

(** ** Latest-row extraction *)

(** [df.iloc[-1:]]: the last row as a frame (no row of an empty frame). *)
Definition iloc_last_rows (df : DataFrame) : DataFrame :=
  mkFrame (Nat.min 1 (nrows df))
          (map (fun c => (fst c, skipn (nrows df - 1) (snd c))) (columns df)).

(** [df[cols]] for a list of column names. *)
Definition select (df : DataFrame) (cols : list string) : result DataFrame :=
  cs <- mapM (fun c => s <- get_column df c ;; Ok (c, s)) cols ;;
  Ok (mkFrame (nrows df) cs).

(** One turn of "ensure all required columns exist": a schema column the row
    lacks is added as NaN. *)
Definition fill_missing (latest : DataFrame) (c : string) : DataFrame :=
  if has_column latest c then latest else set_scalar latest c (CFloat F64.nan).

(** [_prep_latest_features]: the aligned latest row and the full feature
    table. *)
Definition _prep_latest_features (cfg : Config) (df : DataFrame)
           (feature_cols : list string) : result (DataFrame * DataFrame) :=
  df_feat <- add_features_lightweight df ;;
  df_feat <- add_ticker_onehots cfg df_feat ;;
  let latest := iloc_last_rows df_feat in
  let latest := fold_left fill_missing feature_cols latest in
  X <- select latest feature_cols ;;
  Ok (X, df_feat).

(** The cells of row [i], column by column. *)
Definition row_cells (i : nat) (df : DataFrame) : list cell :=
  map (fun c => nth i (snd c) (CFloat F64.nan)) (columns df).

(** [X.isna().any(axis=1).iloc[0]]: the has-missing flag of the first row. *)
Definition has_missing (X : DataFrame) : result bool :=
  if Nat.eqb (nrows X) 0 then Raise IndexError
  else Ok (existsb isna (row_cells 0 X)).

(** ** The history query *)

(** One stored bar as the table returns it: the date parsed to its day
    number, each numeric attribute already passed through [float], [None]
    where the attribute is absent. *)
Record Item : Type := mkItem {
  it_date : Z;
  it_open : option float;
  it_high : option float;
  it_low : option float;
  it_close : option float;
  it_volume : option float;
  it_vwap : option float
}.

(** [dec]: an absent attribute reads as NaN. *)
Definition dec (x : option float) : float :=
  match x with
  | None => F64.nan
  | Some v => v
  end.

(** [_query_ticker_history], given the items the table answers with. *)
Definition _query_ticker_history (items : list Item) (ticker : string)
  : result DataFrame :=
  match items with
  | [] => Ok empty_frame
  | _ =>
      let col (f : Item -> option float) := floats (map (fun it => dec (f it)) items) in
      let df := mkFrame (List.length items)
                  [("date", map (fun it => CDate (it_date it)) items);
                   ("open", col it_open);
                   ("high", col it_high);
                   ("low", col it_low);
                   ("close", col it_close);
                   ("volume", col it_volume);
                   ("vwap", col it_vwap)]%string in
      df <- sort_values_date df ;;
      Ok (set_scalar df "ticker" (CStr ticker))
  end.

(** ** The rationale *)

Definition FRIENDLY : list (string * string) :=
  [("return_1d", "short-term momentum");
   ("return_5d", "5-day momentum");
   ("return_10d", "10-day momentum");
   ("price_to_ma5", "price vs 5-day average");
   ("price_to_ma20", "price vs 20-day average");
   ("volatility_5d", "recent volatility");
   ("volatility_10d", "10-day volatility");
   ("daily_range", "intraday price range");
   ("volume_ratio", "unusual trading volume");
   ("rsi_14", "RSI level");
   ("close_to_vwap", "close vs VWAP");
   ("day_of_week", "day-of-week pattern")]%string.

(** [FRIENDLY.get(c, c)] *)
Fixpoint dict_get (d : list (string * string)) (k dflt : string) : string :=
  match d with
  | [] => dflt
  | (k', v) :: rest => if String.eqb k k' then v else dict_get rest k dflt
  end.

Definition RAW_FIELDS : list string :=
  ["open"; "high"; "low"; "close"; "volume"; "vwap"]%string.

Definition FALLBACK : string := "Based on recent price and volume patterns.".

(** A trained classifier: the probability of the positive class for the one
    row it is given ([float(model.predict_proba(X)[0, 1])]), or the exception
    the call ends with, and the importance vector when it has one. *)
Record Model : Type := mkModel {
  predict_proba : DataFrame -> result float;
  feature_importances_ : option (list float)
}.

(** [.replace([np.inf, -np.inf], np.nan).astype(float)] on one cell; a ticker
    symbol is no numeral, a timestamp has no float cast. *)
Definition replace_inf_astype_float (c : cell) : result float :=
  match c with
  | CFloat (S754_infinity _) => Ok F64.nan
  | CFloat x => Ok x
  | CInt n => Ok (F64.of_Z n)
  | CStr _ => Raise ValueError
  | CDate _ => Raise TypeError
  end.

Definition dropna (xs : list float) : list float :=
  filter (fun x => negb (F64.is_nan x)) xs.

(** The values with 0 in the place of NaN, and the number of values that
    are not NaN. *)
Definition fillna0 (xs : list float) : list float :=
  map (fun x => if F64.is_nan x then F64.zero else x) xs.

Definition count (xs : list float) : Z := Z.of_nat (List.length (dropna xs)).

(** [series.mean()], skipping NaN ([nanops.nanmean]): the sum of the values,
    NaN counted as 0, over the number of values that are not NaN. *)
Definition series_mean (xs : list float) : float :=
  if 0 <? count xs
  then F64.div (np_sum (fillna0 xs)) (F64.of_Z (count xs))
  else F64.nan.

(** [series.std()], skipping NaN, with [ddof = 1] ([nanops.nanstd]): the
    squared distances from the mean, 0 in the place of NaN, summed and divided
    by one less than the count; NaN for fewer than two values. *)
Definition series_std (xs : list float) : float :=
  if count xs <=? 1 then F64.nan
  else
    let avg := F64.div (np_sum (fillna0 xs)) (F64.of_Z (count xs)) in
    let sqr := map (fun x => if F64.is_nan x then F64.zero
                             else let d := F64.sub avg x in F64.mul d d) xs in
    F64.sqrt (F64.div (np_sum sqr) (F64.of_Z (count xs - 1))).

(** [df.iloc[-1][c]] for a column [c] of a frame with a last row. *)
Definition last_cell (df : DataFrame) (c : string) : result cell :=
  s <- get_column df c ;;
  Ok (nth (nrows df - 1) s (CFloat F64.nan)).

Definition score : Type := float * string * float.

(** One turn of the scoring loop: [None] where the source says [continue]. *)
Definition score_column (importances : list float) (df_feat : DataFrame)
           (i : nat) (c : string) : result (option score) :=
  if String.prefix "ticker_" c then Ok None
  else if existsb (String.eqb c) RAW_FIELDS then Ok None
  else if negb (has_column df_feat c) then Ok None
  else
    col <- get_column df_feat c ;;
    series <- mapM replace_inf_astype_float col ;;
    if forallb F64.is_nan series then Ok None
    else
      let mu := series_mean series in
      let sd := series_std series in
      if F64.eqb sd F64.zero || negb (F64.is_finite sd) then Ok None
      else
        v <- last_cell df_feat c ;;
        x <- to_float v ;;
        let z := if F64.is_finite x then F64.div (F64.sub x mu) sd else F64.zero in
        let imp := if Nat.ltb i (List.length importances)
                   then nth i importances F64.zero else F64.zero in
        Ok (Some (F64.mul (F64.abs z) imp, c, z)).

(** The loop over [enumerate(feature_cols)], from index [i]. *)
Fixpoint collect_scores (importances : list float) (df_feat : DataFrame)
         (i : nat) (cols : list string) : result (list score) :=
  match cols with
  | [] => Ok []
  | c :: rest =>
      o <- score_column importances df_feat i c ;;
      more <- collect_scores importances df_feat (S i) rest ;;
      Ok (match o with Some s => s :: more | None => more end)
  end.

(** [scores.sort(reverse=True, key=lambda x: x[0])]: descending by score,
    entries of equal score in their original order.  With no NaN among the
    keys this order is the only stable one, whatever the algorithm. *)
Fixpoint insert_desc (s : score) (l : list score) : list score :=
  match l with
  | [] => [s]
  | t :: rest =>
      if F64.ltb (fst (fst s)) (fst (fst t)) then t :: insert_desc s rest
      else s :: l
  end.

Definition sort_desc (l : list score) : list score :=
  fold_right insert_desc [] l.

Definition phrase (s : score) : string :=
  let '(_, c, z) := s in
  let label := dict_get FRIENDLY c c in
  let direction := (if F64.leb F64.zero z then "high" else "low")%string in
  String.append direction (String.append " " label).

Definition sentence (phrases : list string) : result string :=
  match phrases with
  | [p] => Ok (String.append "Driven mainly by " (String.append p "."))
  | p0 :: p1 :: _ =>
      Ok (String.append "Driven mainly by "
            (String.append p0 (String.append " and " (String.append p1 "."))))
  | [] => Raise IndexError
  end.

(** [_why_string] *)
Definition _why_string (model : Model) (feature_cols : list string)
           (df_feat : DataFrame) : result string :=
  match feature_importances_ model with
  | None => Ok FALLBACK
  | Some importances =>
      if Nat.ltb (len df_feat) 10 then Ok FALLBACK
      else
        scores <- collect_scores importances df_feat 0 feature_cols ;;
        match scores with
        | [] => Ok FALLBACK
        | _ =>
            let top := firstn 2 (sort_desc scores) in
            sentence (map phrase top)
        end
  end.

(** ** The handler *)

Record Prediction : Type := mkPrediction {
  ticker : string;
  pred_up : option bool;
  prob_up : option float;
  why : string
}.

Record Body : Type := mkBody {
  asof : string;
  predictions : list Prediction
}.

Record Response : Type := mkResponse {
  statusCode : Z;
  headers : list (string * string);
  body : Body
}.

(** What one invocation reads from outside: the model artifacts (loading may
    fail), the history table, and the clock. *)
Record World : Type := mkWorld {
  artifacts : result (Model * list string);
  store : string -> Z -> list Item;
  today : Z;
  utcnow : string
}.

(** The handler's observable steps, recorded in the order they happen: the
    feature build for a ticker, and the classifier's probability estimation
    with the row it receives. *)
Inductive event : Type :=
| EvFeatures (t : string)
| EvPredict (t : string) (X : DataFrame).

(** Computations of the handler: an exception ends them, the record of the
    steps taken so far stays. *)
Definition M (A : Type) : Type := list event -> result A * list event.

Definition retM {A : Type} (a : A) : M A := fun tr => (Ok a, tr).

Definition bindM {A B : Type} (m : M A) (k : A -> M B) : M B :=
  fun tr =>
    match m tr with
    | (Ok a, tr') => k a tr'
    | (Raise e, tr') => (Raise e, tr')
    end.

Definition lift {A : Type} (r : result A) : M A := fun tr => (r, tr).

Definition emit (e : event) : M unit := fun tr => (Ok tt, tr ++ [e]).

Declare Scope handler_scope.
Delimit Scope handler_scope with handler.
Notation "x <~ m ;; k" := (bindM m (fun x => k))
  (at level 100, m at next level, right associativity) : handler_scope.
Notation "' p <~ m ;; k" := (bindM m (fun p => k))
  (at level 100, p pattern, m at next level, right associativity) : handler_scope.
Notation "m ;;; k" := (bindM m (fun _ => k))
  (at level 100, right associativity) : handler_scope.

Definition NOT_ENOUGH : string := "Not enough recent history yet.".
Definition MISSING_VALUES : string := "Missing feature values for today.".

Definition null_prediction (t msg : string) : Prediction :=
  mkPrediction t None None msg.

(** [df.empty or len(df) < MIN_HISTORY_DAYS] *)
Definition insufficient (cfg : Config) (df : DataFrame) : bool :=
  empty df || (Z.of_nat (len df) <? MIN_HISTORY_DAYS cfg).

(** The body of the loop over the watchlist, appending to [preds]. *)
Definition process_ticker (cfg : Config) (model : Model) (feature_cols : list string)
           (items : list Item) (t : string) (preds : list Prediction)
  : M (list Prediction) :=
  (df <~ lift (_query_ticker_history items t) ;;
   if insufficient cfg df
   then retM (preds ++ [null_prediction t NOT_ENOUGH])
   else
     emit (EvFeatures t) ;;;
     '(X_latest, df_feat) <~ lift (_prep_latest_features cfg df feature_cols) ;;
     missing <~ lift (has_missing X_latest) ;;
     if missing : bool
     then retM (preds ++ [null_prediction t MISSING_VALUES])
     else
       emit (EvPredict t X_latest) ;;;
       prob <~ lift (predict_proba model X_latest) ;;
       let pred := F64.leb F64.half prob in
       w <~ lift (_why_string model feature_cols df_feat) ;;
       retM (preds ++ [mkPrediction t (Some pred) (Some prob) w]))%handler.

Fixpoint process_watchlist (cfg : Config) (model : Model) (feature_cols : list string)
         (query : string -> list Item) (tickers : list string)
         (preds : list Prediction) : M (list Prediction) :=
  match tickers with
  | [] => retM preds
  | t :: rest =>
      (preds' <~ process_ticker cfg model feature_cols (query t) t preds ;;
       process_watchlist cfg model feature_cols query rest preds')%handler
  end.

(** [lambda_handler] *)
Definition lambda_handler (cfg : Config) (w : World) : M Response :=
  ('(model, feature_cols) <~ lift (artifacts w) ;;
   let start := today w - LOOKBACK_DAYS cfg in
   preds <~ process_watchlist cfg model feature_cols
              (fun t => store w t start) (WATCHLIST cfg) [] ;;
   retM (mkResponse 200
           [("Content-Type", "application/json");
            ("Access-Control-Allow-Origin", "*")]%string
           (mkBody (String.append (utcnow w) "Z") preds)))%handler.

(** One invocation, from an empty record of steps. *)
Definition run (cfg : Config) (w : World) : result Response * list event :=
  lambda_handler cfg w [].

(** ** Vocabulary of the properties *)

(** *** Frames *)

Definition is_numeric (c : cell) : bool :=
  match c with
  | CFloat _ | CInt _ => true
  | _ => false
  end.

(** A cell that holds a finite number. *)
Definition finite_cell (c : cell) : bool :=
  match c with
  | CFloat x => F64.is_finite x
  | CInt _ => true
  | _ => false
  end.

(** The input check of scikit-learn's estimators ([check_array]): a row with
    a cell that is no number, or a number that is NaN or infinite, is turned
    down. *)
Definition check_array (X : DataFrame) : result unit :=
  if forallb is_numeric (row_cells 0 X)
  then if forallb finite_cell (row_cells 0 X) then Ok tt else Raise ValueError
  else Raise TypeError.

(** A classifier that checks its input and then answers with [proba]. *)
Definition forest (proba : DataFrame -> float) (X : DataFrame) : result float :=
  _ <- check_array X ;; Ok (proba X).

(** Every column other than the date and the ticker symbol holds numbers. *)
Definition numeric_features (df : DataFrame) : Prop :=
  Forall (fun c => fst c = "date"%string \/ fst c = "ticker"%string \/
                   Forall (fun v => is_numeric v = true) (snd c))
         (columns df).

Definition all_nan (xs : list float) : Prop :=
  Forall (fun x => F64.is_nan x = true) xs.

(** The frame of one ticker's history, as [_query_ticker_history] builds it:
    a datetime date column, the price and volume columns as numbers, every
    column as long as the index. *)
Definition history_frame (df : DataFrame) : Prop :=
  wf_frame df /\
  numeric_features df /\
  (exists ds, lookup "date" (columns df) = Some (map CDate ds)) /\
  Forall (fun n => has_column df n = true)
         ["close"; "volume"; "high"; "low"; "open"]%string.

(** The latest value of a column: the cell of the last row, the missing
    marker for a column the table does not have. *)
Definition latest_value (df : DataFrame) (c : string) : cell :=
  match lookup c (columns df) with
  | Some s => nth (nrows df - 1) s (CFloat F64.nan)
  | None => CFloat F64.nan
  end.

(** Dates in strictly ascending order. *)
Fixpoint ascendingb (ds : list Z) : bool :=
  match ds with
  | a :: (b :: _) as rest => (a <? b) && ascendingb rest
  | _ => true
  end.

(** The closes of a history, as the query reads them. *)
Definition closes_of (items : list Item) : list float :=
  map (fun it => dec (it_close it)) items.

(** *** The handler *)

(** The entry the service owes a ticker, outcome by outcome. *)
Definition entry_for (cfg : Config) (model : Model) (cols : list string)
           (items : list Item) (t : string) (p : Prediction) : Prop :=
  ticker p = t /\
  exists df,
    _query_ticker_history items t = Ok df /\
    (insufficient cfg df = true -> p = null_prediction t NOT_ENOUGH) /\
    (insufficient cfg df = false ->
     exists X df_feat b,
       _prep_latest_features cfg df cols = Ok (X, df_feat) /\
       has_missing X = Ok b /\
       (b = true -> p = null_prediction t MISSING_VALUES) /\
       (b = false ->
        exists prob w,
          predict_proba model X = Ok prob /\
          _why_string model cols df_feat = Ok w /\
          p = mkPrediction t (Some (F64.leb F64.half prob)) (Some prob) w)).

(** The predictions of a finished invocation. *)
Definition predictions_of (r : result Response) : result (list Prediction) :=
  match r with
  | Ok resp => Ok (predictions (body resp))
  | Raise e => Raise e
  end.

Definition event_ticker (e : event) : string :=
  match e with
  | EvFeatures t => t
  | EvPredict t _ => t
  end.

(** What must hold of a ticker's history for a recorded step to have been
    taken: the history passed the length check, and a classifier call was made
    on the aligned latest row with the has-missing flag false. *)
Definition justified (cfg : Config) (cols : list string) (items : list Item)
           (e : event) : Prop :=
  exists df,
    _query_ticker_history items (event_ticker e) = Ok df /\
    insufficient cfg df = false /\
    match e with
    | EvFeatures _ => True
    | EvPredict _ X =>
        exists df_feat,
          _prep_latest_features cfg df cols = Ok (X, df_feat) /\
          has_missing X = Ok false
    end.

(** *** The rationale *)

(** A schema column the rationale considers: no ticker-identity column, no
    raw OHLCV field. *)
Definition candidate (c : string) : bool :=
  negb (String.prefix "ticker_" c) && negb (existsb (String.eqb c) RAW_FIELDS).

(** A column of the table that yields no usable score: entirely undefined, or
    of zero or non-finite standard deviation. *)
Definition no_usable_score (df : DataFrame) (c : string) : Prop :=
  forall col,
    lookup c (columns df) = Some col ->
    exists series,
      mapM replace_inf_astype_float col = Ok series /\
      (forallb F64.is_nan series = true \/
       F64.eqb (series_std series) F64.zero = true \/
       F64.is_finite (series_std series) = false).

(** A column of the table with usable statistics: some defined value, and a
    standard deviation that is finite and not zero. *)
Definition usable (df : DataFrame) (c : string) : Prop :=
  exists col series,
    lookup c (columns df) = Some col /\
    mapM replace_inf_astype_float col = Ok series /\
    forallb F64.is_nan series = false /\
    F64.eqb (series_std series) F64.zero = false /\
    F64.is_finite (series_std series) = true.

Definition score_key (s : score) : float := fst (fst s).

(** [a] may stand before [b] in a descending ranking. *)
Definition descending (a b : score) : Prop :=
  F64.leb (score_key b) (score_key a) = true.

(** The score the rationale gives the column at place [i] of the schema:
    [|z|] times the importance at [i], with [z] the distance of the latest
    value from the column's mean in standard deviations. *)
Definition scored_as (importances : list float) (cols : list string)
           (df : DataFrame) (s : score) : Prop :=
  let '(k, c, z) := s in
  exists i col series x,
    nth_error cols i = Some c /\
    candidate c = true /\
    lookup c (columns df) = Some col /\
    mapM replace_inf_astype_float col = Ok series /\
    to_float (nth (nrows df - 1) col (CFloat F64.nan)) = Ok x /\
    z = (if F64.is_finite x
         then F64.div (F64.sub x (series_mean series)) (series_std series)
         else F64.zero) /\
    k = F64.mul (F64.abs z) (nth i importances F64.zero).

(** *** Binary64 values and the RSI window *)

(** A float of sign [s] whose magnitude is at least [k] units of the least
    subnormal, 2^-1074; infinity counts. *)
Definition beyond (s : bool) (k : Z) (x : float) : Prop :=
  x = S754_infinity s \/
  exists m e, x = S754_finite s m e /\ -1074 <= e /\ k <= Zpos m * 2 ^ (e + 1074).



(** The state of the rolling mean once row [i] is done. *)
Fixpoint roll_mean_state (w : nat) (values : list float) (i : nat) : RollMean.state :=
  match i with
  | O => RollMean.row w values 0 (RollMean.setup values 0)
  | S j => RollMean.row w values (S j) (roll_mean_state w values j)
  end.

(** How many of the rows [a] to [b - 1] hold a value that is not NaN. *)
Definition defined_between (values : list float) (a b : nat) : Z :=
  Z.of_nat (List.length
              (filter (fun j => negb (F64.is_nan (nth j values F64.nan)))
                      (seq a (b - a)))).

(** The last value of a series, NaN for an empty one. *)
Definition last_value (xs : list float) : float :=
  nth (List.length xs - 1) xs F64.nan.

(** The trailing [w] entries of a list. *)
Definition trailing {A : Type} (w : nat) (l : list A) : list A :=
  skipn (List.length l - w) l.

(** The differences between neighbours of a list, later minus earlier. *)
Definition gaps (xs : list float) : list float := map2 F64.sub (tl xs) xs.

(** Strictly rising, and strictly falling, by the float comparison. *)
Fixpoint rising (xs : list float) : Prop :=
  match xs with
  | a :: (b :: _) as rest => F64.ltb a b = true /\ rising rest
  | _ => True
  end.


(** ** Sample inputs *)

Definition sample_bar (d : Z) (o h l c v : Z) : Item :=
  mkItem d (Some (F64.of_Z o)) (Some (F64.of_Z h)) (Some (F64.of_Z l))
         (Some (F64.of_Z c)) (Some (F64.of_Z v)) None.

(** [n] daily bars from day 0 whose closes climb by one from [c0]. *)
Definition rising_bars (n : nat) (c0 : Z) : list Item :=
  map (fun i => let z := Z.of_nat i in sample_bar z (c0 + z) (c0 + z + 2) (c0 + z - 1) (c0 + z) 1000)
      (seq 0 n).

(** [n] daily bars from day 0 whose closes fall by one from [c0]. *)
Definition falling_bars (n : nat) (c0 : Z) : list Item :=
  map (fun i => let z := Z.of_nat i in sample_bar z (c0 - z) (c0 - z + 2) (c0 - z - 1) (c0 - z) 1000)
      (seq 0 n).


(** Twenty daily bars of positive closes: two spikes, then fifteen closes
    that rise by one and by two in turn. *)
Definition spike_bars : list Item :=
  map (fun ic => sample_bar (Z.of_nat (fst ic)) (snd ic) (snd ic) (snd ic) (snd ic) 1000)
      (combine (seq 0 20)
               [1; 10 ^ 40; 1; 10 ^ 20; 1; 100; 101; 103; 104; 106; 107; 109; 110;
                112; 113; 115; 116; 118; 119; 121]).

(** A bar that opens at zero: its intraday range is infinite. *)
Definition zero_open_bar : Item := sample_bar 0 0 2 1 1 1000.

(** Thirty daily bars, the last of which opens at zero. *)
Definition zero_open_history : list Item :=
  rising_bars 29 50 ++ [sample_bar 29 0 81 78 79 1000].

(** Thirty bars whose closes zigzag, so that every indicator varies. *)
Definition zigzag_bars : list Item :=
  map (fun i => let z := Z.of_nat i in
                let c := 100 + (z * z) mod 7 + z in
                sample_bar z c (c + 3) (c - 2) c (1000 + 10 * ((z * 3) mod 5)))
      (seq 0 30).

(** The feature table of a history, the empty frame where there is none. *)
Definition features_of (items : list Item) : DataFrame :=
  match _query_ticker_history items "MSFT" with
  | Ok df =>
      match add_features_lightweight df with
      | Ok out => out
      | Raise _ => empty_frame
      end
  | Raise _ => empty_frame
  end.

(** Twelve rising bars: too few for an RSI. *)
Definition twelve_bar_features : DataFrame :=
  Eval vm_compute in features_of (rising_bars 12 10).

Definition zigzag_features : DataFrame :=
  Eval vm_compute in features_of zigzag_bars.

Definition zigzag_schema : list string :=
  ["return_1d"; "open"; "rsi_14"; "daily_range"; "ticker_AAPL"; "volume_ratio"]%string.

(** A classifier that checks its input as scikit-learn's forests do, and
    then answers one half whatever the row, with importances for the first
    three schema columns. *)
Definition sample_model : Model :=
  mkModel (forest (fun _ => F64.half))
          (Some [F64.half; F64.one; F64.half]).

Definition sample_schema : list string :=
  ["return_1d"; "rsi_14"; "daily_range"; "ticker_AAPL"]%string.

(** A table that holds 24 bars of AAPL and 30 bars of every other ticker. *)
Definition sample_store (t : string) (start : Z) : list Item :=
  if String.eqb t "AAPL" then rising_bars 24 100 else rising_bars 30 50.

Definition sample_world : World :=
  mkWorld (Ok (sample_model, sample_schema)) sample_store 20000 "2026-02-03T00:00:00".

(** A table where the last bar of AAPL opens at zero; the schema asks for the
    intraday range alone. *)
Definition zero_open_world : World :=
  mkWorld (Ok (sample_model, ["daily_range"]%string))
          (fun t _ => if String.eqb t "AAPL" then zero_open_history else rising_bars 30 50)
          20000 "2026-02-03T00:00:00".

(** The aligned latest row of that AAPL history. *)
Definition zero_open_row : DataFrame :=
  Eval vm_compute in
    match _query_ticker_history zero_open_history "AAPL"%string with
    | Ok df =>
        match _prep_latest_features default_config df ["daily_range"]%string with
        | Ok (X, _) => X
        | Raise _ => empty_frame
        end
    | Raise _ => empty_frame
    end.

(** A one-ticker service that asks for two bars only. *)
Definition small_config : Config := mkConfig ["MSFT"]%string 60 2.

Definition small_world : World :=
  mkWorld (Ok (sample_model, ["daily_range"]%string))
          (fun _ _ => rising_bars 3 10) 20000 "2026-02-03T00:00:00".

(** The aligned latest row of the small world's ticker. *)
Definition small_row : DataFrame :=
  Eval vm_compute in
    match _query_ticker_history (rising_bars 3 10) "MSFT"%string with
    | Ok df =>
        match _prep_latest_features small_config df ["daily_range"]%string with
        | Ok (X, _) => X
        | Raise _ => empty_frame
        end
    | Raise _ => empty_frame
    end.

(** ** Vocabulary of further properties *)

(** The frame of a history whose rows are already in the wanted order: the
    columns [_query_ticker_history] builds, the ticker symbol included. *)
Definition history_table (rows : list Item) (t : string) : DataFrame :=
  let col (f : Item -> option float) := floats (map (fun it => dec (f it)) rows) in
  mkFrame (List.length rows)
    [("date", map (fun it => CDate (it_date it)) rows);
     ("open", col it_open);
     ("high", col it_high);
     ("low", col it_low);
     ("close", col it_close);
     ("volume", col it_volume);
     ("vwap", col it_vwap);
     ("ticker", repeat (CStr t) (List.length rows))]%string.


Definition FEATURE_NAMES : list string :=
  ["return_1d"; "return_5d"; "return_10d"; "ma_5"; "ma_20"; "price_to_ma5";
   "price_to_ma20"; "volatility_5d"; "volatility_10d"; "volume_ma_20";
   "volume_ratio"; "rsi_14"; "daily_range"; "close_to_vwap"; "day_of_week"]%string.

(** An entry of the response is a null entry with one of the two messages, or
    carries a probability, its thresholded direction and a rationale. *)
Definition well_formed_prediction (model : Model) (p : Prediction) : Prop :=
  (pred_up p = None /\ prob_up p = None /\
   (why p = NOT_ENOUGH \/ why p = MISSING_VALUES)) \/
  (exists X prob,
      predict_proba model X = Ok prob /\
      prob_up p = Some prob /\
      pred_up p = Some (F64.leb F64.half prob) /\
      (why p = FALLBACK \/ String.prefix "Driven mainly by " (why p) = true)).

Definition by_date (a b : Item) : Prop := it_date a <= it_date b.

(** The steps the handler can record for one ticker: none, the feature build
    alone, or the feature build followed by one classifier call. *)
Definition ticker_steps (t : string) (seg : list event) : Prop :=
  seg = [] \/ seg = [EvFeatures t] \/ exists X, seg = [EvFeatures t; EvPredict t X].

(** ** Further sample inputs *)

(** [n] daily bars from day 0 that all close at [c]. *)
Definition flat_bars (n : nat) (c : Z) : list Item :=
  map (fun i => sample_bar (Z.of_nat i) c (c + 2) (c - 1) c 1000) (seq 0 n).

(** A one-ticker service over sixteen flat bars, with the RSI in the schema. *)
Definition flat_world : World :=
  mkWorld (Ok (sample_model, ["return_1d"; "rsi_14"]%string))
          (fun _ _ => flat_bars 16 10) 20000 "2026-02-03T00:00:00".


(** What the sample service answers. *)
Definition sample_response : Response :=
  Eval vm_compute in
    match fst (run default_config sample_world) with
    | Ok r => r
    | Raise _ => mkResponse 0 [] (mkBody EmptyString [])
    end.

(** * The training script

    The feature builder and the labelling of [src/train_shared_model.py], over
    the same frames and series operations as the service. *)

Module Train.

(** The RSI block of [add_features]: the losses are negated before their
    rolling mean is taken. *)
Definition rsi_14 (close : list float) : list float :=
  let delta := diff close in
  let gain := rolling_mean 14 (where_pos delta) in
  let loss := rolling_mean 14 (map F64.opp (where_neg delta)) in
  let rs := map2 F64.div gain loss in
  map rsi_of_rs rs.

(** [add_features] *)
Definition add_features (df : DataFrame) : result DataFrame :=
  df <- sort_values_date df ;;
  close <- float_column df "close" ;;
  let df := set_column df "return_1d" (floats (pct_change 1 close)) in
  let df := set_column df "return_5d" (floats (pct_change 5 close)) in
  let df := set_column df "return_10d" (floats (pct_change 10 close)) in
  let ma_5 := rolling_mean 5 close in
  let ma_20 := rolling_mean 20 close in
  let df := set_column df "ma_5" (floats ma_5) in
  let df := set_column df "ma_20" (floats ma_20) in
  let df := set_column df "price_to_ma5" (floats (map2 F64.div close ma_5)) in
  let df := set_column df "price_to_ma20" (floats (map2 F64.div close ma_20)) in
  let df := set_column df "volatility_5d"
                       (floats (rolling_std 5 (pct_change 1 close))) in
  let df := set_column df "volatility_10d"
                       (floats (rolling_std 10 (pct_change 1 close))) in
  volume <- float_column df "volume" ;;
  let volume_ma_20 := rolling_mean 20 volume in
  let df := set_column df "volume_ma_20" (floats volume_ma_20) in
  let df := set_column df "volume_ratio" (floats (map2 F64.div volume volume_ma_20)) in
  let df := set_column df "rsi_14" (floats (rsi_14 close)) in
  df <- (if has_column df "high" && has_column df "low"
         then high <- float_column df "high" ;;
              low <- float_column df "low" ;;
              open <- float_column df "open" ;;
              Ok (set_column df "daily_range"
                    (floats (map2 F64.div (map2 F64.sub high low) open)))
         else Ok (set_scalar df "daily_range" (CFloat F64.nan))) ;;
  df <- (if has_column df "vwap"
         then vwap <- float_column df "vwap" ;;
              Ok (set_column df "close_to_vwap" (floats (map2 F64.div close vwap)))
         else Ok (set_scalar df "close_to_vwap" (CFloat F64.nan))) ;;
  dates <- (s <- get_column df "date" ;; mapM date_of s) ;;
  Ok (set_column df "day_of_week" (map (fun d => CInt (dayofweek d)) dates)).

(** [s.shift(-1)]: every value moves one row up, the last row is NaN. *)
Definition shift_back (xs : list float) : list float :=
  match xs with
  | [] => []
  | _ :: rest => rest ++ [F64.nan]
  end.

(** [add_target]: tomorrow's close beside today's, and the 0/1 label
    [tomorrow_close > close]. *)
Definition add_target (df : DataFrame) : result DataFrame :=
  close <- float_column df "close" ;;
  let tomorrow_close := shift_back close in
  let df := set_column df "tomorrow_close" (floats tomorrow_close) in
  tomorrow <- float_column df "tomorrow_close" ;;
  close <- float_column df "close" ;;
  let target := map2 (fun t c => CInt (if F64.ltb c t then 1 else 0)) tomorrow close in
  Ok (set_column df "target" target).

End Train.

(** ** Vocabulary of the comparison with the service *)

(** Two values that are opposite to each other, or both zero. *)
Definition mirror (a b : float) : Prop :=
  match a, b with
  | S754_zero _, S754_zero _ => True
  | _, _ => b = F64.opp a
  end.

(** The state of a rolling mean beside the state of the rolling mean of the
    negated values: the same counts, the negative values of the one being
    the others of the other, and sums that mirror each other. *)
Definition mirror_states (st st' : RollMean.state) : Prop :=
  RollMean.nobs st' = RollMean.nobs st /\
  mirror (RollMean.sum_x st) (RollMean.sum_x st') /\
  RollMean.neg_ct st' = RollMean.nobs st - RollMean.neg_ct st /\
  mirror (RollMean.compensation_add st) (RollMean.compensation_add st') /\
  mirror (RollMean.compensation_remove st) (RollMean.compensation_remove st') /\
  RollMean.num_consecutive_same_value st' = RollMean.num_consecutive_same_value st /\
  RollMean.prev_value st' = F64.opp (RollMean.prev_value st).

(** * The ingest service

    [src/services/ingest/handler.py]: the choice of the day to ingest, the
    choice of the day's biggest mover among the watchlist rows of the grouped
    response, and the fetch with retries. *)

Module Ingest.

Definition WATCHLIST : list string :=
  ["NVDA"; "AAPL"; "MSFT"; "GOOGL"; "AMZN"; "TSLA"]%string.

(** The day numbers of [date.min], 0001-01-01, and of [date.max],
    9999-12-31. *)
Definition DATE_MIN : Z := -719162.
Definition DATE_MAX : Z := 2932896.

(** [d - dt.timedelta(days=k)] for a date [d]: [None] where Python raises
    [OverflowError], the result being no date. *)
Definition minus_days (d k : Z) : option Z :=
  let r := d - k in
  if (DATE_MIN <=? r) && (r <=? DATE_MAX) then Some r else None.

(** [previous_trading_day], from New York's date as a day number.
    [date.weekday()] counts from Monday as [Timestamp.dayofweek] does. *)
Definition previous_trading_day (today_ny : Z) : option Z :=
  let wd := dayofweek today_ny in
  if wd =? 0 then minus_days today_ny 3
  else if wd =? 6 then minus_days today_ny 2
  else if wd =? 5 then minus_days today_ny 1
  else minus_days today_ny 1.

(** A row of [fetch_grouped_daily]; of its fields the choice of the mover
    reads the ticker, the open and the close. *)
Record Row : Type := mkRow {
  r_ticker : string;
  r_open : float;
  r_close : float;
  r_high : option float;
  r_low : option float;
  r_vwap : option float;
  r_volume : float
}.

Record Winner : Type := mkWinner {
  w_ticker : string;
  w_open : float;
  w_close : float;
  percent_change : float;
  abs_change : float
}.

Inductive error : Type :=
| RuntimeError (msg : string).

Definition NO_WATCHLIST : string := "No watchlist tickers found in grouped response.".
Definition NO_WINNER : string :=
  "Could not compute winner (open prices were zero or missing).".

(** [x["ticker"] in WATCHLIST] *)
Definition in_watchlist (x : Row) : bool :=
  existsb (String.eqb (r_ticker x)) WATCHLIST.

Definition pct_of (x : Row) : float :=
  F64.mul (F64.div (F64.sub (r_close x) (r_open x)) (r_open x)) F64.hundred.

(** One turn of the loop over the watchlist rows. *)
Definition consider (best : option Winner) (x : Row) : option Winner :=
  let open_p := r_open x in
  let close_p := r_close x in
  if F64.eqb open_p F64.zero then best
  else
    let pct := pct_of x in
    let abs_pct := F64.abs pct in
    let candidate := mkWinner (r_ticker x) open_p close_p pct abs_pct in
    match best with
    | None => Some candidate
    | Some b => if F64.ltb (abs_change b) abs_pct then Some candidate else best
    end.

(** [pick_biggest_mover] *)
Definition pick_biggest_mover (rows : list Row) : error + Winner :=
  let wl := filter in_watchlist rows in
  match wl with
  | [] => inl (RuntimeError NO_WATCHLIST)
  | _ =>
      match fold_left consider wl None with
      | None => inl (RuntimeError NO_WINNER)
      | Some best => inr best
      end
  end.

(** ** Fetching with retries

    [get_json] talks to the outside: each request gets an answer or fails,
    each retry draws a random jitter and sleeps, and [_pace] reads the clock
    and sleeps to keep [MIN_GAP_S] between two requests.  The answers and the
    jitters are given by the number of the attempt, the clock by the number of
    the reading; what the function does is recorded step by step. *)

(** The [Retry-After] header as [float(ra) if ra else ...] reads it: absent
    or empty, a number, or a text [float] rejects. *)
Inductive retry_after : Type :=
| RaAbsent
| RaNumber (x : float)
| RaOther.

(** The outcome of [SESSION.get]: an exception of the HTTP library, or a
    response with its status, its [Retry-After] header and its body as
    [r.json()] reads it ([None] where that raises). *)
Inductive reply (J : Type) : Type :=
| Failed
| Reply (status : Z) (ra : retry_after) (json : option J).

Arguments Failed {J}.
Arguments Reply {J} status ra json.

Inductive fetch_error : Type :=
| RequestException
| JSONDecodeError
| HTTPError (status : Z)
| SleepValueError
| OverflowError
| AttemptsExhausted (last_status : option Z) (attempts : Z).

(** The steps recorded: a call of [_pace] and the sleep it takes, a request,
    and the sleep before a retry. *)
Inductive step : Type :=
| EvPace
| EvPaceSleep (seconds : float)
| EvGet (i : nat)
| EvSleep (seconds : float).

Definition RETRYABLE : list Z := [429; 500; 502; 503; 504].

Definition thirty : float := Eval cbv in F64.of_Z 30.

(** [2 ** i] as a float: the conversion fails from [2 ** 1024] on. *)
Definition pow2 (i : nat) : fetch_error + float :=
  if Nat.ltb i 1024 then inr (F64.of_Z (2 ^ Z.of_nat i)) else inl OverflowError.

(** [float(ra) if ra else 2 ** i], with the fallback on [ValueError], plus
    the jitter. *)
Definition sleep_plus_jitter (ra : retry_after) (i : nat) (jitter : float)
  : fetch_error + float :=
  match ra with
  | RaNumber x => inr (F64.add x jitter)
  | RaAbsent | RaOther =>
      match pow2 i with
      | inl e => inl e
      | inr p => inr (F64.add p jitter)
      end
  end.

(** [min(x, 30)]: the second argument wins only when it is smaller. *)
Definition min30 (x : float) : float := if F64.ltb thirty x then thirty else x.

(** [time.sleep(x)] (CPython 3.11): [ValueError] for NaN, [OverflowError]
    when the length in nanoseconds leaves the signed 64-bit range,
    [ValueError] for a negative length; [None] when it sleeps. *)
Definition time_sleep (x : float) : option fetch_error :=
  if F64.is_nan x then Some SleepValueError
  else
    let ns := F64.mul x (F64.of_Z (10 ^ 9)) in
    if F64.ltb ns (F64.of_Z (- 2 ^ 63)) || F64.leb (F64.of_Z (2 ^ 63)) ns
    then Some OverflowError
    else if F64.ltb x F64.zero then Some SleepValueError
    else None.

(** What [_pace] keeps between calls: the global [_last_call_ts], and how
    often the clock has been read. *)
Record pace_state : Type := mkPace {
  _last_call_ts : float;
  readings : nat
}.

(** [_pace], with [time.time()] answered by [clock]. *)
Definition _pace (min_gap_s : float) (clock : nat -> float) (ps : pace_state)
  : (fetch_error + pace_state) * list step :=
  if F64.leb min_gap_s F64.zero then (inr ps, [EvPace])
  else
    let now := clock (readings ps) in
    let wait := F64.sub min_gap_s (F64.sub now (_last_call_ts ps)) in
    let ps' := mkPace (clock (S (readings ps))) (S (S (readings ps))) in
    if F64.ltb F64.zero wait
    then match time_sleep wait with
         | Some e => (inl e, [EvPace])
         | None => (inr ps', [EvPace; EvPaceSleep wait])
         end
    else (inr ps', [EvPace]).

(** [r.raise_for_status()] raises for the 4xx and 5xx statuses only. *)
Definition is_error_status (st : Z) : bool := (400 <=? st) && (st <? 600).

(** The loop of [get_json] with [n] turns left, at attempt [i]. *)
Fixpoint get_json_loop {J : Type} (server : nat -> reply J) (jitter : nat -> float)
         (min_gap_s : float) (clock : nat -> float)
         (attempts : Z) (n i : nat) (last_status : option Z)
         (ps : pace_state) (log : list step)
  : (fetch_error + J) * list step :=
  match n with
  | O => (inl (AttemptsExhausted last_status attempts), log)
  | S n' =>
      match _pace min_gap_s clock ps with
      | (inl e, steps) => (inl e, log ++ steps)
      | (inr ps, steps) =>
          let log := log ++ steps ++ [EvGet i] in
          match server i with
          | Failed => (inl RequestException, log)
          | Reply st ra json =>
              if st =? 200
              then (match json with Some j => inr j | None => inl JSONDecodeError end,
                    log)
              else
                let last_status := Some st in
                if existsb (Z.eqb st) RETRYABLE
                then
                  match sleep_plus_jitter ra i (jitter i) with
                  | inl e => (inl e, log)
                  | inr s =>
                      let s := min30 s in
                      match time_sleep s with
                      | Some e => (inl e, log)
                      | None =>
                          get_json_loop server jitter min_gap_s clock attempts
                                        n' (S i) last_status ps (log ++ [EvSleep s])
                      end
                  end
                else if is_error_status st then (inl (HTTPError st), log)
                else get_json_loop server jitter min_gap_s clock attempts
                                   n' (S i) last_status ps log
          end
      end
  end.

(** [get_json], called with [_last_call_ts] at [last_ts]. *)
Definition get_json {J : Type} (server : nat -> reply J) (jitter : nat -> float)
           (min_gap_s : float) (clock : nat -> float) (last_ts : float)
           (attempts : Z) : (fetch_error + J) * list step :=
  get_json_loop server jitter min_gap_s clock attempts (Z.to_nat attempts) 0 None
                (mkPace last_ts 0) [].

(** The requests of a record of steps, the sleeps before a retry, and the
    sleeps of [_pace]. *)
Definition requests (log : list step) : list nat :=
  flat_map (fun e => match e with EvGet i => [i] | _ => [] end) log.

Definition sleeps (log : list step) : list float :=
  flat_map (fun e => match e with EvSleep s => [s] | _ => [] end) log.

Definition pace_sleeps (log : list step) : list float :=
  flat_map (fun e => match e with EvPaceSleep s => [s] | _ => [] end) log.

(** Whether the answer to attempt [m] is one the loop sleeps on. *)
Definition retried {J : Type} (server : nat -> reply J) (m : nat) : bool :=
  match server m with
  | Reply st _ _ => negb (st =? 200) && existsb (Z.eqb st) RETRYABLE
  | Failed => false
  end.

(** The rows the loop can choose from, and the winner a row stands for. *)
Definition eligible (x : Row) : bool :=
  in_watchlist x && negb (F64.eqb (r_open x) F64.zero).

Definition winner_of (x : Row) : Winner :=
  mkWinner (r_ticker x) (r_open x) (r_close x) (pct_of x) (F64.abs (pct_of x)).

End Ingest.

(** ** Sample rows of a grouped response *)

Definition sample_row (t : string) (o c : Z) : Ingest.Row :=
  Ingest.mkRow t (F64.of_Z o) (F64.of_Z c) None None None (F64.of_Z 1000).

(** AAPL and TSLA both move ten percent, AAPL first; IBM is not watched and
    MSFT opens at zero. *)
Definition sample_rows : list Ingest.Row :=
  [sample_row "IBM" 10 30; sample_row "NVDA" 100 105; sample_row "AAPL" 100 110;
   sample_row "MSFT" 0 5; sample_row "TSLA" 100 90]%string.

(** * The read API

    [src/services/api/handler.py]: scan the whole table page by page, sort by
    date with the latest first, return the first [DAYS] items.  An item is
    read for its date only; the JSON text of the body is not modelled.  Dates
    are compared as Python compares strings, character by character (for the
    UTF-8 bytes of a text that is its code point order). *)

Module Api.

Record Item : Type := mkItem {
  i_date : option string;
  i_ticker : string;
  i_percent_change : float;
  i_close : float
}.

(** One answer of [table.scan]: its [Items], and whether it carries a
    [LastEvaluatedKey]. *)
Record Page : Type := mkPage {
  p_items : option (list Item);
  p_more : bool
}.

(** The scan loop over the answers the table gives in turn; [None] when the
    answers run out while the last one still asks to go on. *)
Fixpoint scan_all (pages : list Page) (items : list Item) : option (list Item) :=
  match pages with
  | [] => None
  | resp :: rest =>
      let items := items ++ match p_items resp with Some l => l | None => [] end in
      if p_more resp then scan_all rest items else Some items
  end.

(** [x.get("date", "")] *)
Definition key (x : Item) : string :=
  match i_date x with Some d => d | None => EmptyString end.

(** [items.sort(key=..., reverse=True)]: descending by key, items of equal
    key in their original order. *)
Fixpoint insert (x : Item) (l : list Item) : list Item :=
  match l with
  | [] => [x]
  | y :: rest =>
      if String.ltb (key x) (key y) then y :: insert x rest else x :: l
  end.

Definition sort (l : list Item) : list Item := fold_right insert [] l.

(** [items[:n]] for an integer [n] of either sign. *)
Definition slice_to (n : Z) (l : list Item) : list Item :=
  if 0 <=? n then firstn (Z.to_nat n) l
  else firstn (List.length l - Z.to_nat (- n)) l.

Record Body : Type := mkBody {
  days : Z;
  items : list Item
}.

Record Response : Type := mkResponse {
  statusCode : Z;
  headers : list (string * string);
  body : Body
}.

(** [lambda_handler], for the setting [DAYS] and the table's answers. *)
Definition lambda_handler (DAYS : Z) (pages : list Page) : option Response :=
  match scan_all pages [] with
  | None => None
  | Some items =>
      let items := sort items in
      let items := slice_to DAYS items in
      Some (mkResponse 200
              [("Content-Type", "application/json");
               ("Access-Control-Allow-Origin", "*");
               ("Access-Control-Allow-Methods", "GET,OPTIONS");
               ("Access-Control-Allow-Headers", "Content-Type")]%string
              (mkBody DAYS items))
  end.

(** Every item the table hands out before the scan ends. *)
Fixpoint scanned (pages : list Page) : list Item :=
  match pages with
  | [] => []
  | resp :: rest =>
      match p_items resp with Some l => l | None => [] end
      ++ (if p_more resp then scanned rest else [])
  end.

(** The answers end the loop: some answer carries no [LastEvaluatedKey]. *)
Definition ends (pages : list Page) : Prop :=
  exists resp, In resp pages /\ p_more resp = false.

(** No later than, by date. *)
Definition not_later (a b : Item) : Prop := String.leb (key a) (key b) = true.

End Api.

(** Four days of winners over two pages, out of order. *)
Definition sample_pages : list Api.Page :=
  [Api.mkPage (Some [Api.mkItem (Some "2026-02-03") "AAPL" F64.one F64.hundred;
                     Api.mkItem (Some "2026-02-05") "NVDA" F64.one F64.hundred]) true;
   Api.mkPage (Some [Api.mkItem (Some "2026-02-04") "TSLA" F64.one F64.hundred;
                     Api.mkItem (Some "2026-02-02") "MSFT" F64.one F64.hundred]) false]%string.

(** A server that is overloaded twice and then answers, one that stays
    overloaded, and one that does not know the page; a quarter second of
    jitter. *)
Definition sample_server (i : nat) : Ingest.reply nat :=
  if Nat.ltb i 2 then Ingest.Reply 503 Ingest.RaAbsent None
  else Ingest.Reply 200 Ingest.RaAbsent (Some 7%nat).

Definition busy_server (i : nat) : Ingest.reply nat :=
  Ingest.Reply 429 (Ingest.RaNumber (F64.of_Z 120)) None.

Definition lost_server (i : nat) : Ingest.reply nat :=
  if Nat.ltb i 1 then Ingest.Reply 502 Ingest.RaOther None
  else Ingest.Reply 404 Ingest.RaAbsent None.

Definition sample_jitter (i : nat) : float :=
  Eval cbv in F64.div F64.one (F64.of_Z 4).

(** A clock that advances by a second from one reading to the next, and a
    gap of three seconds to keep between requests. *)
Definition sample_clock (i : nat) : float := F64.of_Z (1000 + Z.of_nat i).

Definition sample_gap : float := Eval cbv in F64.of_Z 3.

(** * Properties *)

(** ** The error monad and the frame primitives *)

Lemma bind_ok {A B : Type} (m : result A) (k : A -> result B) (b : B) :
  bind m k = Ok b -> exists a, m = Ok a /\ k a = Ok b.
Proof.
  destruct m as [a|e]; cbn [bind]; intros H; [eauto | discriminate].
Qed.

Ltac bind_inv H :=
  let a := fresh "v" in
  let E := fresh "E" in
  apply bind_ok in H; destruct H as (a & E & H).

Lemma mapM_length {A B : Type} (f : A -> result B) (l : list A) (l' : list B) :
  mapM f l = Ok l' -> List.length l' = List.length l.
Proof.
  revert l'; induction l as [|a l IH]; intros l' H; cbn [mapM] in H.
  - now inversion H.
  - bind_inv H. bind_inv H. inversion H; subst. cbn [List.length].
    now rewrite (IH _ E0).
Qed.

Lemma mapM_Forall2 {A B : Type} (f : A -> result B) (l : list A) (l' : list B) :
  mapM f l = Ok l' -> Forall2 (fun a b => f a = Ok b) l l'.
Proof.
  revert l'; induction l as [|a l IH]; intros l' H; cbn [mapM] in H.
  - inversion H; constructor.
  - bind_inv H. bind_inv H. inversion H; subst. constructor; auto.
Qed.

Lemma mapM_total {A B : Type} (f : A -> result B) (l : list A) :
  Forall (fun a => exists b, f a = Ok b) l -> exists l', mapM f l = Ok l'.
Proof.
  induction 1 as [|a l (b & Hb) _ (l' & IH)]; cbn [mapM].
  - eauto.
  - rewrite Hb, IH. cbn [bind]. eauto.
Qed.

Lemma mapM_to_float_floats (xs : list float) : mapM to_float (floats xs) = Ok xs.
Proof.
  induction xs as [|x xs IH]; cbn [floats map mapM to_float bind]; [reflexivity|].
  fold (floats xs). now rewrite IH.
Qed.

Lemma mapM_date_of_dates (ds : list Z) : mapM date_of (map CDate ds) = Ok ds.
Proof.
  induction ds as [|d ds IH]; cbn [map mapM date_of bind]; [reflexivity|].
  now rewrite IH.
Qed.

Lemma lookup_assign_eq (n : string) (s : Series) (cols : list (string * Series)) :
  lookup n (assign n s cols) = Some s.
Proof.
  induction cols as [|[m s'] cols IH]; cbn [assign lookup].
  - now rewrite String.eqb_refl.
  - destruct (String.eqb n m) eqn:E; cbn [lookup]; rewrite E; auto.
Qed.

Lemma lookup_assign_neq (n m : string) (s : Series) (cols : list (string * Series)) :
  String.eqb m n = false ->
  lookup m (assign n s cols) = lookup m cols.
Proof.
  intros Hmn. induction cols as [|[k s'] cols IH]; cbn [assign lookup].
  - now rewrite Hmn.
  - destruct (String.eqb n k) eqn:E; cbn [lookup].
    + apply String.eqb_eq in E; subst k. now rewrite Hmn.
    + now rewrite IH.
Qed.

Lemma lookup_assign (n m : string) (s : Series) (cols : list (string * Series)) :
  lookup m (assign n s cols) = if String.eqb m n then Some s else lookup m cols.
Proof.
  destruct (String.eqb m n) eqn:E.
  - apply String.eqb_eq in E; subst. apply lookup_assign_eq.
  - now apply lookup_assign_neq.
Qed.

Lemma lookup_map_snd (g : Series -> Series) (n : string) (cols : list (string * Series)) :
  lookup n (map (fun c => (fst c, g (snd c))) cols) = option_map g (lookup n cols).
Proof.
  induction cols as [|[m s] cols IH]; cbn [map lookup fst snd option_map]; [reflexivity|].
  destruct (String.eqb n m); auto.
Qed.

Lemma lookup_In (n : string) (s : Series) (cols : list (string * Series)) :
  lookup n cols = Some s -> In (n, s) cols.
Proof.
  induction cols as [|[m s'] cols IH]; cbn [lookup]; [discriminate|].
  destruct (String.eqb n m) eqn:E; intros H.
  - apply String.eqb_eq in E; inversion H; subst; now left.
  - right; auto.
Qed.

(** Rewriting the reads that follow a chain of column assignments. *)
Ltac frame_simpl :=
  cbn [columns nrows set_column set_scalar];
  repeat first [ rewrite lookup_assign_eq
               | rewrite lookup_assign_neq by reflexivity ].

Ltac frame_simpl_in H :=
  cbn [columns nrows set_column set_scalar] in H;
  repeat first [ rewrite lookup_assign_eq in H
               | rewrite lookup_assign_neq in H by reflexivity ].

(** ** Sorting by date *)

Lemma insert_by_key_length (k : Z) (i : nat) (l : list (Z * nat)) :
  List.length (insert_by_key k i l) = S (List.length l).
Proof.
  induction l as [|[k' i'] l IH]; cbn [insert_by_key]; [reflexivity|].
  destruct (Z.ltb k k'); cbn [List.length]; auto.
Qed.

Lemma insert_by_key_perm (k : Z) (i : nat) (l : list (Z * nat)) :
  Permutation (insert_by_key k i l) ((k, i) :: l).
Proof.
  induction l as [|[k' i'] l IH]; cbn [insert_by_key]; [reflexivity|].
  destruct (Z.ltb k k'); [reflexivity|].
  rewrite IH. apply perm_swap.
Qed.

Lemma fold_insert_perm (kis acc : list (Z * nat)) :
  Permutation
    (fold_left (fun acc ki => insert_by_key (fst ki) (snd ki) acc) kis acc)
    (kis ++ acc).
Proof.
  revert acc; induction kis as [|[k i] kis IH]; intros acc; cbn [fold_left app].
  - reflexivity.
  - rewrite IH. cbn [fst snd]. rewrite insert_by_key_perm.
    symmetry. apply Permutation_middle.
Qed.

Lemma sort_perm_perm (keys : list Z) :
  Permutation (sort_perm keys) (seq 0 (List.length keys)).
Proof.
  unfold sort_perm. rewrite fold_insert_perm, app_nil_r.
  assert (H : forall (ks : list Z) (ns : list nat),
             List.length ks = List.length ns -> map snd (combine ks ns) = ns).
  { induction ks as [|k ks IH]; destruct ns as [|n ns]; cbn; try discriminate; auto.
    intros H; f_equal; apply IH; lia. }
  rewrite H; [reflexivity | now rewrite length_seq].
Qed.

Lemma sort_perm_length (keys : list Z) :
  List.length (sort_perm keys) = List.length keys.
Proof.
  rewrite (Permutation_length (sort_perm_perm keys)). apply length_seq.
Qed.

Lemma sort_perm_range (keys : list Z) (i : nat) :
  In i (sort_perm keys) -> (i < List.length keys)%nat.
Proof.
  intros H. apply (Permutation_in _ (sort_perm_perm keys)) in H.
  apply in_seq in H; lia.
Qed.

Lemma take_rows_length (perm : list nat) (s : Series) :
  List.length (take_rows perm s) = List.length perm.
Proof. unfold take_rows. apply length_map. Qed.

Lemma sort_values_date_inv (df sorted : DataFrame) :
  sort_values_date df = Ok sorted ->
  exists s keys,
    lookup "date" (columns df) = Some s /\
    mapM date_of s = Ok keys /\
    sorted = mkFrame (nrows df)
               (map (fun c => (fst c, take_rows (sort_perm keys) (snd c))) (columns df)).
Proof.
  unfold sort_values_date, get_column. intros H.
  destruct (lookup "date" (columns df)) as [s|] eqn:Hs; cbn [bind] in H; [|discriminate].
  bind_inv H. inversion H; subst. eauto.
Qed.

Lemma sort_values_date_lookup (df sorted : DataFrame) (n : string) (s : Series) :
  wf_frame df ->
  sort_values_date df = Ok sorted ->
  lookup n (columns sorted) = Some s ->
  List.length s = nrows df.
Proof.
  intros Hwf H Hn.
  destruct (sort_values_date_inv _ _ H) as (sd & keys & Hd & Hk & ->).
  cbn [columns] in Hn. rewrite lookup_map_snd in Hn.
  destruct (lookup n (columns df)) as [s0|]; cbn [option_map] in Hn; [|discriminate].
  inversion Hn; subst. rewrite take_rows_length, sort_perm_length.
  rewrite (mapM_length _ _ _ Hk).
  apply lookup_In in Hd. unfold wf_frame in Hwf.
  rewrite Forall_forall in Hwf. apply (Hwf _ Hd).
Qed.

(** ** The feature builder *)

Lemma div_nan_r (x : float) : F64.div x F64.nan = F64.nan.
Proof. destruct x; reflexivity. Qed.

Lemma sub_nan_l (y : float) : F64.sub F64.nan y = F64.nan.
Proof. reflexivity. Qed.

Lemma firstn_repeat_app {A : Type} (a : A) (n k : nat) (l : list A) :
  (n <= k)%nat -> firstn n (repeat a k ++ l) = repeat a n.
Proof.
  revert k; induction n as [|n IH]; intros k Hk; [reflexivity|].
  destruct k as [|k]; [lia|]. cbn [repeat app firstn]. f_equal. apply IH; lia.
Qed.

Lemma series_shift_short (k : nat) (xs : list float) :
  (List.length xs <= k)%nat -> series_shift k xs = repeat F64.nan (List.length xs).
Proof. intros H. unfold series_shift. now apply firstn_repeat_app. Qed.

Lemma map2_div_nan (xs : list float) (n : nat) :
  all_nan (map2 F64.div xs (repeat F64.nan n)).
Proof.
  revert n; induction xs as [|x xs IH]; intros [|n]; cbn [map2 repeat];
    try constructor.
  - now rewrite div_nan_r.
  - apply IH.
Qed.

Lemma pct_change_short (k : nat) (xs : list float) :
  (List.length xs <= k)%nat -> all_nan (pct_change k xs).
Proof.
  intros H. unfold pct_change. rewrite (series_shift_short _ _ H).
  unfold all_nan. rewrite Forall_map.
  eapply Forall_impl; [|apply map2_div_nan].
  intros x Hx; cbn beta in *. destruct x; try discriminate. reflexivity.
Qed.

Lemma map2_length {A B C : Type} (f : A -> B -> C) (l1 : list A) (l2 : list B) :
  List.length (map2 f l1 l2) = Nat.min (List.length l1) (List.length l2).
Proof.
  revert l2; induction l1 as [|a l1 IH]; intros [|b l2]; cbn [map2 List.length Nat.min]; auto.
Qed.

Lemma series_shift_length (k : nat) (xs : list float) :
  List.length (series_shift k xs) = List.length xs.
Proof.
  unfold series_shift. rewrite length_firstn, length_app, repeat_length. lia.
Qed.

Lemma pct_change_length (k : nat) (xs : list float) :
  List.length (pct_change k xs) = List.length xs.
Proof.
  unfold pct_change. rewrite length_map, map2_length, series_shift_length. lia.
Qed.

(** What the builder's result holds in the columns the properties read: the
    closes it was computed from, in date order, and two of the indicators. *)
Lemma add_features_columns (df out : DataFrame) :
  add_features_lightweight df = Ok out ->
  exists sorted close,
    sort_values_date df = Ok sorted /\
    float_column sorted "close" = Ok close /\
    float_column out "close" = Ok close /\
    lookup "return_5d" (columns out) = Some (floats (pct_change 5 close)) /\
    lookup "rsi_14" (columns out) = Some (floats (rsi_14 close)) /\
    nrows out = nrows df.
Proof.
  unfold add_features_lightweight. intros H.
  bind_inv H. rename v into sorted.
  bind_inv H. rename v into close.
  bind_inv H. bind_inv H. bind_inv H. bind_inv H.
  exists sorted, close. split; [assumption|]. split; [assumption|].
  assert (Hn : nrows sorted = nrows df).
  { destruct (sort_values_date_inv _ _ E) as (? & ? & _ & _ & ->). reflexivity. }
  bind_inv H. rename v3 into withvwap.
  bind_inv H. inversion H; subst out; clear H.
  match goal with
  | Hv : (if has_column ?d "vwap" then _ else _) = Ok withvwap |- _ =>
      assert (Hlook : forall n, String.eqb n "close_to_vwap" = false ->
                                lookup n (columns withvwap) = lookup n (columns d));
      [ intros n Hnv; destruct (has_column d "vwap");
        [ bind_inv Hv; inversion Hv; subst withvwap; cbn [columns set_column];
          now rewrite lookup_assign_neq by assumption
        | inversion Hv; subst withvwap; reflexivity ]
      | assert (Hrows : nrows withvwap = nrows sorted);
        [ destruct (has_column d "vwap");
          [ bind_inv Hv; inversion Hv; subst withvwap; reflexivity
          | inversion Hv; subst withvwap; reflexivity ]
        | clear Hv ] ]
  end.
  unfold float_column, get_column in *.
  cbn [columns set_column nrows].
  rewrite !lookup_assign_neq by reflexivity.
  rewrite !Hlook by reflexivity.
  frame_simpl.
  repeat split; try reflexivity; try congruence.
Qed.

(** ** Shape of the frames the pipeline builds *)

Lemma roll_mean_rows_length (w : nat) (minp : Z) (values : list float) (k i : nat)
      (st : RollMean.state) :
  List.length (RollMean.rows w minp values k i st) = k.
Proof.
  revert i st. induction k as [|k IH]; intros i st; cbn [RollMean.rows List.length];
    [reflexivity | now rewrite IH].
Qed.

Lemma roll_var_rows_length (w : nat) (minp ddof : Z) (values : list float) (k i : nat)
      (st : RollVar.state) :
  List.length (RollVar.rows w minp ddof values k i st) = k.
Proof.
  revert i st. induction k as [|k IH]; intros i st; cbn [RollVar.rows List.length];
    [reflexivity | now rewrite IH].
Qed.

Lemma rolling_mean_length (w : nat) (xs : list float) :
  List.length (rolling_mean w xs) = List.length xs.
Proof.
  unfold rolling_mean, RollMean.roll_mean. now rewrite roll_mean_rows_length, length_map.
Qed.

Lemma rolling_std_length (w : nat) (xs : list float) :
  List.length (rolling_std w xs) = List.length xs.
Proof.
  unfold rolling_std, RollVar.roll_var.
  now rewrite length_map, roll_var_rows_length, length_map.
Qed.

Lemma diff_length (xs : list float) : List.length (diff xs) = List.length xs.
Proof. unfold diff. rewrite map2_length, series_shift_length. lia. Qed.

Lemma rsi_14_length (xs : list float) : List.length (rsi_14 xs) = List.length xs.
Proof.
  unfold rsi_14, where_pos, where_neg.
  rewrite !length_map, map2_length, length_map, !rolling_mean_length, !length_map, diff_length.
  lia.
Qed.

Ltac len_solve :=
  unfold floats;
  repeat first [ rewrite length_map | rewrite map2_length | rewrite pct_change_length
               | rewrite rolling_mean_length | rewrite rolling_std_length
               | rewrite rsi_14_length
               | rewrite repeat_length ];
  lia.

Lemma wf_set_column (df : DataFrame) (n : string) (s : Series) :
  wf_frame df -> List.length s = nrows df -> wf_frame (set_column df n s).
Proof.
  unfold wf_frame, set_column; cbn [columns nrows]. intros Hwf Hs.
  induction (columns df) as [|[m s'] cols IH]; cbn [assign].
  - constructor; auto.
  - inversion Hwf; subst. destruct (String.eqb n m); constructor; auto.
Qed.

Lemma numeric_set_column (df : DataFrame) (n : string) (s : Series) :
  numeric_features df -> Forall (fun v => is_numeric v = true) s ->
  numeric_features (set_column df n s).
Proof.
  unfold numeric_features, set_column; cbn [columns nrows]. intros Hnum Hs.
  induction (columns df) as [|[m s'] cols IH]; cbn [assign].
  - constructor; auto.
  - inversion Hnum; subst. destruct (String.eqb n m); constructor; cbn [fst snd]; auto.
Qed.

Lemma numeric_floats (xs : list float) : Forall (fun v => is_numeric v = true) (floats xs).
Proof. unfold floats. rewrite Forall_map. apply Forall_forall; reflexivity. Qed.

Lemma has_column_set_column (df : DataFrame) (n m : string) (s : Series) :
  has_column df m = true -> has_column (set_column df n s) m = true.
Proof.
  unfold has_column, set_column; cbn [columns]. rewrite lookup_assign.
  destruct (String.eqb m n); auto.
Qed.

Lemma numeric_lookup (df : DataFrame) (n : string) (s : Series) :
  numeric_features df -> lookup n (columns df) = Some s ->
  n <> "date"%string -> n <> "ticker"%string ->
  Forall (fun v => is_numeric v = true) s.
Proof.
  intros Hnum Hl Hd Ht. apply lookup_In in Hl.
  unfold numeric_features in Hnum. rewrite Forall_forall in Hnum.
  destruct (Hnum _ Hl) as [H|[H|H]]; cbn [fst snd] in H; congruence.
Qed.

Lemma mapM_to_float_numeric (s : Series) :
  Forall (fun v => is_numeric v = true) s -> exists xs, mapM to_float s = Ok xs.
Proof.
  intros H. apply mapM_total. eapply Forall_impl; [|exact H].
  intros [x|n|t|d]; cbn; intros E; try discriminate; eauto.
Qed.

Lemma float_column_numeric (df : DataFrame) (n : string) :
  numeric_features df -> has_column df n = true ->
  n <> "date"%string -> n <> "ticker"%string ->
  exists xs s, lookup n (columns df) = Some s /\ mapM to_float s = Ok xs /\
               List.length xs = List.length s.
Proof.
  unfold has_column. intros Hnum Hc Hd Ht.
  destruct (lookup n (columns df)) as [s|] eqn:E; [|discriminate].
  destruct (mapM_to_float_numeric s (numeric_lookup _ _ _ Hnum E Hd Ht)) as (xs & Hxs).
  exists xs, s. repeat split; auto. eapply mapM_length; eauto.
Qed.

Lemma take_rows_numeric (perm : list nat) (s : Series) :
  Forall (fun v => is_numeric v = true) s ->
  Forall (fun v => is_numeric v = true) (take_rows perm s).
Proof.
  intros H. unfold take_rows. rewrite Forall_map. apply Forall_forall. intros i _.
  destruct (Nat.lt_ge_cases i (List.length s)) as [Hi|Hi].
  - rewrite Forall_forall in H. apply H. now apply nth_In.
  - now rewrite nth_overflow.
Qed.

Lemma take_rows_dates (perm : list nat) (ds : list Z) :
  (forall i, In i perm -> (i < List.length ds)%nat) ->
  take_rows perm (map CDate ds) = map CDate (map (fun i => nth i ds 0) perm).
Proof.
  intros H. unfold take_rows. rewrite map_map. apply map_ext_in. intros i Hi.
  rewrite (nth_indep _ _ (CDate 0)) by (rewrite length_map; auto).
  apply (map_nth CDate).
Qed.

(** Sorting keeps the frame a history frame. *)
Lemma sort_values_date_history (df : DataFrame) :
  history_frame df ->
  exists sorted, sort_values_date df = Ok sorted /\ history_frame sorted /\
                 nrows sorted = nrows df /\
                 forall n, has_column sorted n = has_column df n.
Proof.
  intros (Hwf & Hnum & (ds & Hds) & Hcols).
  unfold sort_values_date, get_column. rewrite Hds. cbn [bind].
  rewrite mapM_date_of_dates. cbn [bind].
  eexists; split; [reflexivity|].
  assert (Hhas : forall n,
             has_column (mkFrame (nrows df)
               (map (fun c => (fst c, take_rows (sort_perm ds) (snd c))) (columns df))) n
             = has_column df n).
  { intros n. unfold has_column; cbn [columns]. rewrite lookup_map_snd.
    destruct (lookup n (columns df)); reflexivity. }
  split; [|split; [reflexivity | exact Hhas]].
  split; [|split; [|split]].
  - unfold wf_frame; cbn [columns nrows]. rewrite Forall_map. cbn [snd].
    eapply Forall_impl; [|exact Hwf]. intros [n s] Hs; cbn [snd] in *.
    rewrite take_rows_length, sort_perm_length.
    apply lookup_In in Hds. unfold wf_frame in Hwf. rewrite Forall_forall in Hwf.
    specialize (Hwf _ Hds). cbn [snd] in Hwf. rewrite length_map in Hwf. lia.
  - unfold numeric_features; cbn [columns]. rewrite Forall_map. cbn [fst snd].
    eapply Forall_impl; [|exact Hnum]. intros [n s]; cbn [fst snd].
    intros [H|[H|H]]; auto using take_rows_numeric.
  - cbn [columns]. rewrite lookup_map_snd, Hds. cbn [option_map].
    rewrite take_rows_dates; eauto using sort_perm_range.
  - eapply Forall_impl; [|exact Hcols]. intros n Hn. now rewrite Hhas.
Qed.

Lemma wf_lookup (df : DataFrame) (n : string) (s : Series) :
  wf_frame df -> lookup n (columns df) = Some s -> List.length s = nrows df.
Proof.
  intros Hwf Hl. apply lookup_In in Hl. unfold wf_frame in Hwf.
  rewrite Forall_forall in Hwf. apply (Hwf _ Hl).
Qed.

(** On a history frame the feature builder raises nothing, and its result is
    again a well-formed frame of numbers with the same index. *)
Lemma add_features_history (df : DataFrame) :
  history_frame df ->
  exists out,
    add_features_lightweight df = Ok out /\
    wf_frame out /\ numeric_features out /\ nrows out = nrows df /\
    (forall n, has_column df n = true -> has_column out n = true).
Proof.
  intros Hh.
  destruct (sort_values_date_history df Hh) as (sorted & Es & Hs & Hn & Hhas).
  destruct Hs as (Hwf & Hnum & (ds & Hds) & Hcols).
  unfold add_features_lightweight. rewrite Es. cbn [bind].
  repeat match goal with
         | H : Forall _ (_ :: _) |- _ => inversion H; clear H; subst
         end.
  repeat match goal with
         | H : has_column sorted ?n = true |- _ =>
             let xs := fresh "xs" in
             let s := fresh "s" in
             let Hl := fresh "Hl" in
             let Hm := fresh "Hm" in
             let Hlen := fresh "Hlen" in
             destruct (float_column_numeric sorted n Hnum H ltac:(discriminate)
                         ltac:(discriminate)) as (xs & s & Hl & Hm & Hlen);
             rewrite (wf_lookup _ _ _ Hwf Hl) in Hlen;
             revert H
         end.
  intros _ _ _ _ _.
  unfold float_column, get_column.
  repeat (frame_simpl;
          match goal with
          | H : lookup ?n (columns sorted) = Some _ |- context [lookup ?n (columns sorted)] =>
              rewrite H; cbn [bind]
          | H : mapM to_float ?s = Ok _ |- context [mapM to_float ?s] =>
              rewrite H; cbn [bind]
          end).
  match goal with
  | |- context [has_column ?d "vwap"] =>
      assert (Hv : has_column d "vwap" = has_column sorted "vwap")
        by (unfold has_column; frame_simpl; reflexivity);
      rewrite Hv; clear Hv
  end.
  destruct (has_column sorted "vwap") eqn:Hvwap.
  - destruct (float_column_numeric sorted "vwap" Hnum Hvwap ltac:(discriminate)
                ltac:(discriminate)) as (vw & sv & Hlv & Hmv & Hlenv).
    rewrite (wf_lookup _ _ _ Hwf Hlv) in Hlenv.
    frame_simpl. rewrite Hlv. cbn [bind]. rewrite Hmv. cbn [bind].
    frame_simpl. rewrite Hds. cbn [bind]. rewrite mapM_date_of_dates. cbn [bind].
    pose proof (wf_lookup _ _ _ Hwf Hds) as Hdl. rewrite length_map in Hdl.
    eexists; split; [reflexivity|].
    split; [|split; [|split]].
    + repeat (apply wf_set_column; [|cbn [nrows set_column]; len_solve]). exact Hwf.
    + repeat (apply numeric_set_column;
              [|first [apply numeric_floats
                      | rewrite Forall_map; apply Forall_forall; reflexivity]]).
      exact Hnum.
    + cbn [nrows set_column]. exact Hn.
    + intros n Hc. repeat apply has_column_set_column. now rewrite Hhas.
  - cbn [bind]. frame_simpl. rewrite Hds. cbn [bind].
    rewrite mapM_date_of_dates. cbn [bind].
    pose proof (wf_lookup _ _ _ Hwf Hds) as Hdl. rewrite length_map in Hdl.
    eexists; split; [reflexivity|].
    split; [|split; [|split]].
    + repeat (apply wf_set_column; [|cbn [nrows set_column]; len_solve]). exact Hwf.
    + repeat (apply numeric_set_column;
              [|first [apply numeric_floats
                      | rewrite Forall_map; apply Forall_forall; reflexivity]]).
      exact Hnum.
    + cbn [nrows set_column]. exact Hn.
    + intros n Hc. repeat apply has_column_set_column. now rewrite Hhas.
Qed.

Lemma numeric_set_ticker (df : DataFrame) (s : Series) :
  numeric_features df -> numeric_features (set_column df "ticker" s).
Proof.
  unfold numeric_features, set_column; cbn [columns nrows]. intros Hnum.
  induction (columns df) as [|[m s'] cols IH]; cbn [assign].
  - constructor; cbn [fst]; auto.
  - inversion Hnum; subst.
    destruct (String.eqb "ticker" m) eqn:E; constructor; cbn [fst snd]; auto.
    apply String.eqb_eq in E; subst; auto.
Qed.

(** The history query answers with the empty frame or with a history frame of
    as many rows as there are items. *)
Lemma query_history (items : list Item) (t : string) :
  items <> [] ->
  exists df,
    _query_ticker_history items t = Ok df /\
    history_frame df /\ nrows df = List.length items /\
    has_column df "ticker" = true.
Proof.
  intros Hne. unfold _query_ticker_history.
  destruct items as [|it0 items]; [congruence|].
  set (its := it0 :: items).
  match goal with
  | |- context [sort_values_date ?f] => set (raw := f)
  end.
  assert (Hraw : history_frame raw).
  { split; [|split; [|split]].
    - unfold wf_frame, raw; cbn [columns nrows].
      repeat constructor; cbn [snd]; unfold floats; now rewrite ?length_map.
    - unfold numeric_features, raw; cbn [columns].
      repeat (apply Forall_cons;
              [cbn [fst snd]; first [now left | right; right; apply numeric_floats]|]).
      apply Forall_nil.
    - exists (map it_date its). unfold raw; cbn [columns].
      rewrite map_map. reflexivity.
    - repeat constructor. }
  destruct (sort_values_date_history raw Hraw) as (sorted & Es & Hs & Hn & Hhas).
  rewrite Es. cbn [bind]. eexists; split; [reflexivity|].
  destruct Hs as (Hwf & Hnum & (ds & Hds) & Hcols).
  split; [split; [|split; [|split]]|split].
  - apply wf_set_column; auto. now rewrite repeat_length.
  - now apply numeric_set_ticker.
  - exists ds. unfold set_scalar. frame_simpl. exact Hds.
  - eapply Forall_impl; [|exact Hcols]. intros n Hc.
    now apply has_column_set_column.
  - unfold set_scalar; cbn [nrows set_column]. rewrite Hn. reflexivity.
  - unfold set_scalar, has_column. frame_simpl. reflexivity.
Qed.

Lemma query_empty (t : string) : _query_ticker_history [] t = Ok empty_frame.
Proof. reflexivity. Qed.

Lemma query_len (items : list Item) (t : string) (df : DataFrame) :
  _query_ticker_history items t = Ok df -> len df = List.length items.
Proof.
  destruct items as [|it0 items].
  - intros H; inversion H; reflexivity.
  - intros H.
    destruct (query_history (it0 :: items) t ltac:(discriminate))
      as (df' & E & _ & Hn & _).
    rewrite E in H; inversion H; subst. exact Hn.
Qed.

(** C8.  For every price history of fewer than six bars the feature builder
    returns a table whose [return_5d] column, one entry per bar, is undefined
    (NaN) in every row. *)
Theorem return_5d_undefined_below_six_bars (items : list Item) (t : string) :
  (0 < List.length items < 6)%nat ->
  exists df out col,
    _query_ticker_history items t = Ok df /\
    add_features_lightweight df = Ok out /\
    lookup "return_5d" (columns out) = Some (floats col) /\
    List.length col = List.length items /\
    all_nan col.
Proof.
  intros Hlen.
  assert (Hne : items <> []) by (destruct items; cbn in Hlen; [lia | discriminate]).
  destruct (query_history items t Hne) as (df & Eq & Hh & Hn & _).
  destruct (add_features_history df Hh) as (out & Ea & _ & _ & _ & _).
  destruct (add_features_columns df out Ea)
    as (sorted & close & Es & Hc & _ & H5 & _ & _).
  exists df, out, (pct_change 5 close).
  assert (Hcl : List.length close = List.length items).
  { unfold float_column, get_column in Hc.
    destruct (lookup "close" (columns sorted)) as [s|] eqn:El; [|discriminate].
    cbn [bind] in Hc. rewrite (mapM_length _ _ _ Hc).
    destruct Hh as (Hwf & _).
    rewrite (sort_values_date_lookup df sorted "close" s Hwf Es El). exact Hn. }
  repeat split; auto.
  - now rewrite pct_change_length.
  - apply pct_change_short. lia.
Qed.

Lemma return_5d_undefined_witness :
  exists df out col,
    _query_ticker_history (rising_bars 3 10) "AAPL" = Ok df /\
    add_features_lightweight df = Ok out /\
    lookup "return_5d" (columns out) = Some (floats col) /\
    List.length col = List.length (rising_bars 3 10) /\
    all_nan col.
Proof.
  apply (return_5d_undefined_below_six_bars (rising_bars 3 10) "AAPL").
  vm_compute. lia.
Defined.

(** ** Binary64 facts behind the RSI boundaries *)

Lemma digits2_bounds (p : positive) :
  2 ^ (Zpos (digits2_pos p) - 1) <= Zpos p < 2 ^ Zpos (digits2_pos p).
Proof.
  induction p as [p IH|p IH|]; cbn [digits2_pos].
  - rewrite Pos2Z.inj_succ. replace (Z.succ (Zpos (digits2_pos p)) - 1)
      with (Z.succ (Zpos (digits2_pos p) - 1)) by lia.
    rewrite !Z.pow_succ_r by lia. lia.
  - rewrite Pos2Z.inj_succ. replace (Z.succ (Zpos (digits2_pos p)) - 1)
      with (Z.succ (Zpos (digits2_pos p) - 1)) by lia.
    rewrite !Z.pow_succ_r by lia. lia.
  - cbn. lia.
Qed.

Lemma iter_pos_nat {A : Type} (f : A -> A) (p : positive) (x : A) :
  SpecFloat.iter_pos f p x = Nat.iter (Pos.to_nat p) f x.
Proof.
  revert x. induction p as [p IH|p IH|]; intros x; cbn [SpecFloat.iter_pos].
  - rewrite !IH, Pos2Nat.inj_xI. cbn [Nat.mul].
    rewrite Nat.add_0_r, <- Nat.add_succ_r.
    rewrite Nat.iter_add. f_equal. now rewrite Nat.iter_succ_r.
  - rewrite !IH, Pos2Nat.inj_xO. cbn [Nat.mul].
    now rewrite Nat.add_0_r, Nat.iter_add.
  - reflexivity.
Qed.

Lemma shr_1_m (r : shr_record) :
  0 <= shr_m r -> shr_m (shr_1 r) = shr_m r / 2.
Proof.
  destruct r as [m b s]. cbn [shr_m shr_1]. intros Hm.
  destruct m as [|[p|p|]|p]; cbn [shr_m]; try lia.
  - reflexivity.
  - rewrite Pos2Z.inj_xI. apply (Z.div_unique_pos _ _ _ 1); lia.
  - rewrite Pos2Z.inj_xO. apply (Z.div_unique_pos _ _ _ 0); lia.
  - reflexivity.
Qed.

Lemma shr_iter_m (n : nat) (r : shr_record) :
  0 <= shr_m r -> shr_m (Nat.iter n shr_1 r) = shr_m r / 2 ^ Z.of_nat n.
Proof.
  intros Hm. induction n as [|n IH].
  - cbn. now rewrite Z.div_1_r.
  - rewrite Nat.iter_succ. rewrite shr_1_m.
    + rewrite IH, Nat2Z.inj_succ, Z.pow_succ_r by lia.
      rewrite Z.div_div by lia. f_equal. lia.
    + rewrite IH. apply Z.div_pos; lia.
Qed.

Lemma shr_record_of_loc_m (m : Z) (l : location) : shr_m (shr_record_of_loc m l) = m.
Proof. destruct l as [|[]]; reflexivity. Qed.

Lemma fexp_ge_emin (x : Z) : -1074 <= fexp F64.prec F64.emax x.
Proof. unfold fexp, emin, F64.prec, F64.emax. lia. Qed.

(** Truncation to the format keeps a positive mantissa positive: either
    nothing is shifted out, or 53 digits remain. *)
Lemma shr_fexp_pos (p : positive) (e : Z) (l : location) :
  -1074 <= e ->
  let '(mrs, e2) := shr_fexp F64.prec F64.emax (Zpos p) e l in
  0 < shr_m mrs /\ -1074 <= e2 /\
  ((e2 = e /\ shr_m mrs = Zpos p) \/ 2 ^ 52 <= shr_m mrs).
Proof.
  intros He. unfold shr_fexp, shr. cbn [Zdigits2].
  pose proof (digits2_bounds p) as Hd.
  set (d := Zpos (digits2_pos p)) in *.
  destruct (fexp F64.prec F64.emax (d + e) - e) as [|n|n] eqn:En.
  - rewrite !shr_record_of_loc_m. lia.
  - rewrite iter_pos_nat, shr_iter_m by (rewrite shr_record_of_loc_m; lia).
    rewrite shr_record_of_loc_m, positive_nat_Z.
    assert (Hn : Zpos n = d - 53).
    { unfold fexp, emin, F64.prec, F64.emax in En. lia. }
    rewrite Hn.
    assert (Hq : 2 ^ 52 <= Zpos p / 2 ^ (d - 53)).
    { apply Z.div_le_lower_bound; [apply Z.pow_pos_nonneg; lia|].
      rewrite <- Z.pow_add_r by lia. replace (d - 53 + 52) with (d - 1) by lia. lia. }
    assert (He2 : -1074 <= e + (d - 53)).
    { rewrite <- Hn, <- En. replace (e + (fexp F64.prec F64.emax (d + e) - e))
        with (fexp F64.prec F64.emax (d + e)) by lia. apply fexp_ge_emin. }
    pose proof (Z.pow_pos_nonneg 2 52). lia.
  - rewrite !shr_record_of_loc_m. lia.
Qed.

Lemma round_nearest_even_ge (m : Z) (l : location) : m <= round_nearest_even m l.
Proof.
  unfold round_nearest_even. destruct l as [|[]]; try lia.
  destruct (Z.even m); lia.
Qed.

(** Rounding a positive mantissa at an exponent of the format never gives
    zero or NaN, and never falls below a representable bound. *)
Lemma binary_round_aux_beyond (s : bool) (p : positive) (e : Z) (l : location) (k : Z) :
  -1074 <= e -> 1 <= k <= 2 ^ 52 -> k <= Zpos p * 2 ^ (e + 1074) ->
  beyond s k (binary_round_aux F64.prec F64.emax s (Zpos p) e l).
Proof.
  intros He Hk Hv. unfold binary_round_aux.
  pose proof (shr_fexp_pos p e l He) as H1.
  destruct (shr_fexp F64.prec F64.emax (Zpos p) e l) as [mrs1 e1].
  destruct H1 as (Hm1 & He1 & Hc1).
  pose proof (round_nearest_even_ge (shr_m mrs1) (loc_of_shr_record mrs1)) as Hr.
  destruct (round_nearest_even (shr_m mrs1) (loc_of_shr_record mrs1)) as [|p1|p1];
    try lia.
  pose proof (shr_fexp_pos p1 e1 loc_Exact He1) as H2.
  destruct (shr_fexp F64.prec F64.emax (Zpos p1) e1 loc_Exact) as [mrs2 e2].
  destruct H2 as (Hm2 & He2 & Hc2).
  destruct (shr_m mrs2) as [|p2|p2]; try lia.
  destruct (e2 <=? F64.emax - F64.prec); [|left; reflexivity].
  right. exists p2, e2. split; [reflexivity|]. split; [exact He2|].
  assert (Hpow : 1 <= 2 ^ (e2 + 1074)).
  { pose proof (Z.pow_pos_nonneg 2 (e2 + 1074)). lia. }
  assert (Hbig : 2 ^ 52 <= Zpos p2 -> k <= Zpos p2 * 2 ^ (e2 + 1074)) by nia.
  destruct Hc2 as [(-> & Hp2)|Hp2]; [|auto].
  destruct Hc1 as [(-> & Hp1)|Hp1]; [|apply Hbig; lia].
  assert (Zpos p <= Zpos p2) by lia.
  assert (0 <= 2 ^ (e + 1074)) by lia. nia.
Qed.

Lemma pos_iter_xO (m d : positive) : Zpos (Pos.iter xO m d) = Zpos m * 2 ^ Zpos d.
Proof.
  revert m. induction d as [|d IH] using Pos.peano_ind; intros m.
  - cbn [Pos.iter]. rewrite Pos2Z.inj_xO. lia.
  - rewrite Pos.iter_succ, Pos2Z.inj_xO, IH, Pos2Z.inj_succ, Z.pow_succ_r by lia. lia.
Qed.

(** Aligning a mantissa to a smaller exponent keeps its value. *)
Lemma shl_align_value (m : positive) (e e' : Z) :
  -1074 <= e -> -1074 <= e' ->
  let '(mz, ez) := shl_align m e e' in
  -1074 <= ez /\ ez <= e /\ (e' <= e -> ez = e') /\
  Zpos mz * 2 ^ (ez + 1074) = Zpos m * 2 ^ (e + 1074).
Proof.
  intros He He'. unfold shl_align.
  destruct (e' - e) as [|d|d] eqn:Ed; try (repeat split; lia).
  rewrite pos_iter_xO. repeat split; try lia.
  rewrite <- Z.mul_assoc, <- Z.pow_add_r by lia. f_equal. f_equal. lia.
Qed.

Lemma binary_round_beyond (s : bool) (m : positive) (e k : Z) :
  -1074 <= e -> 1 <= k <= 2 ^ 52 -> k <= Zpos m * 2 ^ (e + 1074) ->
  beyond s k (binary_round F64.prec F64.emax s m e).
Proof.
  intros He Hk Hv. unfold binary_round.
  pose proof (shl_align_value m e (fexp F64.prec F64.emax (Zpos (digits2_pos m) + e))
                              He (fexp_ge_emin _)) as Ha.
  destruct (shl_align m e _) as [mz ez]. destruct Ha as (Hez & _ & _ & Hval).
  apply binary_round_aux_beyond; auto. now rewrite Hval.
Qed.

(** The sum of two floats of one sign is at least the sum of their bounds. *)
Lemma add_beyond (s : bool) (j k : Z) (a b : float) :
  0 <= j -> 0 <= k -> 1 <= j + k <= 2 ^ 52 ->
  beyond s j a -> beyond s k b -> beyond s (j + k) (F64.add a b).
Proof.
  intros Hj Hk Hjk [->|(ma & ea & -> & Hea & Hva)] [->|(mb & eb & -> & Heb & Hvb)];
    unfold F64.add; cbn [SFadd].
  - left. now destruct s.
  - left; reflexivity.
  - left; reflexivity.
  - set (ez := Z.min ea eb).
    pose proof (shl_align_value ma ea ez Hea ltac:(unfold ez; lia)) as Ha.
    pose proof (shl_align_value mb eb ez Heb ltac:(unfold ez; lia)) as Hb.
    destruct (shl_align ma ea ez) as [ma' ea'].
    destruct (shl_align mb eb ez) as [mb' eb']. cbn [fst].
    destruct Ha as (_ & _ & Ha1 & Ha2). destruct Hb as (_ & _ & Hb1 & Hb2).
    rewrite Ha1 in Ha2 by (unfold ez; lia). rewrite Hb1 in Hb2 by (unfold ez; lia).
    assert (Hsum : j + k <= (Zpos ma' + Zpos mb') * 2 ^ (ez + 1074)) by lia.
    destruct s; cbn [cond_Zopp binary_normalize Z.opp Z.add];
      apply binary_round_beyond; try (unfold ez; lia);
      rewrite Pos2Z.inj_add; exact Hsum.
Qed.







Lemma beyond_weaken (s : bool) (j k : Z) (x : float) :
  k <= j -> beyond s j x -> beyond s k x.
Proof.
  intros Hk [->|(m & e & -> & He & Hv)]; [now left|].
  right. exists m, e. repeat split; auto. lia.
Qed.

Lemma beyond_not_nan (s : bool) (k : Z) (x : float) : beyond s k x -> F64.is_nan x = false.
Proof. intros [->|(m & e & -> & _)]; reflexivity. Qed.



(** *** Lists by index *)

Lemma nth_map_seq {A : Type} (f : nat -> A) (n i : nat) (d : A) :
  (i < n)%nat -> nth i (map f (seq 0 n)) d = f i.
Proof.
  intros Hi. rewrite (nth_indep _ d (f 0%nat)) by (now rewrite length_map, length_seq).
  rewrite map_nth, seq_nth by assumption. reflexivity.
Qed.

Lemma trailing_length {A : Type} (w : nat) (l : list A) :
  (w <= List.length l)%nat -> List.length (trailing w l) = w.
Proof. intros H. unfold trailing. rewrite length_skipn. lia. Qed.

Lemma nth_map2 {A B C : Type} (f : A -> B -> C) (l1 : list A) (l2 : list B)
      (i : nat) (d1 : A) (d2 : B) (d : C) :
  (i < List.length l1)%nat -> (i < List.length l2)%nat ->
  nth i (map2 f l1 l2) d = f (nth i l1 d1) (nth i l2 d2).
Proof.
  revert l2 i. induction l1 as [|a l1 IH]; intros [|b l2] [|i] H1 H2;
    cbn [List.length map2 nth] in *; try lia; auto.
  apply IH; lia.
Qed.

Lemma nth_map_in {A B : Type} (f : A -> B) (l : list A) (i : nat) (d : A) (d' : B) :
  (i < List.length l)%nat -> nth i (map f l) d' = f (nth i l d).
Proof.
  intros Hi. rewrite (nth_indep _ d' (f d)) by (now rewrite length_map).
  apply map_nth.
Qed.

Lemma trailing_nth {A : Type} (w : nat) (l : list A) (P : A -> Prop) (d : A) (j : nat) :
  Forall P (trailing w l) ->
  (List.length l - w <= j < List.length l)%nat -> P (nth j l d).
Proof.
  intros H Hj. unfold trailing in H. rewrite Forall_forall in H. apply H.
  replace j with ((List.length l - w) + (j - (List.length l - w)))%nat by lia.
  rewrite <- nth_skipn. apply nth_In. rewrite length_skipn. lia.
Qed.

(** *** The state of the rolling mean, row by row *)

Lemma seq_one (a : nat) : seq a 1 = [a].
Proof. reflexivity. Qed.

Lemma roll_mean_row_zero (w : nat) (values : list float) (st : RollMean.state) :
  (1 <= w)%nat ->
  RollMean.row w values 0 st =
  RollMean.add_mean (nth 0 values F64.nan) (RollMean.setup values 0).
Proof.
  intros Hw. unfold RollMean.row, window_start, window_end, fold_range.
  cbn [Nat.eqb orb]. replace (1 - w)%nat with 0%nat by lia. reflexivity.
Qed.

Lemma roll_mean_row_succ (w : nat) (values : list float) (j : nat) (st : RollMean.state) :
  (2 <= w)%nat ->
  RollMean.row w values (S j) st =
  RollMean.add_mean (nth (S j) values F64.nan)
    (if Nat.leb w (S j)
     then RollMean.remove_mean (nth (S j - w) values F64.nan) st
     else st).
Proof.
  intros Hw. unfold RollMean.row, window_start, window_end, fold_range.
  cbn [Nat.eqb orb]. replace (S j - 1)%nat with j by lia.
  replace (Nat.leb (S j) (S (S j) - w)) with false
    by (symmetry; apply Nat.leb_gt; lia).
  replace (S (S j) - S j)%nat with 1%nat by lia. rewrite seq_one. cbn [fold_left].
  f_equal. destruct (Nat.leb w (S j)) eqn:E.
  - apply Nat.leb_le in E.
    replace (S (S j) - w - (S j - w))%nat with 1%nat by lia. reflexivity.
  - apply Nat.leb_gt in E.
    replace (S (S j) - w - (S j - w))%nat with 0%nat by lia. reflexivity.
Qed.

Lemma roll_mean_rows_states (w : nat) (minp : Z) (values : list float) (k j : nat) :
  RollMean.rows w minp values k (S j) (roll_mean_state w values j) =
  map (fun i => RollMean.calc_mean minp (roll_mean_state w values i)) (seq (S j) k).
Proof.
  revert j. induction k as [|k IH]; intros j; cbn [RollMean.rows seq map]; [reflexivity|].
  change (RollMean.row w values (S j) (roll_mean_state w values j))
    with (roll_mean_state w values (S j)).
  now rewrite IH.
Qed.

Lemma roll_mean_states (w : nat) (values : list float) :
  RollMean.roll_mean w values =
  map (fun i => RollMean.calc_mean (Z.of_nat w) (roll_mean_state w values i))
      (seq 0 (List.length values)).
Proof.
  unfold RollMean.roll_mean. destruct (List.length values) as [|n]; [reflexivity|].
  cbn [RollMean.rows seq map].
  change (RollMean.row w values 0 (RollMean.setup values 0))
    with (roll_mean_state w values 0).
  now rewrite roll_mean_rows_states.
Qed.

Lemma roll_mean_last (w : nat) (values : list float) :
  (0 < List.length values)%nat ->
  last_value (RollMean.roll_mean w values) =
  RollMean.calc_mean (Z.of_nat w) (roll_mean_state w values (List.length values - 1)).
Proof.
  intros Hn. unfold last_value. rewrite roll_mean_states.
  rewrite length_map, length_seq.
  apply (nth_map_seq
           (fun i => RollMean.calc_mean (Z.of_nat w) (roll_mean_state w values i))).
  lia.
Qed.

(** The state before the value of row [S j] is added. *)
Lemma roll_mean_state_succ (w : nat) (values : list float) (j : nat) :
  (2 <= w)%nat ->
  exists pre,
    roll_mean_state w values (S j) = RollMean.add_mean (nth (S j) values F64.nan) pre /\
    RollMean.num_consecutive_same_value pre =
      RollMean.num_consecutive_same_value (roll_mean_state w values j) /\
    RollMean.prev_value pre = RollMean.prev_value (roll_mean_state w values j) /\
    RollMean.nobs pre =
      RollMean.nobs (roll_mean_state w values j)
      - (if Nat.leb w (S j)
         then if F64.is_nan (nth (S j - w) values F64.nan) then 0 else 1
         else 0).
Proof.
  intros Hw. cbn [roll_mean_state]. rewrite roll_mean_row_succ by assumption.
  eexists. split; [reflexivity|].
  destruct (Nat.leb w (S j)); [|repeat split; lia].
  unfold RollMean.remove_mean.
  destruct (F64.is_nan (nth (S j - w) values F64.nan)); cbn; repeat split; lia.
Qed.

Lemma add_mean_nobs (v : float) (st : RollMean.state) :
  RollMean.nobs (RollMean.add_mean v st) =
  RollMean.nobs st + (if F64.is_nan v then 0 else 1).
Proof. unfold RollMean.add_mean. destruct (F64.is_nan v); cbn; lia. Qed.

Lemma add_mean_same_nonneg (v : float) (st : RollMean.state) :
  0 <= RollMean.num_consecutive_same_value st ->
  0 <= RollMean.num_consecutive_same_value (RollMean.add_mean v st).
Proof.
  intros H. unfold RollMean.add_mean. destruct (F64.is_nan v); cbn; [exact H|].
  destruct (F64.eqb v (RollMean.prev_value st)); lia.
Qed.

Lemma roll_mean_same_nonneg (w : nat) (values : list float) (i : nat) :
  (2 <= w)%nat ->
  0 <= RollMean.num_consecutive_same_value (roll_mean_state w values i).
Proof.
  intros Hw. induction i as [|j IH].
  - cbn [roll_mean_state]. rewrite roll_mean_row_zero by lia.
    apply add_mean_same_nonneg. cbn. lia.
  - destruct (roll_mean_state_succ w values j Hw) as (pre & -> & Hs & _).
    apply add_mean_same_nonneg. now rewrite Hs.
Qed.

Lemma defined_between_add (values : list float) (a b : nat) :
  (a <= b)%nat ->
  defined_between values a (S b) =
  defined_between values a b + (if F64.is_nan (nth b values F64.nan) then 0 else 1).
Proof.
  intros H. unfold defined_between.
  replace (S b - a)%nat with ((b - a) + 1)%nat by lia.
  rewrite seq_app, filter_app, length_app.
  replace (a + (b - a))%nat with b by lia. cbn [seq filter].
  destruct (F64.is_nan (nth b values F64.nan)); cbn [negb List.length]; lia.
Qed.

Lemma defined_between_remove (values : list float) (a b : nat) :
  (a < b)%nat ->
  defined_between values (S a) b =
  defined_between values a b - (if F64.is_nan (nth a values F64.nan) then 0 else 1).
Proof.
  intros H. unfold defined_between.
  replace (b - a)%nat with (S (b - S a)) by lia. cbn [seq filter].
  destruct (F64.is_nan (nth a values F64.nan)); cbn [negb List.length]; lia.
Qed.

(** The state counts the values of the window that are not NaN. *)
Lemma roll_mean_nobs (w : nat) (values : list float) (i : nat) :
  (2 <= w)%nat ->
  RollMean.nobs (roll_mean_state w values i) =
  defined_between values (window_start w i) (S i).
Proof.
  intros Hw. induction i as [|j IH].
  - cbn [roll_mean_state]. rewrite roll_mean_row_zero by lia.
    rewrite add_mean_nobs. unfold window_start. replace (1 - w)%nat with 0%nat by lia.
    rewrite defined_between_add by lia. reflexivity.
  - destruct (roll_mean_state_succ w values j Hw) as (pre & -> & _ & _ & Hn).
    rewrite add_mean_nobs, Hn, IH. unfold window_start in *.
    destruct (Nat.leb w (S j)) eqn:E.
    + apply Nat.leb_le in E.
      replace (S (S j) - w)%nat with (S (S j - w)) by lia.
      rewrite (defined_between_add values (S (S j - w)) (S j)) by lia.
      rewrite (defined_between_remove values (S j - w) (S j)) by lia. lia.
    + apply Nat.leb_gt in E.
      replace (S (S j) - w)%nat with 0%nat by lia.
      replace (S j - w)%nat with 0%nat by lia.
      rewrite (defined_between_add values 0 (S j)) by lia. lia.
Qed.

Lemma defined_between_all (values : list float) (a b : nat) :
  (forall j, (a <= j < b)%nat -> F64.is_nan (nth j values F64.nan) = false) ->
  defined_between values a b = Z.of_nat (b - a).
Proof.
  intros H. unfold defined_between. f_equal.
  rewrite forallb_filter_id; [apply length_seq|].
  apply forallb_forall. intros j Hj.
  apply in_seq in Hj. rewrite H by lia. reflexivity.
Qed.

Lemma eqb_refl (c : float) : F64.is_nan c = false -> F64.eqb c c = true.
Proof.
  destruct c as [s|s| |s m e]; intros H; try discriminate H;
    unfold F64.eqb, SFeqb, SFcompare; try (destruct s; reflexivity).
  destruct s; rewrite Z.compare_refl; [rewrite Pos.compare_cont_refl | rewrite Pos.compare_cont_refl];
    reflexivity.
Qed.

(** A run of rows that hold one value [c]: the state remembers [c] and counts
    the run. *)
Lemma roll_mean_run (w : nat) (values : list float) (c : float) (i0 k : nat) :
  (2 <= w)%nat -> F64.is_nan c = false ->
  (forall j, (i0 <= j <= i0 + k)%nat -> nth j values F64.nan = c) ->
  RollMean.prev_value (roll_mean_state w values (i0 + k)) = c /\
  Z.of_nat (S k) <= RollMean.num_consecutive_same_value (roll_mean_state w values (i0 + k)).
Proof.
  intros Hw Hc. induction k as [|k IH]; intros Hrun.
  - rewrite Nat.add_0_r.
    assert (Hadd : exists pre,
               roll_mean_state w values i0 = RollMean.add_mean c pre /\
               0 <= RollMean.num_consecutive_same_value pre).
    { destruct i0 as [|j].
      - cbn [roll_mean_state]. rewrite roll_mean_row_zero by lia.
        rewrite (Hrun 0%nat) by lia. eexists. split; [reflexivity | cbn; lia].
      - destruct (roll_mean_state_succ w values j Hw) as (pre & E & Hs & _).
        rewrite (Hrun (S j)) in E by lia. exists pre. split; [exact E|].
        rewrite Hs. now apply roll_mean_same_nonneg. }
    destruct Hadd as (pre & -> & Hs). unfold RollMean.add_mean. rewrite Hc. cbn.
    split; [reflexivity|]. destruct (F64.eqb c (RollMean.prev_value pre)); lia.
  - destruct IH as (Hp & Hs); [intros j Hj; apply Hrun; lia|].
    replace (i0 + S k)%nat with (S (i0 + k)) by lia.
    destruct (roll_mean_state_succ w values (i0 + k) Hw) as (pre & -> & Hs' & Hp' & _).
    rewrite (Hrun (S (i0 + k))) by lia.
    unfold RollMean.add_mean. rewrite Hc. cbn.
    rewrite Hp', Hp, (eqb_refl c Hc), Hs'. split; [reflexivity | lia].
Qed.

(** Over a window that holds one value, the rolling mean is that value. *)
Lemma roll_mean_constant_last (w : nat) (values : list float) (c : float) :
  (2 <= w <= List.length values)%nat -> F64.is_nan c = false ->
  (forall j, (List.length values - w <= j < List.length values)%nat ->
             nth j values F64.nan = c) ->
  last_value (RollMean.roll_mean w values) = c.
Proof.
  intros Hw Hc Hrun. set (n := List.length values) in *.
  rewrite roll_mean_last by (fold n; lia). fold n.
  destruct (roll_mean_run w values c (n - w) (w - 1) ltac:(lia) Hc) as (Hp & Hs);
    [intros j Hj; apply Hrun; lia|].
  replace (n - w + (w - 1))%nat with (n - 1)%nat in * by lia.
  pose proof (roll_mean_nobs w values (n - 1) ltac:(lia)) as Hn.
  unfold window_start in Hn. replace (S (n - 1)) with n in Hn by lia.
  rewrite defined_between_all in Hn
    by (intros j Hj; rewrite Hrun by lia; exact Hc).
  replace (n - (n - w))%nat with w in Hn by lia.
  replace (S (w - 1)) with w in Hs by lia.
  unfold RollMean.calc_mean. rewrite Hn.
  replace (Z.of_nat w <=? Z.of_nat w) with true by (symmetry; apply Z.leb_le; lia).
  replace (0 <? Z.of_nat w) with true by (symmetry; apply Z.ltb_lt; lia).
  cbn [andb].
  replace (Z.of_nat w <=? _) with true by (symmetry; apply Z.leb_le; lia).
  exact Hp.
Qed.

Lemma inf_to_nan_finite (c : float) : F64.is_finite c = true -> inf_to_nan c = c.
Proof. destruct c; intros H; try discriminate H; reflexivity. Qed.

Lemma rolling_mean_constant_last (w : nat) (xs : list float) (c : float) :
  (2 <= w <= List.length xs)%nat -> F64.is_finite c = true ->
  Forall (fun x => x = c) (trailing w xs) ->
  last_value (rolling_mean w xs) = c.
Proof.
  intros Hw Hc Hrun. unfold rolling_mean.
  apply roll_mean_constant_last.
  - now rewrite length_map.
  - destruct c; try discriminate Hc; reflexivity.
  - rewrite length_map. intros j Hj.
    rewrite (nth_map_in inf_to_nan xs j F64.nan) by lia.
    rewrite (trailing_nth w xs (fun x => x = c) F64.nan j Hrun Hj).
    now apply inf_to_nan_finite.
Qed.

Lemma trailing_map {A B : Type} (f : A -> B) (w : nat) (l : list A) :
  trailing w (map f l) = map f (trailing w l).
Proof. unfold trailing. now rewrite length_map, skipn_map. Qed.

Lemma map2_firstn {A B C : Type} (f : A -> B -> C) (l1 : list A) (l2 : list B) :
  map2 f l1 (firstn (List.length l1) l2) = map2 f l1 l2.
Proof.
  revert l2. induction l1 as [|a l1 IH]; intros [|b l2]; cbn [List.length firstn map2]; auto.
  now rewrite IH.
Qed.

Lemma skipn_map2 {A B C : Type} (f : A -> B -> C) (k : nat) (l1 : list A) (l2 : list B) :
  skipn k (map2 f l1 l2) = map2 f (skipn k l1) (skipn k l2).
Proof.
  revert l1 l2. induction k as [|k IH]; intros [|a l1] [|b l2]; cbn [skipn map2]; auto.
  now destruct (skipn k l1).
Qed.

Lemma skipn_tl {A : Type} (k : nat) (l : list A) : skipn k (tl l) = tl (skipn k l).
Proof.
  revert l. induction k as [|k IH]; intros [|a l]; cbn [skipn tl]; auto.
  rewrite <- IH. destruct l; cbn [tl]; [now destruct k | reflexivity].
Qed.

Lemma skipn_gaps (k : nat) (xs : list float) : skipn k (gaps xs) = gaps (skipn k xs).
Proof. unfold gaps. now rewrite skipn_map2, skipn_tl. Qed.

Lemma gaps_length (xs : list float) : List.length (gaps xs) = (List.length xs - 1)%nat.
Proof.
  unfold gaps. rewrite map2_length. destruct xs as [|x xs]; cbn [tl List.length]; lia.
Qed.

Lemma diff_gaps (c : float) (rest : list float) :
  diff (c :: rest) = F64.sub c F64.nan :: gaps (c :: rest).
Proof.
  unfold diff, series_shift, gaps. cbn [List.length repeat app firstn map2 tl].
  now rewrite map2_firstn.
Qed.

(** The last fourteen day-to-day changes are the gaps of the last fifteen
    closes. *)
Lemma trailing_diff (close : list float) :
  (15 <= List.length close)%nat ->
  trailing 14 (diff close) = gaps (trailing 15 close).
Proof.
  intros Hn. destruct close as [|c rest]; [cbn in Hn; lia|].
  rewrite diff_gaps. unfold trailing. cbn [List.length] in *.
  rewrite gaps_length. cbn [List.length].
  replace (S (S (List.length rest) - 1) - 14)%nat with (S (S (List.length rest) - 15)) by lia.
  cbn [skipn]. now rewrite skipn_gaps.
Qed.





Lemma trailing_where_pos (w : nat) (xs : list float) :
  trailing w (where_pos xs) = where_pos (trailing w xs).
Proof. unfold where_pos. apply trailing_map. Qed.

Lemma trailing_where_neg (w : nat) (xs : list float) :
  trailing w (where_neg xs) = where_neg (trailing w xs).
Proof. unfold where_neg. apply trailing_map. Qed.

(** The RSI of the last row, from the rolling means of the gains and of the
    losses at that row. *)
Lemma rsi_14_last (close : list float) :
  (0 < List.length close)%nat ->
  last_value (rsi_14 close) =
  rsi_of_rs
    (F64.div (last_value (rolling_mean 14 (where_pos (diff close))))
             (F64.opp (last_value (rolling_mean 14 (where_neg (diff close)))))).
Proof.
  intros Hn. unfold last_value. rewrite rsi_14_length. unfold rsi_14.
  set (n := List.length close) in *.
  assert (Hp : List.length (where_pos (diff close)) = n)
    by (unfold where_pos; now rewrite length_map, diff_length).
  assert (Hq : List.length (where_neg (diff close)) = n)
    by (unfold where_neg; now rewrite length_map, diff_length).
  assert (HG : List.length (rolling_mean 14 (where_pos (diff close))) = n)
    by (now rewrite rolling_mean_length).
  assert (HL : List.length (rolling_mean 14 (where_neg (diff close))) = n)
    by (now rewrite rolling_mean_length).
  rewrite HG, HL.
  rewrite (nth_map_in rsi_of_rs _ _ F64.nan)
    by (rewrite map2_length, length_map, HG, HL; lia).
  f_equal.
  rewrite (nth_map2 F64.div _ _ _ F64.nan F64.nan)
    by (rewrite ?length_map, ?HG, ?HL; lia).
  f_equal.
  apply (nth_map_in F64.opp _ _ F64.nan). rewrite HL; lia.
Qed.



Lemma gaps_trailing_length (close : list float) :
  (15 <= List.length close)%nat -> List.length (gaps (trailing 15 close)) = 14%nat.
Proof. intros H. rewrite gaps_length, trailing_length by assumption. reflexivity. Qed.

Lemma where_length (close : list float) :
  List.length (where_pos (diff close)) = List.length close /\
  List.length (where_neg (diff close)) = List.length close.
Proof. unfold where_pos, where_neg. now rewrite !length_map, diff_length. Qed.




(** *** A history already in date order is left as it is *)

Lemma ascendingb_cons (d : Z) (rest : list Z) :
  ascendingb (d :: rest) = true ->
  Forall (fun d' => d < d') rest /\ ascendingb rest = true.
Proof.
  revert d. induction rest as [|b rest IH]; intros d H.
  - split; [constructor | reflexivity].
  - cbn [ascendingb] in H. apply andb_true_iff in H. destruct H as (Hdb & Hr).
    apply Z.ltb_lt in Hdb. destruct (IH b Hr) as (Hb & _).
    split; [|exact Hr]. constructor; [exact Hdb|].
    eapply Forall_impl; [|exact Hb]. cbn beta. intros; lia.
Qed.




Lemma map_fst_combine {A B : Type} (l1 : list A) (l2 : list B) :
  List.length l1 = List.length l2 -> map fst (combine l1 l2) = l1.
Proof.
  revert l2. induction l1 as [|a l1 IH]; intros [|b l2] H; cbn in *; try lia; auto.
  f_equal. apply IH. lia.
Qed.

Lemma map_snd_combine {A B : Type} (l1 : list A) (l2 : list B) :
  List.length l1 = List.length l2 -> map snd (combine l1 l2) = l2.
Proof.
  revert l2. induction l1 as [|a l1 IH]; intros [|b l2] H; cbn in *; try lia; auto.
  f_equal. apply IH. lia.
Qed.


Lemma take_rows_seq (s : Series) : take_rows (seq 0 (List.length s)) s = s.
Proof.
  unfold take_rows. induction s as [|c s IH]; [reflexivity|].
  cbn [List.length seq map nth]. f_equal.
  rewrite <- seq_shift, map_map. exact IH.
Qed.



(** ** The RSI at its boundaries *)







(** The same two boundaries, evaluated; and positive closes that rise
    strictly over the last fifteen rows after two spikes, where the running
    sum has lost the gains of the window: the mean gain comes out as zero and
    the RSI as NaN. *)
Example rsi_14_rising_sample :
  last_value (rsi_14 (closes_of (rising_bars 16 10))) = F64.hundred.
Proof. vm_compute. reflexivity. Qed.

Example rsi_14_falling_sample :
  last_value (rsi_14 (closes_of (falling_bars 16 90))) = F64.zero.
Proof. vm_compute. reflexivity. Qed.

Example rsi_14_after_spikes :
  rising (trailing 15 (closes_of spike_bars)) /\
  last_value (rolling_mean 14 (where_pos (diff (closes_of spike_bars)))) = F64.zero /\
  last_value (rsi_14 (closes_of spike_bars)) = F64.nan.
Proof. vm_compute. repeat split. Qed.

(** ** Latest-row extraction *)

Lemma fold_left_raise {A B : Type} (f : result A -> B -> result A) (l : list B) (e : exn) :
  (forall b, f (Raise e) b = Raise e) -> fold_left f l (Raise e) = Raise e.
Proof. intros Hf. induction l as [|b l IH]; cbn [fold_left]; [reflexivity|]. now rewrite Hf. Qed.

Lemma add_ticker_onehots_nrows (cfg : Config) (df out : DataFrame) :
  add_ticker_onehots cfg df = Ok out -> nrows out = nrows df.
Proof.
  unfold add_ticker_onehots. generalize (WATCHLIST cfg) as ts.
  intros ts; revert df; induction ts as [|t ts IH]; intros df H; cbn [fold_left] in H.
  - now inversion H.
  - cbn [bind] in H. destruct (get_column df "ticker") as [tk|e]; cbn [bind] in H.
    + apply IH in H. exact H.
    + rewrite fold_left_raise in H by reflexivity. discriminate.
Qed.

Lemma prefix_append (s t : string) : String.prefix s (String.append s t) = true.
Proof.
  induction s as [|a s IH]; cbn [String.append String.prefix].
  - now destruct t.
  - destruct (Ascii.ascii_dec a a); [exact IH | congruence].
Qed.

(** One-hot columns never displace a column of the feature table, and add
    only columns named [ticker_...]. *)
Lemma add_ticker_onehots_lookup (cfg : Config) (df out : DataFrame) (n : string) :
  add_ticker_onehots cfg df = Ok out ->
  String.prefix "ticker_" n = false ->
  lookup n (columns out) = lookup n (columns df).
Proof.
  unfold add_ticker_onehots. generalize (WATCHLIST cfg) as ts.
  intros ts; revert df; induction ts as [|t ts IH]; intros df H Hn; cbn [fold_left] in H.
  - now inversion H.
  - cbn [bind] in H. destruct (get_column df "ticker") as [tk|e]; cbn [bind] in H.
    + rewrite (IH _ H Hn). cbn [columns set_column]. apply lookup_assign_neq.
      apply String.eqb_neq. intros ->. rewrite prefix_append in Hn. discriminate.
    + rewrite fold_left_raise in H by reflexivity. discriminate.
Qed.

Lemma nth_skipn_0 {A : Type} (k : nat) (l : list A) (d : A) :
  nth 0 (skipn k l) d = nth k l d.
Proof.
  revert l; induction k as [|k IH]; intros [|a l]; cbn [skipn nth]; auto.
Qed.

Lemma fill_missing_nrows (cols : list string) (L : DataFrame) :
  nrows (fold_left fill_missing cols L) = nrows L.
Proof.
  revert L; induction cols as [|c cols IH]; intros L; cbn [fold_left]; [reflexivity|].
  rewrite IH. unfold fill_missing. destruct (has_column L c); reflexivity.
Qed.

Lemma fill_missing_nrows_one (L : DataFrame) (c : string) :
  nrows (fill_missing L c) = nrows L.
Proof. unfold fill_missing. destruct (has_column L c); reflexivity. Qed.

Lemma fill_missing_lookup (cols : list string) (L : DataFrame) (c : string) :
  lookup c (columns (fold_left fill_missing cols L)) =
  match lookup c (columns L) with
  | Some s => Some s
  | None => if existsb (String.eqb c) cols
            then Some (repeat (CFloat F64.nan) (nrows L)) else None
  end.
Proof.
  revert L; induction cols as [|c0 cols IH]; intros L; cbn [fold_left existsb].
  - destruct (lookup c (columns L)); reflexivity.
  - rewrite IH. rewrite fill_missing_nrows_one. unfold fill_missing, has_column.
    destruct (lookup c0 (columns L)) as [s0|] eqn:E0.
    + destruct (String.eqb c c0) eqn:Ecc; [|reflexivity].
      apply String.eqb_eq in Ecc; subst. now rewrite E0.
    + unfold set_scalar; cbn [columns set_column nrows]. rewrite lookup_assign.
      destruct (String.eqb c c0) eqn:Ecc.
      * apply String.eqb_eq in Ecc; subst. now rewrite E0.
      * cbn [orb]. reflexivity.
Qed.

Lemma select_ok (df : DataFrame) (cols : list string) :
  (forall c, In c cols -> has_column df c = true) ->
  exists cs,
    select df cols = Ok (mkFrame (nrows df) cs) /\
    Forall2 (fun c cs => fst cs = c /\ lookup c (columns df) = Some (snd cs)) cols cs.
Proof.
  unfold select. induction cols as [|c cols IH]; intros H; cbn [mapM bind].
  - exists []. split; [reflexivity | constructor].
  - destruct IH as (cs & E & HF); [intros; apply H; now right|].
    apply bind_ok in E. destruct E as (cs' & E & E'). inversion E'; subst cs'.
    rewrite E. specialize (H c (or_introl eq_refl)). unfold has_column in H.
    unfold get_column. destruct (lookup c (columns df)) as [s|] eqn:El; [|discriminate].
    cbn [bind]. eexists; split; [reflexivity|]. constructor; auto.
Qed.

(** The flag of the aligned latest row, column by column of the schema. *)
Lemma prep_latest_flag (cfg : Config) (df : DataFrame) (cols : list string)
      (X df_feat : DataFrame) :
  (0 < nrows df)%nat ->
  _prep_latest_features cfg df cols = Ok (X, df_feat) ->
  nrows X = 1%nat /\
  nrows df_feat = nrows df /\
  has_missing X = Ok (existsb (fun c => isna (latest_value df_feat c)) cols).
Proof.
  intros Hpos H. unfold _prep_latest_features in H.
  bind_inv H. rename v into feat. bind_inv H. rename v into feat1.
  bind_inv H. rename v into X0. inversion H; subst X0 feat1; clear H.
  assert (Hn : nrows df_feat = nrows df).
  { rewrite (add_ticker_onehots_nrows _ _ _ E0).
    destruct (add_features_columns _ _ E) as (? & ? & _ & _ & _ & _ & _ & Hn). exact Hn. }
  set (L0 := iloc_last_rows df_feat) in *.
  set (L := fold_left fill_missing cols L0) in *.
  assert (HnL : nrows L = 1%nat).
  { unfold L. rewrite fill_missing_nrows. unfold L0, iloc_last_rows; cbn [nrows]. lia. }
  assert (Hsel : forall c, In c cols -> has_column L c = true).
  { intros c Hc. unfold has_column, L. rewrite fill_missing_lookup.
    destruct (lookup c (columns L0)); [reflexivity|].
    assert (Hex : existsb (String.eqb c) cols = true).
    { apply existsb_exists. exists c. split; [assumption | apply String.eqb_refl]. }
    now rewrite Hex. }
  destruct (select_ok L cols Hsel) as (cs & Esel & HF).
  rewrite Esel in E1. inversion E1; subst X; clear E1.
  split; [exact HnL|]. split; [exact Hn|].
  unfold has_missing; cbn [nrows]. rewrite HnL. cbn [Nat.eqb]. f_equal.
  unfold row_cells; cbn [columns].
  assert (Hpt : forall c s, lookup c (columns L) = Some s ->
                            nth 0 s (CFloat F64.nan) = latest_value df_feat c).
  { intros c s Hl. unfold L in Hl. rewrite fill_missing_lookup in Hl.
    unfold latest_value. unfold L0, iloc_last_rows in Hl; cbn [columns nrows] in Hl.
    rewrite lookup_map_snd in Hl.
    destruct (lookup c (columns df_feat)) as [s0|]; cbn [option_map] in Hl.
    - inversion Hl; subst s. now rewrite nth_skipn_0.
    - destruct (existsb (String.eqb c) _); [|discriminate].
      inversion Hl; subst s. destruct (nrows df_feat); [lia | reflexivity]. }
  clear Esel Hsel HnL. revert HF Hpt. generalize (columns L) as lcols.
  clear L. clear L0. intros lcols HF Hpt.
  induction HF as [|c [c' s] cols' cs' (Hc & Hl) HF IH];
    cbn [map existsb]; [reflexivity|].
  cbn [fst snd] in *. subst c'. rewrite IH. f_equal. f_equal. now apply Hpt.
Qed.

Lemma add_ticker_onehots_total (cfg : Config) (df : DataFrame) :
  has_column df "ticker" = true -> wf_frame df -> numeric_features df ->
  exists out,
    add_ticker_onehots cfg df = Ok out /\ wf_frame out /\ numeric_features out /\
    (forall n, has_column df n = true -> has_column out n = true).
Proof.
  unfold add_ticker_onehots. generalize (WATCHLIST cfg) as ts.
  intros ts; revert df; induction ts as [|t ts IH]; intros df Ht Hwf Hnum;
    cbn [fold_left bind].
  - exists df; auto.
  - unfold get_column. unfold has_column in Ht.
    destruct (lookup "ticker" (columns df)) as [tk|] eqn:E; [|discriminate].
    cbn [bind].
    destruct (IH (set_column df (String.append "ticker_" t) (map (onehot t) tk)))
      as (out & Eo & Hwo & Hno & Hho).
    + apply has_column_set_column. unfold has_column. now rewrite E.
    + apply wf_set_column; auto. rewrite length_map. eapply wf_lookup; eauto.
    + apply numeric_set_column; auto. rewrite Forall_map. apply Forall_forall.
      intros [x|n|s|d] _; reflexivity.
    + exists out. repeat split; auto.
      intros n Hn. apply Hho. now apply has_column_set_column.
Qed.

(** On a history frame the extraction raises nothing. *)
Lemma prep_latest_total (cfg : Config) (df : DataFrame) (cols : list string) :
  history_frame df -> has_column df "ticker" = true ->
  exists X df_feat,
    _prep_latest_features cfg df cols = Ok (X, df_feat) /\
    wf_frame df_feat /\ numeric_features df_feat.
Proof.
  intros Hh Ht.
  destruct (add_features_history df Hh) as (feat & Ea & Hwf & Hnum & Hn & Hhas).
  destruct (add_ticker_onehots_total cfg feat (Hhas _ Ht) Hwf Hnum)
    as (df_feat & Eo & Hwo & Hno & _).
  unfold _prep_latest_features. rewrite Ea. cbn [bind]. rewrite Eo. cbn [bind].
  set (L := fold_left fill_missing cols (iloc_last_rows df_feat)).
  destruct (select_ok L cols) as (cs & Esel & _).
  { intros c Hc. unfold has_column, L. rewrite fill_missing_lookup.
    destruct (lookup c _); [reflexivity|].
    assert (Hex : existsb (String.eqb c) cols = true).
    { apply existsb_exists. exists c. split; [assumption | apply String.eqb_refl]. }
    now rewrite Hex. }
  rewrite Esel. cbn [bind]. eauto.
Qed.

Lemma latest_value_absent (df : DataFrame) (c : string) :
  has_column df c = false -> isna (latest_value df c) = true.
Proof.
  unfold has_column, latest_value. destruct (lookup c (columns df)); [discriminate|].
  reflexivity.
Qed.

(** What the flag of the aligned latest row tests.  For every non-empty price
    history and every schema, the extraction yields the aligned latest row,
    and its has-missing flag is true whenever a schema column is absent from
    the feature table; the flag is false exactly when every schema column is
    present in the feature table with a value other than NaN in the last
    row. *)
Lemma has_missing_flag_tests_nan
        (cfg : Config) (items : list Item) (t : string) (cols : list string) :
  (0 < List.length items)%nat ->
  exists df X df_feat,
    _query_ticker_history items t = Ok df /\
    _prep_latest_features cfg df cols = Ok (X, df_feat) /\
    ((exists c, In c cols /\ has_column df_feat c = false) ->
     has_missing X = Ok true) /\
    (has_missing X = Ok false <->
     forall c, In c cols ->
               has_column df_feat c = true /\ isna (latest_value df_feat c) = false).
Proof.
  intros Hlen.
  assert (Hne : items <> []) by (destruct items; cbn in Hlen; [lia | discriminate]).
  destruct (query_history items t Hne) as (df & Eq & Hh & Hn & Ht).
  destruct (prep_latest_total cfg df cols Hh Ht) as (X & df_feat & Ep & _ & _).
  exists df, X, df_feat. split; [exact Eq|]. split; [exact Ep|].
  destruct (prep_latest_flag cfg df cols X df_feat ltac:(lia) Ep) as (_ & _ & Hflag).
  rewrite Hflag. split.
  - intros (c & Hc & Habs). f_equal. apply existsb_exists. exists c. split; auto.
    now apply latest_value_absent.
  - split.
    + intros H c Hc.
      assert (Hex : existsb (fun c => isna (latest_value df_feat c)) cols = false)
        by congruence.
      assert (Hna : isna (latest_value df_feat c) = false).
      { destruct (isna (latest_value df_feat c)) eqn:E; [|reflexivity].
        assert (Ht' : existsb (fun c => isna (latest_value df_feat c)) cols = true)
          by (apply existsb_exists; eauto).
        congruence. }
      split; [|exact Hna].
      destruct (has_column df_feat c) eqn:E; [reflexivity|].
      apply latest_value_absent in E. congruence.
    + intros H. f_equal.
      destruct (existsb _ cols) eqn:E; [|reflexivity].
      apply existsb_exists in E. destruct E as (c & Hc & Hna).
      destruct (H c Hc) as (_ & Hf). congruence.
Qed.

(** C1.  The flag lets an infinite value through.  In a history of thirty
    bars whose last bar opens at zero, the intraday range of the last row is
    infinite, which is no finite value, and the has-missing flag of the
    aligned latest row is false all the same: the flag is not false exactly
    when every schema column has a finite value in that row. *)
Theorem has_missing_flag_ignores_infinity :
  match _query_ticker_history zero_open_history "AAPL" with
  | Ok df =>
      insufficient default_config df = false /\
      match _prep_latest_features default_config df ["return_1d"; "daily_range"]%string with
      | Ok (X, df_feat) =>
          has_missing X = Ok false /\
          latest_value df_feat "daily_range" = CFloat (S754_infinity false) /\
          row_cells 0 X = [latest_value df_feat "return_1d";
                           CFloat (S754_infinity false)] /\
          ~ (has_missing X = Ok false <->
             forall c, In c ["return_1d"; "daily_range"]%string ->
                       finite_cell (latest_value df_feat c) = true)
      | Raise _ => False
      end
  | Raise _ => False
  end.
Proof.
  vm_compute. split; [reflexivity|]. split; [reflexivity|]. split; [reflexivity|].
  split; [reflexivity|].
  intros [H _]. specialize (H eq_refl _ (or_intror (or_introl eq_refl))). discriminate H.
Qed.

(** ** The rationale never raises on a table of numbers *)





Lemma insert_desc_length (s : score) (l : list score) :
  List.length (insert_desc s l) = S (List.length l).
Proof.
  induction l as [|t l IH]; cbn [insert_desc]; [reflexivity|].
  destruct (F64.ltb _ _); cbn [List.length]; auto.
Qed.

Lemma sort_desc_length (l : list score) : List.length (sort_desc l) = List.length l.
Proof.
  induction l as [|s l IH]; cbn [sort_desc fold_right]; [reflexivity|].
  fold (sort_desc l). now rewrite insert_desc_length, IH.
Qed.



(** ** The rationale *)

Lemma score_column_unusable (imps : list float) (df : DataFrame) (i : nat) (c : string) :
  (candidate c = true -> no_usable_score df c) ->
  score_column imps df i c = Ok None.
Proof.
  intros H. unfold score_column. unfold candidate in H.
  destruct (String.prefix "ticker_" c); [reflexivity|].
  destruct (existsb (String.eqb c) RAW_FIELDS); [reflexivity|].
  specialize (H eq_refl). unfold no_usable_score in H. unfold has_column, get_column.
  destruct (lookup c (columns df)) as [col|]; cbn [negb]; [|reflexivity].
  cbn [bind]. destruct (H col eq_refl) as (series & -> & Hs). cbn [bind].
  destruct (forallb F64.is_nan series); [reflexivity|].
  destruct Hs as [Hs|[Hs|Hs]]; [discriminate | rewrite Hs | rewrite Hs];
    cbn [orb negb]; [reflexivity|].
  now rewrite orb_true_r.
Qed.

Lemma collect_scores_unusable (imps : list float) (df : DataFrame) (cols : list string) (i : nat) :
  (forall c, In c cols -> candidate c = true -> no_usable_score df c) ->
  collect_scores imps df i cols = Ok [].
Proof.
  revert i. induction cols as [|c cols IH]; intros i H; cbn [collect_scores]; [reflexivity|].
  rewrite score_column_unusable by (apply H; now left). cbn [bind].
  rewrite IH by (intros c' Hc'; apply H; now right). reflexivity.
Qed.

(** C6.  The rationale is the fallback text whenever the classifier has no
    importance vector, or the feature table has fewer than ten rows, or no
    considered schema column yields a usable score (each is absent from the
    table, entirely undefined, or of zero or non-finite standard deviation). *)
Theorem fallback_rationale (model : Model) (cols : list string) (df : DataFrame) :
  feature_importances_ model = None \/
  (len df < 10)%nat \/
  (forall c, In c cols -> candidate c = true -> no_usable_score df c) ->
  _why_string model cols df = Ok "Based on recent price and volume patterns."%string.
Proof.
  intros H. unfold _why_string.
  destruct (feature_importances_ model) as [imps|]; [|reflexivity].
  destruct (Nat.ltb (len df) 10) eqn:El; [reflexivity|].
  apply Nat.ltb_ge in El.
  destruct H as [H|[H|H]]; [discriminate | lia |].
  now rewrite (collect_scores_unusable imps df cols 0 H).
Qed.

Lemma fallback_rationale_witness :
  _why_string sample_model ["rsi_14"; "close"; "ticker_AAPL"; "sentiment"]%string
              zigzag_features
  = Ok "Based on recent price and volume patterns."%string.
Proof.
  apply (fallback_rationale sample_model
           ["rsi_14"; "close"; "ticker_AAPL"; "sentiment"]%string zigzag_features).
  right; right. intros c Hc Hcand col Hl.
  cbn [In] in Hc.
  destruct Hc as [<-|[<-|[<-|[<-|[]]]]]; vm_compute in Hcand; try discriminate Hcand;
    vm_compute in Hl; inversion Hl; subst col;
    (eexists; split; [vm_compute; reflexivity | right; left; vm_compute; reflexivity]).
Defined.

(** The same on a table too short for an RSI, whose column is undefined
    throughout. *)
Example fallback_rationale_short_table :
  _why_string sample_model ["rsi_14"; "close"; "ticker_AAPL"; "sentiment"]%string
              twelve_bar_features
  = Ok "Based on recent price and volume patterns."%string.
Proof. vm_compute. reflexivity. Qed.

Lemma importance_lookup (imps : list float) (i : nat) :
  (if Nat.ltb i (List.length imps) then nth i imps F64.zero else F64.zero)
  = nth i imps F64.zero.
Proof.
  destruct (Nat.ltb i (List.length imps)) eqn:E; [reflexivity|].
  apply Nat.ltb_ge in E. now rewrite nth_overflow.
Qed.




Lemma score_column_some (imps : list float) (df : DataFrame) (i : nat) (c : string) (s : score) :
  score_column imps df i c = Ok (Some s) ->
  exists col series x z,
    candidate c = true /\
    lookup c (columns df) = Some col /\
    mapM replace_inf_astype_float col = Ok series /\
    to_float (nth (nrows df - 1) col (CFloat F64.nan)) = Ok x /\
    z = (if F64.is_finite x
         then F64.div (F64.sub x (series_mean series)) (series_std series)
         else F64.zero) /\
    s = (F64.mul (F64.abs z) (nth i imps F64.zero), c, z).
Proof.
  unfold score_column, candidate. rewrite importance_lookup.
  destruct (String.prefix "ticker_" c); [discriminate|].
  destruct (existsb (String.eqb c) RAW_FIELDS); [discriminate|].
  unfold has_column, last_cell, get_column.
  destruct (lookup c (columns df)) as [col|] eqn:El; cbn [negb]; [|discriminate].
  cbn [bind].
  destruct (mapM replace_inf_astype_float col) as [series|] eqn:Em; cbn [bind];
    [|discriminate].
  destruct (forallb F64.is_nan series); [discriminate|].
  destruct (F64.eqb _ _ || negb _); [discriminate|].
  cbn [bind].
  destruct (to_float (nth (nrows df - 1) col (CFloat F64.nan))) as [x|] eqn:Ex;
    cbn [bind]; [|discriminate].
  intros H; inversion H; subst; clear H.
  exists col, series, x. eexists. repeat split; auto.
Qed.

(** *** Order of the scores *)

Lemma compare_cont_flip (p q : positive) :
  PosDef.Pos.compare_cont Eq q p = CompOpp (PosDef.Pos.compare_cont Eq p q).
Proof. symmetry. apply (Pos.compare_cont_antisym p q Eq). Qed.

Lemma SFcompare_antisym (a b : float) :
  SFcompare b a = option_map CompOpp (SFcompare a b).
Proof.
  destruct a as [sa|sa| |sa ma ea], b as [sb|sb| |sb mb eb]; cbn [SFcompare option_map];
    try reflexivity;
    try (destruct sa; reflexivity); try (destruct sb; reflexivity);
    try (destruct sa, sb; reflexivity).
  destruct sa, sb; cbn [CompOpp]; try reflexivity.
  - rewrite (Z.compare_antisym ea eb).
    destruct (Z.compare ea eb); cbn [CompOpp]; try reflexivity.
    now rewrite (compare_cont_flip ma mb).
  - rewrite (Z.compare_antisym ea eb).
    destruct (Z.compare ea eb); cbn [CompOpp]; try reflexivity.
    now rewrite (compare_cont_flip ma mb).
Qed.

Lemma SFcompare_none (a b : float) :
  SFcompare a b = None -> F64.is_nan a = true \/ F64.is_nan b = true.
Proof.
  destruct a as [sa|sa| |sa ma ea], b as [sb|sb| |sb mb eb]; cbn; auto; discriminate.
Qed.

Lemma ltb_leb (a b : float) : F64.ltb a b = true -> F64.leb a b = true.
Proof.
  unfold F64.ltb, F64.leb, SFltb, SFleb. destruct (SFcompare a b) as [[]|]; auto.
Qed.

Lemma not_ltb_leb (a b : float) :
  F64.is_nan a = false -> F64.is_nan b = false ->
  F64.ltb a b = false -> F64.leb b a = true.
Proof.
  unfold F64.ltb, F64.leb, SFltb, SFleb. intros Ha Hb.
  rewrite (SFcompare_antisym a b).
  destruct (SFcompare a b) as [[]|] eqn:E; cbn [option_map CompOpp]; auto.
  destruct (SFcompare_none _ _ E); congruence.
Qed.

Lemma insert_desc_perm (s : score) (l : list score) :
  Permutation (insert_desc s l) (s :: l).
Proof.
  induction l as [|t l IH]; cbn [insert_desc]; [reflexivity|].
  destruct (F64.ltb _ _); [|reflexivity].
  rewrite IH. apply perm_swap.
Qed.

Lemma sort_desc_perm (l : list score) : Permutation (sort_desc l) l.
Proof.
  induction l as [|s l IH]; cbn [sort_desc fold_right]; [reflexivity|].
  fold (sort_desc l). rewrite insert_desc_perm. now constructor.
Qed.

Lemma insert_desc_hd (t s : score) (l : list score) :
  descending t s -> HdRel descending t l -> HdRel descending t (insert_desc s l).
Proof.
  intros Hts Hl. destruct l as [|u l]; cbn [insert_desc]; [now constructor|].
  destruct (F64.ltb _ _); constructor; auto. now inversion Hl.
Qed.

Lemma insert_desc_sorted (s : score) (l : list score) :
  F64.is_nan (score_key s) = false ->
  Forall (fun t => F64.is_nan (score_key t) = false) l ->
  Sorted descending l -> Sorted descending (insert_desc s l).
Proof.
  intros Hs Hl Hsorted. induction Hsorted as [|t l Hsl IH Hhd]; cbn [insert_desc].
  - repeat constructor.
  - inversion Hl; subst.
    destruct (F64.ltb (fst (fst s)) (fst (fst t))) eqn:E.
    + constructor; [now apply IH|]. apply insert_desc_hd; [|assumption].
      now apply ltb_leb.
    + constructor; [now constructor|]. constructor. now apply not_ltb_leb.
Qed.

Lemma sort_desc_sorted (l : list score) :
  Forall (fun t => F64.is_nan (score_key t) = false) l ->
  Sorted descending (sort_desc l).
Proof.
  induction 1 as [|s l Hs Hl IH]; cbn [sort_desc fold_right]; [constructor|].
  fold (sort_desc l). apply insert_desc_sorted; auto.
  rewrite Forall_forall in *. intros t Ht. apply Hl.
  now apply (Permutation_in _ (sort_desc_perm l)).
Qed.

Lemma collect_scores_scored (imps : list float) (cols : list string) (df : DataFrame)
      (rest : list string) (i : nat) (scores : list score) :
  (forall j c, nth_error rest j = Some c -> nth_error cols (i + j) = Some c) ->
  collect_scores imps df i rest = Ok scores ->
  Forall (scored_as imps cols df) scores.
Proof.
  revert i scores. induction rest as [|c rest IH]; intros i scores Hidx H;
    cbn [collect_scores] in H.
  - inversion H; constructor.
  - bind_inv H. bind_inv H. inversion H; subst; clear H.
    assert (Hrest : Forall (scored_as imps cols df) v0).
    { apply (IH (S i)); [|assumption]. intros j c' Hj.
      replace (S i + j)%nat with (i + S j)%nat by lia. now apply Hidx. }
    destruct v as [s|]; [|assumption].
    constructor; [|assumption].
    destruct (score_column_some _ _ _ _ _ E)
      as (col & series & x & z & Hc & Hl & Hm & Hx & Hz & ->).
    cbn. exists i, col, series, x. repeat split; auto.
    specialize (Hidx 0%nat c eq_refl). now rewrite Nat.add_0_r in Hidx.
Qed.

Lemma dict_get_default (d : list (string * string)) (k dflt : string) :
  ~ In k (map fst d) -> dict_get d k dflt = dflt.
Proof.
  induction d as [|[k' v] d IH]; cbn [dict_get map fst In]; [reflexivity|].
  intros H. destruct (String.eqb k k') eqn:E.
  - apply String.eqb_eq in E. subst. exfalso; apply H; now left.
  - apply IH. intros Hin; apply H; now right.
Qed.

Lemma score_column_usable (imps : list float) (df : DataFrame) (i : nat) (c : string)
      (o : option score) :
  score_column imps df i c = Ok o ->
  candidate c = true -> usable df c ->
  exists k z, o = Some (k, c, z).
Proof.
  unfold score_column, candidate, usable.
  intros H Hc (col & series & Hl & Hm & Hn & Hz & Hf).
  apply andb_true_iff in Hc. destruct Hc as (Hp & Hr).
  apply negb_true_iff in Hp, Hr. rewrite Hp, Hr in H.
  unfold has_column, get_column, last_cell, get_column in H. rewrite Hl in H.
  cbn [negb bind] in H. rewrite Hm in H. cbn [bind] in H.
  rewrite Hn, Hz, Hf in H. cbn [orb negb bind] in H.
  destruct (to_float (nth (nrows df - 1) col (CFloat F64.nan))) as [x|]; cbn [bind] in H;
    [|discriminate].
  inversion H. eauto.
Qed.

Lemma collect_scores_complete (imps : list float) (df : DataFrame)
      (rest : list string) (i : nat) (scores : list score) (c : string) :
  collect_scores imps df i rest = Ok scores ->
  In c rest -> candidate c = true -> usable df c ->
  exists k z, In (k, c, z) scores.
Proof.
  revert i scores. induction rest as [|c0 rest IH]; intros i scores H Hin Hc Hu;
    [contradiction|].
  cbn [collect_scores] in H. bind_inv H. bind_inv H. inversion H; subst; clear H.
  destruct Hin as [->|Hin].
  - destruct (score_column_usable _ _ _ _ _ E Hc Hu) as (k & z & ->).
    exists k, z. now left.
  - destruct (IH _ _ E0 Hin Hc Hu) as (k & z & Hkz).
    exists k, z. destruct v; [now right | assumption].
Qed.

(** C7.  A rationale other than the fallback comes from the scores of the
    considered columns: every considered column with usable statistics has a
    score, and each score is [|z|] times the column's importance, with [z]
    the latest value's distance from the column's mean in standard deviations
    (0 for a non-finite latest value); the scores are ranked in descending
    order; the text names the first one or two, each as "high" or "low" by
    the sign test [z >= 0] and the column's label, the raw column name where
    no label is fixed. *)
Theorem rationale_from_ranked_scores
        (model : Model) (imps : list float) (cols : list string)
        (df : DataFrame) (w : string) :
  feature_importances_ model = Some imps ->
  _why_string model cols df = Ok w ->
  w <> FALLBACK ->
  (forall scores, collect_scores imps df 0 cols = Ok scores ->
                  Forall (fun s => F64.is_nan (score_key s) = false) scores) ->
  exists scores ranked first rest,
    collect_scores imps df 0 cols = Ok scores /\
    Forall (scored_as imps cols df) scores /\
    (forall c, In c cols -> candidate c = true -> usable df c ->
               exists k z, In (k, c, z) scores) /\
    Permutation ranked scores /\
    Sorted descending ranked /\
    ranked = first :: rest /\
    w = match rest with
        | [] => String.append "Driven mainly by " (String.append (phrase first) ".")
        | second :: _ =>
            String.append "Driven mainly by "
              (String.append (phrase first)
                 (String.append " and " (String.append (phrase second) ".")))
        end /\
    (forall k c z,
        phrase (k, c, z) =
        String.append (if F64.leb F64.zero z then "high" else "low")
                      (String.append " " (dict_get FRIENDLY c c))) /\
    (forall c, ~ In c (map fst FRIENDLY) -> dict_get FRIENDLY c c = c).
Proof.
  intros Hi Hw Hnf Hnan. unfold _why_string in Hw. rewrite Hi in Hw.
  destruct (Nat.ltb (len df) 10); [inversion Hw; congruence|].
  bind_inv Hw. rename v into scores.
  destruct scores as [|s0 scores]; [inversion Hw; congruence|].
  set (all := s0 :: scores) in *.
  pose proof (sort_desc_length all) as Hlen.
  destruct (sort_desc all) as [|first rest] eqn:Es; [cbn in Hlen; lia|].
  exists all, (first :: rest), first, rest.
  split; [exact E|].
  split; [apply (collect_scores_scored imps cols df cols 0 all); auto|].
  split; [intros c; apply (collect_scores_complete imps df cols 0 all c E)|].
  split; [rewrite <- Es; apply sort_desc_perm|].
  split; [rewrite <- Es; apply sort_desc_sorted; now apply Hnan|].
  split; [reflexivity|].
  split.
  - destruct rest as [|second rest]; cbn [firstn map sentence] in Hw;
      inversion Hw; reflexivity.
  - split; [intros k c z; reflexivity | intros c; apply dict_get_default].
Qed.

Lemma rationale_from_ranked_scores_witness :
  exists scores ranked first rest,
    collect_scores [F64.half; F64.one; F64.half] zigzag_features 0 zigzag_schema
      = Ok scores /\
    Forall (scored_as [F64.half; F64.one; F64.half] zigzag_schema zigzag_features) scores /\
    (forall c, In c zigzag_schema -> candidate c = true -> usable zigzag_features c ->
               exists k z, In (k, c, z) scores) /\
    Permutation ranked scores /\
    Sorted descending ranked /\
    ranked = first :: rest /\
    "Driven mainly by high short-term momentum and low intraday price range."%string =
      match rest with
      | [] => String.append "Driven mainly by " (String.append (phrase first) ".")
      | second :: _ =>
          String.append "Driven mainly by "
            (String.append (phrase first)
               (String.append " and " (String.append (phrase second) ".")))
      end /\
    (forall k c z,
        phrase (k, c, z) =
        String.append (if F64.leb F64.zero z then "high" else "low")
                      (String.append " " (dict_get FRIENDLY c c))) /\
    (forall c, ~ In c (map fst FRIENDLY) -> dict_get FRIENDLY c c = c).
Proof.
  apply (rationale_from_ranked_scores sample_model [F64.half; F64.one; F64.half]
           zigzag_schema zigzag_features
           "Driven mainly by high short-term momentum and low intraday price range.").
  - reflexivity.
  - vm_compute. reflexivity.
  - discriminate.
  - intros scores H. vm_compute in H. inversion H. repeat constructor.
Defined.




(** The sample, evaluated: the column beyond the vector's end is ranked with
    a score of zero. *)
Example short_importances_sample :
  _why_string (mkModel (forest (fun _ => F64.half)) (Some [F64.one]))
              ["return_1d"; "rsi_14"; "daily_range"]%string zigzag_features
  = Ok "Driven mainly by high short-term momentum and low intraday price range."%string.
Proof. vm_compute. reflexivity. Qed.

(** ** The handler *)

Lemma process_ticker_trace (cfg : Config) (model : Model) (cols : list string)
      (items : list Item) (t : string) (preds : list Prediction)
      (tr tr2 : list event) (r : result (list Prediction)) :
  process_ticker cfg model cols items t preds tr = (r, tr2) ->
  exists evs,
    tr2 = tr ++ evs /\
    Forall (fun e => event_ticker e = t /\ justified cfg cols items e) evs.
Proof.
  unfold process_ticker, bindM, lift, retM, emit. intros H.
  destruct (_query_ticker_history items t) as [df|e] eqn:Eq;
    [|inversion H; subst; exists []; split; [now rewrite app_nil_r | constructor]].
  destruct (insufficient cfg df) eqn:Ei;
    [inversion H; subst; exists []; split; [now rewrite app_nil_r | constructor]|].
  assert (HF : event_ticker (EvFeatures t) = t /\ justified cfg cols items (EvFeatures t)).
  { split; [reflexivity|]. exists df. cbn [event_ticker]. auto. }
  destruct (_prep_latest_features cfg df cols) as [[X df_feat]|e] eqn:Ep;
    [|inversion H; subst; exists [EvFeatures t]; split; [reflexivity | repeat constructor; apply HF]].
  destruct (has_missing X) as [b|e] eqn:Eh;
    [|inversion H; subst; exists [EvFeatures t]; split; [reflexivity | repeat constructor; apply HF]].
  destruct b;
    [inversion H; subst; exists [EvFeatures t]; split; [reflexivity | repeat constructor; apply HF]|].
  assert (HP : event_ticker (EvPredict t X) = t /\ justified cfg cols items (EvPredict t X)).
  { split; [reflexivity|]. exists df. cbn [event_ticker]. eauto. }
  exists [EvFeatures t; EvPredict t X].
  destruct (predict_proba model X) as [prob|e];
    [|inversion H; subst;
      (split; [now rewrite <- app_assoc | repeat constructor; [apply HF | apply HP]])].
  destruct (_why_string model cols df_feat) as [w|e]; inversion H; subst;
    (split; [now rewrite <- app_assoc | repeat constructor; [apply HF | apply HP]]).
Qed.

Lemma process_watchlist_trace (cfg : Config) (model : Model) (cols : list string)
      (query : string -> list Item) (ts : list string) (preds : list Prediction)
      (tr tr2 : list event) (r : result (list Prediction)) :
  process_watchlist cfg model cols query ts preds tr = (r, tr2) ->
  exists evs,
    tr2 = tr ++ evs /\
    Forall (fun e => In (event_ticker e) ts /\
                     justified cfg cols (query (event_ticker e)) e) evs.
Proof.
  revert preds tr tr2 r. induction ts as [|t ts IH]; intros preds tr tr2 r H;
    cbn [process_watchlist] in H.
  - unfold retM in H. inversion H; subst. exists []. split; [now rewrite app_nil_r | constructor].
  - unfold bindM in H.
    destruct (process_ticker cfg model cols (query t) t preds tr) as [r1 tr1] eqn:E1.
    destruct (process_ticker_trace _ _ _ _ _ _ _ _ _ E1) as (evs1 & -> & HF1).
    assert (HF1' : Forall (fun e => In (event_ticker e) (t :: ts) /\
                                    justified cfg cols (query (event_ticker e)) e) evs1).
    { eapply Forall_impl; [|exact HF1]. intros e (He & Hj). rewrite He. split; [now left | exact Hj]. }
    destruct r1 as [preds1|e].
    + destruct (IH _ _ _ _ H) as (evs2 & -> & HF2).
      exists (evs1 ++ evs2). split; [now rewrite app_assoc|].
      apply Forall_app. split; [exact HF1'|].
      eapply Forall_impl; [|exact HF2]. intros e (He & Hj). split; [now right | exact Hj].
    + inversion H; subst. exists evs1. split; [reflexivity | exact HF1'].
Qed.

Lemma insufficient_false (cfg : Config) (items : list Item) (t : string) (df : DataFrame) :
  _query_ticker_history items t = Ok df ->
  insufficient cfg df = false ->
  items <> [] /\ MIN_HISTORY_DAYS cfg <= Z.of_nat (List.length items).
Proof.
  intros Eq Hi. unfold insufficient in Hi. apply orb_false_iff in Hi.
  destruct Hi as (He & Hl). rewrite (query_len _ _ _ Eq) in Hl.
  split; [|lia].
  intros ->. rewrite query_empty in Eq. inversion Eq; subst. discriminate He.
Qed.

(** Every recorded step of an invocation is justified by the history of its
    ticker, whether the invocation completes or raises. *)
Lemma run_trace (cfg : Config) (w : World) (e : event) :
  In e (snd (run cfg w)) ->
  exists model cols,
    artifacts w = Ok (model, cols) /\
    In (event_ticker e) (WATCHLIST cfg) /\
    justified cfg cols (store w (event_ticker e) (today w - LOOKBACK_DAYS cfg)) e.
Proof.
  intros Hin. unfold run, lambda_handler, bindM, lift in Hin.
  destruct (artifacts w) as [[model cols]|ex] eqn:Ea; [|contradiction].
  match type of Hin with
  | context [process_watchlist ?c ?m ?cs ?q ?ts ?p ?tr] =>
      destruct (process_watchlist c m cs q ts p tr) as [r tr2] eqn:Ew
  end.
  destruct (process_watchlist_trace _ _ _ _ _ _ _ _ _ Ew) as (evs & -> & HF).
  assert (Hin' : In e evs).
  { destruct r; cbn in Hin; exact Hin. }
  rewrite Forall_forall in HF. destruct (HF _ Hin') as (Ht & Hj).
  exists model, cols. auto.
Qed.

(** C3.  In every execution of the service, complete or ended by an exception,
    each call of the classifier's probability estimation is made for a
    watchlist ticker whose fetched history is non-empty and at least
    MIN_HISTORY_DAYS long, on the aligned latest row of that history, whose
    has-missing flag is false. *)
Theorem classifier_called_only_on_sufficient_complete
        (cfg : Config) (w : World) (t : string) (X : DataFrame) :
  In (EvPredict t X) (snd (run cfg w)) ->
  let items := store w t (today w - LOOKBACK_DAYS cfg) in
  exists model cols df df_feat,
    artifacts w = Ok (model, cols) /\
    In t (WATCHLIST cfg) /\
    items <> [] /\
    MIN_HISTORY_DAYS cfg <= Z.of_nat (List.length items) /\
    _query_ticker_history items t = Ok df /\
    _prep_latest_features cfg df cols = Ok (X, df_feat) /\
    has_missing X = Ok false.
Proof.
  intros Hin items.
  destruct (run_trace cfg w _ Hin) as (model & cols & Ea & Ht & df & Eq & Hi & df_feat & Ep & Eh).
  cbn [event_ticker] in *.
  destruct (insufficient_false _ _ _ _ Eq Hi) as (Hne & Hmin).
  exists model, cols, df, df_feat. repeat split; auto.
Qed.
Lemma classifier_called_witness :
  exists model cols df df_feat,
    artifacts small_world = Ok (model, cols) /\
    In "MSFT"%string (WATCHLIST small_config) /\
    store small_world "MSFT" (today small_world - LOOKBACK_DAYS small_config) <> [] /\
    MIN_HISTORY_DAYS small_config <=
      Z.of_nat (List.length (store small_world "MSFT"
                               (today small_world - LOOKBACK_DAYS small_config))) /\
    _query_ticker_history
      (store small_world "MSFT" (today small_world - LOOKBACK_DAYS small_config))
      "MSFT" = Ok df /\
    _prep_latest_features small_config df cols = Ok (small_row, df_feat) /\
    has_missing small_row = Ok false.
Proof.
  apply (classifier_called_only_on_sufficient_complete
           small_config small_world "MSFT"%string small_row).
  vm_compute. right; left; reflexivity.
Defined.

(** ** What a returned response holds *)

Lemma process_ticker_inv (cfg : Config) (model : Model) (cols : list string)
      (items : list Item) (t : string) (preds r : list Prediction) (tr tr' : list event) :
  process_ticker cfg model cols items t preds tr = (Ok r, tr') ->
  exists p, r = preds ++ [p] /\ entry_for cfg model cols items t p.
Proof.
  unfold process_ticker, bindM, lift, retM, emit, entry_for. intros H.
  destruct (_query_ticker_history items t) as [df|e] eqn:Eq; [|discriminate H].
  destruct (insufficient cfg df) eqn:Ei.
  { inversion H; subst. eexists. split; [reflexivity|]. split; [reflexivity|].
    exists df. split; [reflexivity|]. split; [reflexivity | congruence]. }
  destruct (_prep_latest_features cfg df cols) as [[X df_feat]|e] eqn:Ep; [|discriminate H].
  destruct (has_missing X) as [b|e] eqn:Eh; [|discriminate H].
  destruct b.
  { inversion H; subst. eexists. split; [reflexivity|]. split; [reflexivity|].
    exists df. split; [reflexivity|]. split; [congruence|]. intros _.
    exists X, df_feat, true. repeat split; auto. discriminate. }
  destruct (predict_proba model X) as [prob|e] eqn:Epp; [|discriminate H].
  destruct (_why_string model cols df_feat) as [wy|e] eqn:Ew; [|discriminate H].
  inversion H; subst. eexists. split; [reflexivity|]. split; [reflexivity|].
  exists df. split; [reflexivity|]. split; [congruence|]. intros _.
  exists X, df_feat, false. repeat split; auto; [discriminate|].
  intros _. exists prob, wy. auto.
Qed.

Lemma process_watchlist_inv (cfg : Config) (model : Model) (cols : list string)
      (query : string -> list Item) (ts : list string) (preds r : list Prediction)
      (tr tr' : list event) :
  process_watchlist cfg model cols query ts preds tr = (Ok r, tr') ->
  exists ps,
    r = preds ++ ps /\
    Forall2 (fun t p => entry_for cfg model cols (query t) t p) ts ps.
Proof.
  revert preds tr. induction ts as [|t ts IH]; intros preds tr H;
    cbn [process_watchlist] in H.
  - unfold retM in H. inversion H; subst. exists []. rewrite app_nil_r.
    split; [reflexivity | constructor].
  - unfold bindM in H.
    destruct (process_ticker cfg model cols (query t) t preds tr) as [[r1|e] tr1] eqn:E1;
      [|discriminate H].
    destruct (process_ticker_inv _ _ _ _ _ _ _ _ _ E1) as (p & -> & Hp).
    destruct (IH _ _ H) as (ps & -> & HF).
    exists (p :: ps). rewrite <- app_assoc. split; [reflexivity|].
    constructor; assumption.
Qed.

(** A response, when the invocation returns one, answers the watchlist entry
    by entry. *)
Lemma run_inv (cfg : Config) (w : World) (resp : Response) :
  fst (run cfg w) = Ok resp ->
  exists model cols,
    artifacts w = Ok (model, cols) /\
    statusCode resp = 200 /\
    Forall2 (fun t p => entry_for cfg model cols
                          (store w t (today w - LOOKBACK_DAYS cfg)) t p)
            (WATCHLIST cfg) (predictions (body resp)).
Proof.
  unfold run, lambda_handler, bindM, lift, retM. intros H.
  destruct (artifacts w) as [[model cols]|e] eqn:Ea; [|discriminate H].
  match type of H with
  | context [process_watchlist ?c ?m ?cs ?q ?ts ?p ?tr] =>
      destruct (process_watchlist c m cs q ts p tr) as [[r|e] tr2] eqn:Ew
  end; [|discriminate H].
  destruct (process_watchlist_inv _ _ _ _ _ _ _ _ _ Ew) as (ps & -> & HF).
  cbn [fst] in H. inversion H; subst. cbn [statusCode body predictions app].
  exists model, cols. auto.
Qed.

Lemma Forall2_map_eq {A B : Type} (f : B -> A) (R : A -> B -> Prop)
      (l : list A) (l' : list B) :
  (forall a b, R a b -> f b = a) -> Forall2 R l l' -> map f l' = l.
Proof.
  intros HR HF. induction HF as [|a b l l' Hab HF IH]; cbn [map]; [reflexivity|].
  now rewrite (HR _ _ Hab), IH.
Qed.

(** ** An infinite feature value ends the invocation *)

(** C4.  The batch is not protected from an infinite feature value.  With
    the watchlist of the service, a table that holds thirty bars for every
    ticker, the last bar of AAPL opening at zero, and a classifier that
    checks its input as scikit-learn's do: NVDA is served; the intraday
    range of AAPL's last row is infinite, its has-missing flag is false, the
    row goes to the classifier, the classifier raises [ValueError], and the
    invocation ends with that exception.  No response is returned, and the
    four tickers after AAPL, each of which the loop would give a computed
    entry, are never reached. *)
Theorem infinite_feature_aborts_the_batch :
  store zero_open_world "AAPL" (today zero_open_world - LOOKBACK_DAYS default_config)
  = zero_open_history /\
  fst (run default_config zero_open_world) = Raise ValueError /\
  (exists X,
      snd (run default_config zero_open_world)
      = [EvFeatures "NVDA"; EvPredict "NVDA" X;
         EvFeatures "AAPL"; EvPredict "AAPL" zero_open_row]) /\
  has_missing zero_open_row = Ok false /\
  row_cells 0 zero_open_row = [CFloat (S754_infinity false)] /\
  predict_proba sample_model zero_open_row = Raise ValueError /\
  (forall t, In t ["MSFT"; "GOOGL"; "AMZN"; "TSLA"]%string ->
             exists X,
               process_ticker default_config sample_model ["daily_range"]%string
                 (store zero_open_world t
                        (today zero_open_world - LOOKBACK_DAYS default_config))
                 t [] []
               = (Ok [mkPrediction t (Some true) (Some F64.half)
                                   "Driven mainly by low intraday price range."],
                  [EvFeatures t; EvPredict t X])).
Proof.
  split; [reflexivity|]. split; [vm_compute; reflexivity|].
  split; [eexists; vm_compute; reflexivity|].
  split; [reflexivity|]. split; [reflexivity|]. split; [reflexivity|].
  intros t Ht. cbn [In] in Ht.
  destruct Ht as [<-|[<-|[<-|[<-|[]]]]]; eexists; vm_compute; reflexivity.
Qed.
Lemma Forall2_nth_error {A B : Type} (R : A -> B -> Prop) (l : list A) (l' : list B)
      (i : nat) (a : A) :
  Forall2 R l l' -> nth_error l i = Some a ->
  exists b, nth_error l' i = Some b /\ R a b.
Proof.
  intros HF. revert i. induction HF as [|x y l l' Hxy HF IH]; intros [|i] H;
    cbn [nth_error] in *; try discriminate.
  - inversion H; subst. eauto.
  - now apply IH.
Qed.

(** C5.  With the threshold at 25, for a watchlist ticker whose fetched
    history has exactly 24 bars the turn of the loop appends the entry with
    [pred_up] and [prob_up] null and the text "Not enough recent history
    yet." and records neither a feature build nor a classifier call; a
    response the invocation returns carries that entry at the ticker's place;
    and no step of the invocation, returned or not, is a feature build or a
    classifier call for that ticker. *)
Theorem short_history_null_entry
        (cfg : Config) (w : World) (i : nat) (t : string) :
  MIN_HISTORY_DAYS cfg = 25 ->
  nth_error (WATCHLIST cfg) i = Some t ->
  List.length (store w t (today w - LOOKBACK_DAYS cfg)) = 24%nat ->
  (forall model cols preds tr,
      process_ticker cfg model cols (store w t (today w - LOOKBACK_DAYS cfg)) t preds tr
      = (Ok (preds ++ [mkPrediction t None None "Not enough recent history yet."]), tr)) /\
  (forall resp,
      fst (run cfg w) = Ok resp ->
      nth_error (predictions (body resp)) i =
        Some (mkPrediction t None None "Not enough recent history yet.")) /\
  (forall e, In e (snd (run cfg w)) -> event_ticker e <> t).
Proof.
  intros Hmin Hi Hlen.
  set (items := store w t (today w - LOOKBACK_DAYS cfg)) in *.
  assert (Hshort : forall df,
             _query_ticker_history items t = Ok df -> insufficient cfg df = true).
  { intros df Eq. unfold insufficient. rewrite (query_len _ _ _ Eq), Hlen, Hmin.
    apply orb_true_r. }
  split; [|split].
  - intros model cols preds tr.
    assert (Hne : items <> []) by (intros E; rewrite E in Hlen; discriminate Hlen).
    destruct (query_history items t Hne) as (df & Eq & _).
    unfold process_ticker, bindM, lift, retM. rewrite Eq, (Hshort df Eq). reflexivity.
  - intros resp Er.
    destruct (run_inv cfg w resp Er) as (model & cols & _ & _ & HF).
    destruct (Forall2_nth_error _ _ _ _ _ HF Hi) as (p & Hp & _ & df & Eq & Hnull & _).
    rewrite Hp. f_equal. apply Hnull. now apply Hshort.
  - intros e Hin Het.
    destruct (run_trace cfg w e Hin) as (_ & _ & _ & _ & df & Eq & Hins & _).
    rewrite Het in Eq. rewrite (Hshort df Eq) in Hins. discriminate.
Qed.

Lemma short_history_null_entry_witness :
  (forall model cols preds tr,
      process_ticker default_config model cols
                     (store sample_world "AAPL"
                            (today sample_world - LOOKBACK_DAYS default_config))
                     "AAPL" preds tr
      = (Ok (preds ++ [mkPrediction "AAPL" None None "Not enough recent history yet."]),
         tr)) /\
  (forall resp,
      fst (run default_config sample_world) = Ok resp ->
      nth_error (predictions (body resp)) 1 =
        Some (mkPrediction "AAPL" None None "Not enough recent history yet.")) /\
  (forall e, In e (snd (run default_config sample_world)) ->
             event_ticker e <> "AAPL"%string).
Proof.
  apply (short_history_null_entry default_config sample_world 1 "AAPL").
  - reflexivity.
  - reflexivity.
  - vm_compute. reflexivity.
Defined.

(** The sample invocation returns, with that entry in the second place. *)
Example short_history_sample :
  nth_error (predictions (body sample_response)) 1 =
  Some (mkPrediction "AAPL" None None "Not enough recent history yet.") /\
  fst (run default_config sample_world) = Ok sample_response.
Proof. vm_compute. split; reflexivity. Qed.

(** * Further properties *)

(** ** The history query sorts whole rows *)

Lemma insert_by_key_in (k : Z) (i : nat) (l : list (Z * nat)) (x : Z * nat) :
  In x (insert_by_key k i l) -> x = (k, i) \/ In x l.
Proof.
  intros H. apply (Permutation_in _ (insert_by_key_perm k i l)) in H.
  destruct H as [H|H]; auto.
Qed.

Lemma insert_by_key_sorted (k : Z) (i : nat) (l : list (Z * nat)) :
  StronglySorted (fun a b => fst a <= fst b) l ->
  StronglySorted (fun a b => fst a <= fst b) (insert_by_key k i l).
Proof.
  induction 1 as [|[k' i'] l Hs IH Hall]; cbn [insert_by_key].
  - repeat constructor.
  - destruct (Z.ltb_spec k k') as [Hlt|Hge].
    + constructor; [constructor; assumption|].
      constructor; [cbn; lia|].
      eapply Forall_impl; [|exact Hall]. cbn. intros a Ha. lia.
    + constructor; [exact IH|].
      rewrite Forall_forall. intros x Hx.
      destruct (insert_by_key_in _ _ _ _ Hx) as [->|Hin]; [cbn; lia|].
      rewrite Forall_forall in Hall. now apply Hall.
Qed.

Lemma fold_insert_sorted (kis acc : list (Z * nat)) :
  StronglySorted (fun a b => fst a <= fst b) acc ->
  StronglySorted (fun a b => fst a <= fst b)
    (fold_left (fun acc ki => insert_by_key (fst ki) (snd ki) acc) kis acc).
Proof.
  revert acc. induction kis as [|ki kis IH]; intros acc Hs; cbn [fold_left];
    [exact Hs|].
  apply IH. now apply insert_by_key_sorted.
Qed.

Lemma in_combine_seq (keys : list Z) (k : Z) (i : nat) :
  In (k, i) (combine keys (seq 0 (List.length keys))) ->
  (i < List.length keys)%nat /\ nth i keys 0 = k.
Proof.
  assert (G : forall (ks : list Z) (b : nat),
             In (k, i) (combine ks (seq b (List.length ks))) ->
             (b <= i < b + List.length ks)%nat /\ nth (i - b) ks 0 = k).
  { induction ks as [|k0 ks IH]; intros b H; cbn in H; [contradiction|].
    destruct H as [H|H].
    - inversion H; subst. rewrite Nat.sub_diag. cbn. split; [lia | reflexivity].
    - destruct (IH _ H) as (Hr & Hn). cbn [List.length]. split; [lia|].
      replace (i - b)%nat with (S (i - S b)) by lia. exact Hn. }
  intros H. destruct (G keys 0%nat H) as (Hr & Hn).
  rewrite Nat.sub_0_r in Hn. split; [lia | exact Hn].
Qed.

(** The keys read along the sorting permutation never decrease. *)
Lemma sort_perm_sorted (keys : list Z) :
  StronglySorted Z.le (map (fun i => nth i keys 0) (sort_perm keys)).
Proof.
  unfold sort_perm.
  set (L := fold_left _ _ _).
  assert (Hs : StronglySorted (fun a b => fst a <= fst b) L)
    by (apply fold_insert_sorted; constructor).
  assert (Hin : forall x, In x L -> nth (snd x) keys 0 = fst x).
  { intros [k i] Hx. apply (Permutation_in _ (fold_insert_perm _ _)) in Hx.
    rewrite app_nil_r in Hx. apply in_combine_seq in Hx. apply Hx. }
  clearbody L. rewrite map_map.
  induction Hs as [|a l Hs IH Hall]; cbn [map]; constructor.
  - apply IH. intros x Hx. apply Hin. now right.
  - rewrite Forall_map, Forall_forall. intros x Hx.
    rewrite (Hin a (or_introl eq_refl)), (Hin x (or_intror Hx)).
    rewrite Forall_forall in Hall. now apply Hall.
Qed.

Lemma take_rows_map {A : Type} (f : A -> cell) (d : A) (l : list A) (perm : list nat) :
  (forall i, In i perm -> (i < List.length l)%nat) ->
  take_rows perm (map f l) = map f (map (fun i => nth i l d) perm).
Proof.
  intros H. unfold take_rows. rewrite map_map. apply map_ext_in.
  intros i Hi. apply nth_map_in. now apply H.
Qed.

Lemma rows_of_perm {A : Type} (d : A) (l : list A) (perm : list nat) :
  Permutation perm (seq 0 (List.length l)) ->
  Permutation (map (fun i => nth i l d) perm) l.
Proof.
  intros H. rewrite (Permutation_map _ H).
  assert (E : map (fun i => nth i l d) (seq 0 (List.length l)) = l).
  { clear H. induction l as [|a l IH]; [reflexivity|].
    cbn [List.length seq map nth]. f_equal.
    rewrite <- seq_shift, map_map. exact IH. }
  now rewrite E.
Qed.

(** The frame of a queried history is the frame of its items rearranged in
    date order. *)
Lemma query_history_rows (items : list Item) (t : string) (df : DataFrame) :
  items <> [] ->
  _query_ticker_history items t = Ok df ->
  exists rows,
    Permutation rows items /\
    StronglySorted by_date rows /\
    df = history_table rows t.
Proof.
  intros Hne Hq. unfold _query_ticker_history in Hq.
  destruct items as [|it0 items]; [congruence|].
  set (its := it0 :: items) in *. clearbody its.
  apply bind_ok in Hq. destruct Hq as (sorted & Hs & Hq).
  injection Hq as <-.
  apply sort_values_date_inv in Hs.
  destruct Hs as (s & keys & Hl & Hk & ->).
  cbn in Hl. injection Hl as <-.
  replace (map (fun it => CDate (it_date it)) its)
    with (map CDate (map it_date its)) in Hk by (now rewrite map_map).
  rewrite mapM_date_of_dates in Hk. injection Hk as <-.
  set (perm := sort_perm (map it_date its)).
  assert (Hr : forall i, In i perm -> (i < List.length its)%nat).
  { intros i Hi. apply sort_perm_range in Hi. now rewrite length_map in Hi. }
  exists (map (fun i => nth i its it0) perm).
  split; [|split].
  - apply rows_of_perm. unfold perm.
    rewrite <- (length_map it_date its). apply sort_perm_perm.
  - pose proof (sort_perm_sorted (map it_date its)) as Hs. fold perm in Hs.
    assert (E : map (fun i => nth i (map it_date its) 0) perm
                = map it_date (map (fun i => nth i its it0) perm)).
    { rewrite map_map. apply map_ext_in. intros i Hi.
      apply nth_map_in. now apply Hr. }
    rewrite E in Hs. clear E.
    induction (map (fun i => nth i its it0) perm) as [|a l IH]; [constructor|].
    cbn [map] in Hs. inversion Hs as [|? ? Hs' Hall]; subst.
    constructor; [now apply IH|].
    rewrite Forall_map in Hall. exact Hall.
  - unfold history_table, set_scalar, set_column, floats.
    cbn [nrows columns map fst snd assign String.eqb Ascii.eqb Bool.eqb].
    rewrite length_map.
    assert (Hlen : List.length perm = List.length its).
    { unfold perm. rewrite sort_perm_length. apply length_map. }
    rewrite Hlen. f_equal.
    repeat rewrite map_map.
    repeat match goal with
    | |- context [take_rows perm (map ?f its)] =>
        rewrite (take_rows_map f it0 its perm Hr)
    end.
    repeat rewrite map_map. reflexivity.
Qed.

(** X1.  The history query returns the table's items as whole rows in
    ascending date order: the frame it builds is the frame of a rearrangement
    of the items in which no date is followed by an earlier one, every
    attribute of an item staying on the row of its date and the ticker symbol
    filling its own column. *)
Theorem query_sorts_whole_rows (items : list Item) (t : string) (df : DataFrame) :
  items <> [] ->
  _query_ticker_history items t = Ok df ->
  exists rows,
    Permutation rows items /\
    StronglySorted by_date rows /\
    df = history_table rows t.
Proof. exact (query_history_rows items t df). Qed.

Lemma query_sorts_whole_rows_witness :
  exists rows,
    Permutation rows [sample_bar 3 1 2 1 2 9; sample_bar 1 4 5 3 4 7; sample_bar 2 6 8 5 7 8] /\
    StronglySorted by_date rows /\
    history_table [sample_bar 1 4 5 3 4 7; sample_bar 2 6 8 5 7 8; sample_bar 3 1 2 1 2 9]
                  "MSFT" = history_table rows "MSFT".
Proof.
  destruct (query_sorts_whole_rows
              [sample_bar 3 1 2 1 2 9; sample_bar 1 4 5 3 4 7; sample_bar 2 6 8 5 7 8]
              "MSFT"%string
              (history_table [sample_bar 1 4 5 3 4 7; sample_bar 2 6 8 5 7 8;
                              sample_bar 3 1 2 1 2 9] "MSFT"))
    as (rows & Hp & Hs & He).
  - discriminate.
  - vm_compute. reflexivity.
  - exists rows. split; [exact Hp|]. split; [exact Hs | exact He].
Defined.

(** ** The feature table, column by column *)

Lemma not_in_names (n m : string) (l : list string) :
  ~ In n l -> In m l -> String.eqb n m = false.
Proof.
  intros Hn Hm. apply String.eqb_neq. intros ->. contradiction.
Qed.

Lemma mapM_date_of_inv (s : Series) (ds : list Z) :
  mapM date_of s = Ok ds -> s = map CDate ds.
Proof.
  revert ds. induction s as [|c s IH]; intros ds H; cbn [mapM] in H.
  - injection H as <-. reflexivity.
  - bind_inv H. bind_inv H. injection H as <-.
    destruct c; try discriminate. cbn in E. injection E as <-.
    cbn [map]. f_equal. now apply IH.
Qed.

(** What the feature builder reads and what it writes: the five price and
    volume columns of the date-sorted frame are read, the fifteen feature
    columns are written, every other column is the sorted input's. *)
Lemma add_features_table (df out : DataFrame) :
  add_features_lightweight df = Ok out ->
  exists sorted close volume high low open dates,
    sort_values_date df = Ok sorted /\
    float_column sorted "close" = Ok close /\
    float_column sorted "volume" = Ok volume /\
    float_column sorted "high" = Ok high /\
    float_column sorted "low" = Ok low /\
    float_column sorted "open" = Ok open /\
    lookup "date" (columns sorted) = Some (map CDate dates) /\
    nrows out = nrows df /\
    (forall n, ~ In n FEATURE_NAMES ->
               lookup n (columns out) = lookup n (columns sorted)) /\
    lookup "return_1d" (columns out) = Some (floats (pct_change 1 close)) /\
    lookup "return_5d" (columns out) = Some (floats (pct_change 5 close)) /\
    lookup "rsi_14" (columns out) = Some (floats (rsi_14 close)) /\
    lookup "return_10d" (columns out) = Some (floats (pct_change 10 close)) /\
    lookup "ma_5" (columns out) = Some (floats (rolling_mean 5 close)) /\
    lookup "ma_20" (columns out) = Some (floats (rolling_mean 20 close)) /\
    lookup "price_to_ma5" (columns out)
      = Some (floats (map2 F64.div close (rolling_mean 5 close))) /\
    lookup "price_to_ma20" (columns out)
      = Some (floats (map2 F64.div close (rolling_mean 20 close))) /\
    lookup "volatility_5d" (columns out)
      = Some (floats (rolling_std 5 (pct_change 1 close))) /\
    lookup "volatility_10d" (columns out)
      = Some (floats (rolling_std 10 (pct_change 1 close))) /\
    lookup "volume_ma_20" (columns out) = Some (floats (rolling_mean 20 volume)) /\
    lookup "volume_ratio" (columns out)
      = Some (floats (map2 F64.div volume (rolling_mean 20 volume))) /\
    lookup "daily_range" (columns out)
      = Some (floats (map2 F64.div (map2 F64.sub high low) open)) /\
    lookup "day_of_week" (columns out)
      = Some (map (fun d => CInt (dayofweek d)) dates) /\
    (forall vwap, float_column sorted "vwap" = Ok vwap ->
                  lookup "close_to_vwap" (columns out)
                  = Some (floats (map2 F64.div close vwap))) /\
    (has_column sorted "vwap" = false ->
     lookup "close_to_vwap" (columns out) = lookup "close_to_vwap" (columns sorted)).
Proof.
  unfold add_features_lightweight. intros H.
  bind_inv H. rename v into sorted.
  bind_inv H. rename v into close.
  bind_inv H. rename v into volume.
  bind_inv H. rename v into high.
  bind_inv H. rename v into low.
  bind_inv H. rename v into open.
  bind_inv H. rename v into withvwap.
  bind_inv H. rename v into dates.
  injection H as <-.
  unfold float_column, get_column in *.
  frame_simpl_in E1. frame_simpl_in E2. frame_simpl_in E3. frame_simpl_in E4.
  assert (Hn : nrows sorted = nrows df).
  { destruct (sort_values_date_inv _ _ E) as (? & ? & _ & _ & ->). reflexivity. }
  match type of E5 with
  | (if has_column ?d "vwap" then _ else _) = _ =>
      assert (Hw : (forall n, String.eqb n "close_to_vwap" = false ->
                              lookup n (columns withvwap) = lookup n (columns d)) /\
                   nrows withvwap = nrows sorted /\
                   (forall vwap, match lookup "vwap" (columns sorted) with
                                 | Some s => mapM to_float s
                                 | None => Raise (KeyError "vwap")
                                 end = Ok vwap ->
                                 lookup "close_to_vwap" (columns withvwap)
                                 = Some (floats (map2 F64.div close vwap))) /\
                   (has_column sorted "vwap" = false ->
                    lookup "close_to_vwap" (columns withvwap)
                    = lookup "close_to_vwap" (columns sorted)))
  end.
  { revert E5. unfold has_column. frame_simpl.
    destruct (lookup "vwap" (columns sorted)) as [sv|] eqn:Ev; intros E5.
    - bind_inv E5. injection E5 as <-. cbn [bind] in E7.
      split; [intros n Hne; cbn [columns set_column];
              now rewrite lookup_assign_neq by assumption|].
      split; [reflexivity|]. split; [|discriminate].
      intros vwap Hvw. frame_simpl. congruence.
    - injection E5 as <-.
      split; [reflexivity|]. split; [reflexivity|]. split; [discriminate|].
      intros _. frame_simpl. reflexivity. }
  destruct Hw as (Hlook & Hnw & Hv1 & Hv2).
  assert (Hd : lookup "date" (columns sorted) = Some (map CDate dates)).
  { rewrite Hlook in E6 by reflexivity. frame_simpl_in E6.
    destruct (lookup "date" (columns sorted)) as [s|]; [|discriminate].
    cbn [bind] in E6. now rewrite (mapM_date_of_inv _ _ E6). }
  clear E5 E6.
  exists sorted, close, volume, high, low, open, dates.
  repeat (split; [assumption|]).
  split; [cbn [nrows set_column]; congruence|].
  split.
  { intros n Hin.
    assert (Hne : forall m, In m FEATURE_NAMES -> String.eqb n m = false)
      by (intros m Hm; now apply (not_in_names n m FEATURE_NAMES)).
    cbn [columns set_column].
    rewrite lookup_assign_neq by (apply Hne; cbn; tauto).
    rewrite Hlook by (apply Hne; cbn; tauto).
    cbn [columns set_column].
    rewrite !lookup_assign_neq by (apply Hne; cbn; tauto). reflexivity. }
  cbn [columns set_column].
  rewrite !lookup_assign_neq by reflexivity.
  rewrite lookup_assign_eq.
  rewrite !Hlook by reflexivity.
  frame_simpl.
  repeat (split; [reflexivity|]).
  split.
  - intros vwap Hvw. apply Hv1. destruct (lookup "vwap" (columns sorted)); exact Hvw.
  - exact Hv2.
Qed.

(** ** Sorting a frame already in date order *)

Lemma insert_by_key_last_le (k : Z) (i : nat) (l : list (Z * nat)) :
  Forall (fun y => y <= k) (map fst l) -> insert_by_key k i l = l ++ [(k, i)].
Proof.
  induction l as [|[k' i'] l IH]; cbn [map fst insert_by_key app]; intros H;
    [reflexivity|].
  inversion H; subst. replace (k <? k') with false by (symmetry; apply Z.ltb_ge; lia).
  now rewrite IH.
Qed.

Lemma sorted_app_le (l1 : list Z) (x : Z) (l2 : list Z) :
  StronglySorted Z.le (l1 ++ x :: l2) -> Forall (fun y => y <= x) l1.
Proof.
  induction l1 as [|a l1 IH]; cbn [app]; intros H; [constructor|].
  inversion H as [|? ? Hs Hall]; subst. constructor; [|now apply IH].
  rewrite Forall_forall in Hall. apply Hall. apply in_elt.
Qed.

Lemma fold_insert_sorted_id (kis acc : list (Z * nat)) :
  StronglySorted Z.le (map fst (acc ++ kis)) ->
  fold_left (fun acc ki => insert_by_key (fst ki) (snd ki) acc) kis acc = acc ++ kis.
Proof.
  revert acc. induction kis as [|[k i] kis IH]; intros acc H; cbn [fold_left fst snd].
  - now rewrite app_nil_r.
  - rewrite map_app in H. cbn [map fst] in H.
    rewrite insert_by_key_last_le by (eapply sorted_app_le; exact H).
    rewrite IH; [now rewrite <- app_assoc|].
    rewrite <- app_assoc. cbn [app]. rewrite map_app. exact H.
Qed.

Lemma sort_perm_sorted_id (keys : list Z) :
  StronglySorted Z.le keys -> sort_perm keys = seq 0 (List.length keys).
Proof.
  intros H. unfold sort_perm. rewrite fold_insert_sorted_id.
  - cbn [app]. apply map_snd_combine. now rewrite length_seq.
  - cbn [app]. rewrite map_fst_combine by (now rewrite length_seq). exact H.
Qed.

Lemma sort_values_date_sorted (df : DataFrame) (ds : list Z) :
  wf_frame df ->
  lookup "date" (columns df) = Some (map CDate ds) ->
  StronglySorted Z.le ds ->
  sort_values_date df = Ok df.
Proof.
  intros Hwf Hd Ha. unfold sort_values_date, get_column. rewrite Hd. cbn [bind].
  rewrite mapM_date_of_dates. cbn [bind]. rewrite (sort_perm_sorted_id ds Ha).
  pose proof (wf_lookup _ _ _ Hwf Hd) as Hn. rewrite length_map in Hn.
  destruct df as [n cols]. cbn [nrows columns] in *. f_equal. f_equal.
  rewrite <- (map_id cols) at 2. apply map_ext_in. intros [c s] Hin.
  cbn [fst snd]. f_equal. unfold wf_frame in Hwf. cbn [columns nrows] in Hwf.
  rewrite Forall_forall in Hwf. specialize (Hwf _ Hin). cbn [snd] in Hwf.
  rewrite Hn, <- Hwf. apply take_rows_seq.
Qed.

Lemma by_date_sorted (rows : list Item) :
  StronglySorted by_date rows -> StronglySorted Z.le (map it_date rows).
Proof.
  induction 1 as [|a l Hs IH Hall]; cbn [map]; constructor; [exact IH|].
  rewrite Forall_map. exact Hall.
Qed.

Lemma wf_history_table (rows : list Item) (t : string) :
  wf_frame (history_table rows t).
Proof.
  unfold wf_frame, history_table, floats. cbn [columns nrows].
  repeat constructor; cbn [snd]; rewrite ?length_map, ?repeat_length; reflexivity.
Qed.

(** Every column of the feature table of a history in date order. *)
Lemma history_table_columns (rows : list Item) (t : string) (out : DataFrame) :
  StronglySorted by_date rows ->
  add_features_lightweight (history_table rows t) = Ok out ->
  let close := closes_of rows in
  let volume := map (fun it => dec (it_volume it)) rows in
  let high := map (fun it => dec (it_high it)) rows in
  let low := map (fun it => dec (it_low it)) rows in
  let open := map (fun it => dec (it_open it)) rows in
  let vwap := map (fun it => dec (it_vwap it)) rows in
  (forall n, ~ In n FEATURE_NAMES ->
             lookup n (columns out) = lookup n (columns (history_table rows t))) /\
  lookup "return_1d" (columns out) = Some (floats (pct_change 1 close)) /\
  lookup "return_5d" (columns out) = Some (floats (pct_change 5 close)) /\
  lookup "rsi_14" (columns out) = Some (floats (rsi_14 close)) /\
  lookup "return_10d" (columns out) = Some (floats (pct_change 10 close)) /\
  lookup "ma_5" (columns out) = Some (floats (rolling_mean 5 close)) /\
  lookup "ma_20" (columns out) = Some (floats (rolling_mean 20 close)) /\
  lookup "price_to_ma5" (columns out)
    = Some (floats (map2 F64.div close (rolling_mean 5 close))) /\
  lookup "price_to_ma20" (columns out)
    = Some (floats (map2 F64.div close (rolling_mean 20 close))) /\
  lookup "volatility_5d" (columns out)
    = Some (floats (rolling_std 5 (pct_change 1 close))) /\
  lookup "volatility_10d" (columns out)
    = Some (floats (rolling_std 10 (pct_change 1 close))) /\
  lookup "volume_ma_20" (columns out) = Some (floats (rolling_mean 20 volume)) /\
  lookup "volume_ratio" (columns out)
    = Some (floats (map2 F64.div volume (rolling_mean 20 volume))) /\
  lookup "daily_range" (columns out)
    = Some (floats (map2 F64.div (map2 F64.sub high low) open)) /\
  lookup "day_of_week" (columns out)
    = Some (map (fun it => CInt (dayofweek (it_date it))) rows) /\
  lookup "close_to_vwap" (columns out) = Some (floats (map2 F64.div close vwap)).
Proof.
  intros Hs Ea.
  destruct (add_features_table _ _ Ea)
    as (sorted & close & volume & high & low & open & dates & Es & Hc & Hvo & Hhi & Hlo
        & Hop & Hd & Hn & Hkeep & H1 & H2 & H3 & H4 & H5 & H6 & H7 & H8 & H9 & H10
        & H11 & H12 & Hdr & Hdow & Hctv & _).
  assert (Hsort : sort_values_date (history_table rows t) = Ok (history_table rows t)).
  { apply (sort_values_date_sorted _ (map it_date rows)).
    - apply wf_history_table.
    - cbn. now rewrite map_map.
    - now apply by_date_sorted. }
  rewrite Hsort in Es. injection Es as <-.
  unfold float_column, get_column in Hc, Hvo, Hhi, Hlo, Hop.
  cbn in Hc, Hvo, Hhi, Hlo, Hop, Hd.
  fold (floats (map (fun it => dec (it_close it)) rows)) in Hc.
  fold (floats (map (fun it => dec (it_volume it)) rows)) in Hvo.
  fold (floats (map (fun it => dec (it_high it)) rows)) in Hhi.
  fold (floats (map (fun it => dec (it_low it)) rows)) in Hlo.
  fold (floats (map (fun it => dec (it_open it)) rows)) in Hop.
  rewrite mapM_to_float_floats in Hc, Hvo, Hhi, Hlo, Hop.
  injection Hc as <-. injection Hvo as <-. injection Hhi as <-.
  injection Hlo as <-. injection Hop as <-.
  assert (Edates : dates = map it_date rows).
  { injection Hd as Hd. rewrite <- (map_map it_date CDate) in Hd.
    revert Hd. generalize (map it_date rows). clear.
    induction dates as [|d ds IH]; intros [|d' ds'] H; cbn in H;
      try discriminate; [reflexivity|].
    injection H as H1 H2. f_equal; [congruence | now apply IH]. }
  subst dates. cbv zeta. unfold closes_of.
  repeat (split; [assumption|]).
  split; [now rewrite Hdow, map_map|].
  apply Hctv. unfold float_column, get_column. cbn.
  fold (floats (map (fun it => dec (it_vwap it)) rows)).
  now rewrite mapM_to_float_floats.
Qed.

(** The feature table of a history whose rows are in date order: the builder
    reads the rows as they stand. *)
Lemma history_table_features (rows : list Item) (t : string) :
  StronglySorted by_date rows ->
  exists out,
    add_features_lightweight (history_table rows t) = Ok out /\
    nrows out = List.length rows /\
    (forall n, ~ In n FEATURE_NAMES ->
               lookup n (columns out) = lookup n (columns (history_table rows t))) /\
    lookup "rsi_14" (columns out) = Some (floats (rsi_14 (closes_of rows))) /\
    lookup "daily_range" (columns out)
      = Some (floats (map2 F64.div
                        (map2 F64.sub (map (fun it => dec (it_high it)) rows)
                                      (map (fun it => dec (it_low it)) rows))
                        (map (fun it => dec (it_open it)) rows))) /\
    lookup "close_to_vwap" (columns out)
      = Some (floats (map2 F64.div (closes_of rows)
                                   (map (fun it => dec (it_vwap it)) rows))) /\
    lookup "day_of_week" (columns out)
      = Some (map (fun it => CInt (dayofweek (it_date it))) rows).
Proof.
  intros Hs.
  assert (Hh : history_frame (history_table rows t)).
  { split; [apply wf_history_table|]. split; [|split].
    - unfold numeric_features, history_table; cbn [columns].
      repeat (apply Forall_cons;
              [cbn [fst snd];
               first [now left | right; now left | right; right; apply numeric_floats]|]).
      apply Forall_nil.
    - exists (map it_date rows). cbn. now rewrite map_map.
    - repeat constructor. }
  destruct (add_features_history _ Hh) as (out & Ea & _ & _ & Hn & _).
  exists out. split; [exact Ea|].
  destruct (history_table_columns rows t out Hs Ea)
    as (Hkeep & _ & _ & Hrsi & _ & _ & _ & _ & _ & _ & _ & _ & _ & Hdr & Hdow & Hctv).
  repeat split; assumption.
Qed.

(** ** The aligned latest row *)

Lemma skipn_last_one {A : Type} (l : list A) (d : A) :
  (0 < List.length l)%nat -> skipn (List.length l - 1) l = [nth (List.length l - 1) l d].
Proof.
  induction l as [|a l IH]; cbn [List.length]; intros H; [lia|].
  destruct l as [|b l]; [reflexivity|].
  cbn [List.length] in *.
  replace (S (S (List.length l)) - 1)%nat with (S (S (List.length l) - 1)) by lia.
  cbn [skipn nth]. apply IH. lia.
Qed.

(** The extraction hands the classifier one row holding the schema's columns,
    in the schema's order, each with the latest value of the feature table. *)
Lemma prep_latest_columns (cfg : Config) (df : DataFrame) (cols : list string)
      (X df_feat : DataFrame) :
  (0 < nrows df)%nat -> wf_frame df_feat ->
  _prep_latest_features cfg df cols = Ok (X, df_feat) ->
  X = mkFrame 1 (map (fun c => (c, [latest_value df_feat c])) cols).
Proof.
  intros Hpos Hwf H.
  destruct (prep_latest_flag cfg df cols X df_feat Hpos H) as (HnX & Hn & _).
  unfold _prep_latest_features in H.
  bind_inv H. rename v into feat. bind_inv H. rename v into feat1.
  bind_inv H. rename v into X0. inversion H; subst X0 feat1; clear H.
  set (L0 := iloc_last_rows df_feat) in *.
  set (L := fold_left fill_missing cols L0) in *.
  assert (Hsel : forall c, In c cols -> has_column L c = true).
  { intros c Hc. unfold has_column, L. rewrite fill_missing_lookup.
    destruct (lookup c (columns L0)); [reflexivity|].
    assert (Hex : existsb (String.eqb c) cols = true).
    { apply existsb_exists. exists c. split; [assumption | apply String.eqb_refl]. }
    now rewrite Hex. }
  destruct (select_ok L cols Hsel) as (cs & Esel & HF).
  rewrite Esel in E1. inversion E1; subst X; clear E1.
  cbn [nrows] in HnX. rewrite HnX. f_equal.
  assert (Hpt : forall c s, In c cols -> lookup c (columns L) = Some s ->
                            s = [latest_value df_feat c]).
  { intros c s Hc Hl. unfold L in Hl. rewrite fill_missing_lookup in Hl.
    unfold latest_value. unfold L0, iloc_last_rows in Hl; cbn [columns nrows] in Hl.
    rewrite lookup_map_snd in Hl.
    destruct (lookup c (columns df_feat)) as [s0|] eqn:Es0; cbn [option_map] in Hl.
    - inversion Hl; subst s.
      pose proof (wf_lookup _ _ _ Hwf Es0) as Hlen. rewrite <- Hlen.
      apply skipn_last_one. lia.
    - destruct (existsb (String.eqb c) _); [|discriminate].
      inversion Hl; subst s. destruct (nrows df_feat); [lia | reflexivity]. }
  clear Esel Hsel HnX. revert HF Hpt. generalize (columns L) as lcols.
  clear L. clear L0. intros lcols HF Hpt.
  induction HF as [|c [c' s] cols' cs' (Hc & Hl) HF IH]; cbn [map]; [reflexivity|].
  cbn [fst snd] in *. subst c'. f_equal.
  - f_equal. apply Hpt; [now left | exact Hl].
  - apply IH. intros c0 s0 Hc0. apply Hpt. now right.
Qed.

(** X2.  For every non-empty history and every schema, the row handed to the
    classifier has exactly the schema's columns, in the schema's order and
    however often the schema repeats them, one value each: the value of the
    feature table's last row, and NaN for a column the feature table does not
    have. *)
Theorem latest_row_follows_schema
        (cfg : Config) (items : list Item) (t : string) (cols : list string) :
  items <> [] ->
  exists df X df_feat,
    _query_ticker_history items t = Ok df /\
    _prep_latest_features cfg df cols = Ok (X, df_feat) /\
    nrows df_feat = List.length items /\
    X = mkFrame 1 (map (fun c => (c, [latest_value df_feat c])) cols) /\
    forall c, has_column df_feat c = false -> latest_value df_feat c = CFloat F64.nan.
Proof.
  intros Hne.
  destruct (query_history items t Hne) as (df & Eq & Hh & Hn & Ht).
  destruct (prep_latest_total cfg df cols Hh Ht) as (X & df_feat & Ep & Hwf & _).
  assert (Hpos : (0 < nrows df)%nat).
  { rewrite Hn. destruct items; [congruence | cbn; lia]. }
  exists df, X, df_feat. split; [exact Eq|]. split; [exact Ep|].
  destruct (prep_latest_flag cfg df cols X df_feat Hpos Ep) as (_ & Hnf & _).
  split; [congruence|]. split; [now apply (prep_latest_columns cfg df)|].
  intros c Hc. unfold has_column in Hc. unfold latest_value.
  destruct (lookup c (columns df_feat)); [discriminate | reflexivity].
Qed.

Lemma latest_row_follows_schema_witness :
  exists df X df_feat,
    _query_ticker_history (rising_bars 3 10) "MSFT" = Ok df /\
    _prep_latest_features small_config df ["close"; "no_such"; "close"]%string
      = Ok (X, df_feat) /\
    nrows df_feat = List.length (rising_bars 3 10) /\
    X = mkFrame 1 (map (fun c => (c, [latest_value df_feat c]))
                       ["close"; "no_such"; "close"]%string) /\
    forall c, has_column df_feat c = false -> latest_value df_feat c = CFloat F64.nan.
Proof.
  apply (latest_row_follows_schema small_config (rising_bars 3 10) "MSFT"%string
                                   ["close"; "no_such"; "close"]%string).
  vm_compute. discriminate.
Defined.

(** ** The one-hot columns *)

Lemma append_eqb (p u v : string) :
  String.eqb (String.append p u) (String.append p v) = String.eqb u v.
Proof.
  induction p as [|a p IH]; cbn [String.append]; [reflexivity|].
  cbn [String.eqb]. now rewrite Ascii.eqb_refl.
Qed.

Lemma onehots_fold_lookup (ts : list string) (df out : DataFrame) (tk : Series)
      (u : string) :
  lookup "ticker" (columns df) = Some tk ->
  fold_left
    (fun acc t =>
       df <- acc ;;
       tk <- get_column df "ticker" ;;
       Ok (set_column df (String.append "ticker_" t) (map (onehot t) tk)))
    ts (Ok df) = Ok out ->
  lookup (String.append "ticker_" u) (columns out) =
  if existsb (String.eqb u) ts then Some (map (onehot u) tk)
  else lookup (String.append "ticker_" u) (columns df).
Proof.
  revert df. induction ts as [|t ts IH]; intros df Htk H; cbn [fold_left] in H.
  - injection H as <-. reflexivity.
  - cbn [bind] in H.
    assert (Hg : get_column df "ticker" = Ok tk) by (unfold get_column; now rewrite Htk).
    rewrite Hg in H. cbn [bind] in H.
    apply IH in H; [|frame_simpl; exact Htk]. rewrite H.
    cbn [existsb]. destruct (existsb (String.eqb u) ts); [now rewrite orb_true_r|].
    rewrite orb_false_r. cbn [columns set_column]. rewrite lookup_assign.
    rewrite append_eqb. destruct (String.eqb u t) eqn:E; [|reflexivity].
    apply String.eqb_eq in E. now subst.
Qed.

Lemma map_onehot_repeat (u t : string) (n : nat) :
  map (onehot u) (repeat (CStr t) n) = repeat (CInt (if String.eqb t u then 1 else 0)) n.
Proof. induction n as [|n IH]; cbn [repeat map onehot]; [reflexivity | now rewrite IH]. Qed.

(** Items already in date order are queried as they stand. *)
Lemma query_sorted_rows (rows : list Item) (t : string) :
  rows <> [] -> StronglySorted by_date rows ->
  _query_ticker_history rows t = Ok (history_table rows t).
Proof.
  intros Hne Hs. unfold _query_ticker_history.
  destruct rows as [|r0 rows]; [congruence|].
  rewrite sort_values_date_sorted with (ds := map it_date (r0 :: rows)).
  - cbn [bind]. unfold history_table, set_scalar, set_column.
    cbn [nrows columns assign String.eqb Ascii.eqb Bool.eqb]. reflexivity.
  - unfold wf_frame, floats. cbn [columns nrows].
    repeat constructor; cbn [snd]; rewrite ?length_map; reflexivity.
  - cbn [columns lookup String.eqb Ascii.eqb Bool.eqb]. now rewrite map_map.
  - now apply by_date_sorted.
Qed.

(** The feature table of a queried history, after the one-hot columns. *)
Lemma prep_on_rows (cfg : Config) (rows : list Item) (t : string) (cols : list string) :
  rows <> [] -> StronglySorted by_date rows ->
  exists out X df_feat,
    add_features_lightweight (history_table rows t) = Ok out /\
    add_ticker_onehots cfg out = Ok df_feat /\
    _prep_latest_features cfg (history_table rows t) cols = Ok (X, df_feat) /\
    nrows df_feat = List.length rows /\
    has_missing X = Ok (existsb (fun c => isna (latest_value df_feat c)) cols) /\
    lookup "ticker" (columns out) = Some (repeat (CStr t) (List.length rows)).
Proof.
  intros Hne Hs.
  destruct (history_table_features rows t Hs) as (out & Ea & Hn & Hkeep & _).
  pose proof (query_sorted_rows rows t Hne Hs) as Hq.
  destruct (query_history rows t Hne) as (df & Eq & Hh & Hnr & Ht).
  rewrite Hq in Eq. injection Eq as <-.
  destruct (prep_latest_total cfg _ cols Hh Ht) as (X & df_feat & Ep & _ & _).
  assert (Hpos : (0 < nrows (history_table rows t))%nat).
  { cbn [history_table nrows]. destruct rows; [congruence | cbn; lia]. }
  destruct (prep_latest_flag cfg _ cols X df_feat Hpos Ep) as (_ & Hnf & Hflag).
  exists out, X, df_feat. split; [exact Ea|].
  pose proof Ep as Ep'. unfold _prep_latest_features in Ep'.
  rewrite Ea in Ep'. cbn [bind] in Ep'. bind_inv Ep'. bind_inv Ep'.
  injection Ep' as _ <-.
  split; [exact E|]. split; [exact Ep|]. split; [exact Hnf|]. split; [exact Hflag|].
  rewrite Hkeep by (cbn; intuition discriminate). reflexivity.
Qed.

(** X3.  In the feature table of a ticker's history, the one-hot column of
    every watchlist symbol is constant: 1 on every row when the symbol is the
    ticker queried, 0 on every row otherwise. *)
Theorem onehot_columns_mark_the_ticker
        (cfg : Config) (items : list Item) (t : string) (cols : list string) :
  items <> [] ->
  exists df X df_feat,
    _query_ticker_history items t = Ok df /\
    _prep_latest_features cfg df cols = Ok (X, df_feat) /\
    forall u, In u (WATCHLIST cfg) ->
              lookup (String.append "ticker_" u) (columns df_feat)
              = Some (repeat (CInt (if String.eqb t u then 1 else 0))
                             (List.length items)).
Proof.
  intros Hne.
  destruct (query_history items t Hne) as (df & Eq & _).
  destruct (query_history_rows items t df Hne Eq) as (rows & Hp & Hs & ->).
  assert (Hr : rows <> []).
  { intros ->. apply Permutation_nil in Hp. congruence. }
  destruct (prep_on_rows cfg rows t cols Hr Hs)
    as (out & X & df_feat & Ea & Eo & Ep & _ & _ & Htk).
  exists (history_table rows t), X, df_feat.
  split; [exact Eq|]. split; [exact Ep|].
  intros u Hu. unfold add_ticker_onehots in Eo.
  rewrite (onehots_fold_lookup _ _ _ _ u Htk Eo).
  assert (Hex : existsb (String.eqb u) (WATCHLIST cfg) = true).
  { apply existsb_exists. exists u. split; [exact Hu | apply String.eqb_refl]. }
  rewrite Hex, map_onehot_repeat. now rewrite (Permutation_length Hp).
Qed.

Lemma onehot_columns_witness :
  exists df X df_feat,
    _query_ticker_history (rising_bars 3 10) "AAPL" = Ok df /\
    _prep_latest_features default_config df sample_schema = Ok (X, df_feat) /\
    forall u, In u (WATCHLIST default_config) ->
              lookup (String.append "ticker_" u) (columns df_feat)
              = Some (repeat (CInt (if String.eqb "AAPL" u then 1 else 0))
                             (List.length (rising_bars 3 10))).
Proof.
  apply (onehot_columns_mark_the_ticker default_config (rising_bars 3 10)
                                        "AAPL"%string sample_schema).
  vm_compute. discriminate.
Defined.

(** ** Bars that lack an attribute *)

Lemma div_nan_l (y : float) : F64.div F64.nan y = F64.nan.
Proof. reflexivity. Qed.

Lemma sub_nan_r (x : float) : F64.sub x F64.nan = F64.nan.
Proof. destruct x; reflexivity. Qed.

Lemma nth_error_nth_dec (rows : list Item) (f : Item -> option float) (i : nat) (it : Item) :
  nth_error rows i = Some it ->
  (i < List.length (map (fun r => dec (f r)) rows))%nat /\
  nth i (map (fun r => dec (f r)) rows) F64.nan = dec (f it).
Proof.
  intros H. rewrite length_map. split; [apply nth_error_Some; congruence|].
  revert i H. induction rows as [|r rows IH]; intros [|i] H; cbn in H; try discriminate.
  - now injection H as ->.
  - cbn [map nth]. now apply IH.
Qed.

(** X4.  A queried history always gets a [close_to_vwap] column and a
    [daily_range] column, and on the row of a bar they are NaN whenever the
    bar lacks an attribute they are computed from: [close_to_vwap] where the
    bar has no vwap or no close, [daily_range] where it has no high, no low
    or no open. *)
Theorem absent_attributes_give_nan_features (items : list Item) (t : string) :
  items <> [] ->
  exists rows df out ctv dr,
    Permutation rows items /\ StronglySorted by_date rows /\
    _query_ticker_history items t = Ok df /\
    add_features_lightweight df = Ok out /\
    lookup "close_to_vwap" (columns out) = Some (floats ctv) /\
    lookup "daily_range" (columns out) = Some (floats dr) /\
    forall i it,
      nth_error rows i = Some it ->
      (it_vwap it = None \/ it_close it = None -> nth i ctv F64.zero = F64.nan) /\
      (it_high it = None \/ it_low it = None \/ it_open it = None ->
       nth i dr F64.zero = F64.nan).
Proof.
  intros Hne.
  destruct (query_history items t Hne) as (df & Eq & _).
  destruct (query_history_rows items t df Hne Eq) as (rows & Hp & Hs & ->).
  destruct (history_table_features rows t Hs)
    as (out & Ea & _ & _ & _ & Hdr & Hctv & _).
  exists rows, (history_table rows t), out.
  eexists; eexists.
  split; [exact Hp|]. split; [exact Hs|]. split; [exact Eq|]. split; [exact Ea|].
  split; [exact Hctv|]. split; [exact Hdr|].
  intros i it Hi.
  destruct (nth_error_nth_dec rows it_vwap i it Hi) as (Lv & Nv).
  destruct (nth_error_nth_dec rows it_close i it Hi) as (Lc & Nc).
  destruct (nth_error_nth_dec rows it_high i it Hi) as (Lh & Nh).
  destruct (nth_error_nth_dec rows it_low i it Hi) as (Ll & Nl).
  destruct (nth_error_nth_dec rows it_open i it Hi) as (Lo & No).
  split.
  - intros H. unfold closes_of.
    rewrite (nth_map2 _ _ _ _ F64.nan F64.nan) by assumption.
    rewrite Nv, Nc. destruct H as [-> | ->]; cbn [dec];
      [apply div_nan_r | apply div_nan_l].
  - intros H.
    rewrite (nth_map2 _ _ _ _ F64.nan F64.nan)
      by (rewrite ?map2_length; try assumption; lia).
    rewrite (nth_map2 _ _ _ _ F64.nan F64.nan) by assumption.
    rewrite Nh, Nl, No. destruct H as [-> | [-> | ->]]; cbn [dec].
    + now rewrite sub_nan_l, div_nan_l.
    + now rewrite sub_nan_r, div_nan_l.
    + apply div_nan_r.
Qed.

Lemma absent_attributes_witness :
  exists rows df out ctv dr,
    Permutation rows [mkItem 2 (Some F64.one) None (Some F64.one) (Some F64.one)
                             (Some F64.one) None;
                      sample_bar 1 4 5 3 4 7] /\
    StronglySorted by_date rows /\
    _query_ticker_history [mkItem 2 (Some F64.one) None (Some F64.one) (Some F64.one)
                                  (Some F64.one) None;
                           sample_bar 1 4 5 3 4 7] "MSFT" = Ok df /\
    add_features_lightweight df = Ok out /\
    lookup "close_to_vwap" (columns out) = Some (floats ctv) /\
    lookup "daily_range" (columns out) = Some (floats dr) /\
    forall i it,
      nth_error rows i = Some it ->
      (it_vwap it = None \/ it_close it = None -> nth i ctv F64.zero = F64.nan) /\
      (it_high it = None \/ it_low it = None \/ it_open it = None ->
       nth i dr F64.zero = F64.nan).
Proof.
  apply (absent_attributes_give_nan_features
           [mkItem 2 (Some F64.one) None (Some F64.one) (Some F64.one)
                   (Some F64.one) None;
            sample_bar 1 4 5 3 4 7] "MSFT"%string).
  discriminate.
Defined.

(** ** Entries of tickers whose latest row is flagged *)

Lemma nth_floats (xs : list float) (i : nat) :
  nth i (floats xs) (CFloat F64.nan) = CFloat (nth i xs F64.nan).
Proof. unfold floats. apply (map_nth CFloat). Qed.

(** The entry of a ticker whose history is long enough and whose aligned
    latest row is flagged: the null entry with the missing-values text, and
    no classifier call. *)
Lemma run_flagged_entry (cfg : Config) (w : World) (model : Model) (cols : list string)
      (i : nat) (t : string) (df X df_feat : DataFrame) :
  let items := store w t (today w - LOOKBACK_DAYS cfg) in
  artifacts w = Ok (model, cols) ->
  nth_error (WATCHLIST cfg) i = Some t ->
  _query_ticker_history items t = Ok df ->
  insufficient cfg df = false ->
  _prep_latest_features cfg df cols = Ok (X, df_feat) ->
  has_missing X = Ok true ->
  (forall preds tr,
      process_ticker cfg model cols items t preds tr
      = (Ok (preds ++ [null_prediction t MISSING_VALUES]), tr ++ [EvFeatures t])) /\
  (forall resp,
      fst (run cfg w) = Ok resp ->
      nth_error (predictions (body resp)) i = Some (null_prediction t MISSING_VALUES)) /\
  (forall X', ~ In (EvPredict t X') (snd (run cfg w))).
Proof.
  intros items Ea Hi Eq Hins Ep Eh. split; [|split].
  - intros preds tr. unfold process_ticker, bindM, lift, retM, emit.
    rewrite Eq, Hins, Ep, Eh. reflexivity.
  - intros resp Er.
    destruct (run_inv cfg w resp Er) as (model' & cols' & Ea' & _ & HF).
    rewrite Ea in Ea'. injection Ea' as <- <-.
    destruct (Forall2_nth_error _ _ _ _ _ HF Hi)
      as (p & Hp & _ & df' & Eq' & _ & Hsuff).
    rewrite Hp. f_equal. fold items in Eq'. rewrite Eq in Eq'. injection Eq' as <-.
    destruct (Hsuff Hins) as (X' & df_feat' & b & Ep' & Eh' & Hb & _).
    rewrite Ep in Ep'. injection Ep' as <- <-.
    apply Hb. congruence.
  - intros X' Hin.
    destruct (run_trace cfg w _ Hin) as (m' & c' & Ea' & _ & df' & Eq' & _ & df_feat' & Ep' & Eh').
    cbn [event_ticker] in *. rewrite Ea in Ea'. injection Ea' as <- <-.
    fold items in Eq'. rewrite Eq in Eq'. injection Eq' as <-.
    rewrite Ep in Ep'. injection Ep' as <- <-.
    rewrite Eh in Eh'. discriminate.
Qed.

Lemma ascending_sorted (items : list Item) :
  ascendingb (map it_date items) = true -> StronglySorted by_date items.
Proof.
  induction items as [|a items IH]; intros H; [constructor|].
  cbn [map] in H. apply ascendingb_cons in H. destruct H as (Hall & Hrest).
  constructor; [now apply IH|].
  rewrite Forall_map in Hall. eapply Forall_impl; [|exact Hall].
  intros b Hb. unfold by_date. cbn in Hb. lia.
Qed.

(** *** Fifteen equal closes *)

Lemma sub_self (c : float) : F64.sub c c = F64.zero \/ F64.sub c c = F64.nan.
Proof.
  destruct c as [[|]|[|]| |s m e]; cbn; auto.
  left. unfold F64.sub, SFsub.
  rewrite Z.min_id, Z.sub_diag. reflexivity.
Qed.

Lemma where_flat (d : float) (n : nat) :
  d = F64.zero \/ d = F64.nan ->
  where_pos (repeat d n) = repeat F64.zero n /\
  where_neg (repeat d n) = repeat F64.zero n.
Proof.
  intros H. unfold where_pos, where_neg.
  induction n as [|n (IH1 & IH2)]; cbn [repeat map]; [split; reflexivity|].
  rewrite IH1, IH2. destruct H as [-> | ->]; split; reflexivity.
Qed.

(** With the last fifteen closes equal there is neither gain nor loss: both
    rolling means are zero, and the RSI of the last row is 0/0. *)
Lemma rsi_14_flat (close : list float) (c : float) :
  (15 <= List.length close)%nat ->
  Forall (fun x => x = c) (trailing 15 close) ->
  last_value (rsi_14 close) = F64.nan.
Proof.
  intros Hn Hc. rewrite rsi_14_last by lia.
  assert (E : trailing 15 close = repeat c 15).
  { pose proof (trailing_length 15 close Hn) as Hl.
    assert (F : Forall (eq c) (trailing 15 close))
      by (eapply Forall_impl; [|exact Hc]; intros; now subst).
    apply Forall_eq_repeat in F. now rewrite Hl in F. }
  assert (G : gaps (repeat c 15) = repeat (F64.sub c c) 14) by reflexivity.
  destruct (where_flat (F64.sub c c) 14 (sub_self c)) as (Wp & Wn).
  destruct (where_length close) as (Hp & Hq).
  rewrite (rolling_mean_constant_last 14 (where_pos (diff close)) F64.zero);
    [|rewrite Hp; lia | reflexivity
     |rewrite trailing_where_pos, trailing_diff, E, G, Wp by assumption;
      apply Forall_forall; intros x Hx; now apply repeat_spec in Hx].
  rewrite (rolling_mean_constant_last 14 (where_neg (diff close)) F64.zero);
    [|rewrite Hq; lia | reflexivity
     |rewrite trailing_where_neg, trailing_diff, E, G, Wn by assumption;
      apply Forall_forall; intros x Hx; now apply repeat_spec in Hx].
  reflexivity.
Qed.

(** X5.  A watchlist ticker whose history, with its dates in ascending order,
    is long enough but whose last fifteen closes are all equal has no RSI on
    its latest row (no gain and no loss: 0/0).  With the artifacts loaded and
    a schema that asks for [rsi_14], the turn of the loop for that ticker
    builds the features and appends the null entry with the text "Missing
    feature values for today."; a response the invocation returns carries
    that entry at the ticker's place; and the classifier is not called for
    the ticker. *)
Theorem flat_closes_get_missing_entry
        (cfg : Config) (w : World) (model : Model) (cols : list string)
        (i : nat) (t : string) (c : float) :
  let items := store w t (today w - LOOKBACK_DAYS cfg) in
  artifacts w = Ok (model, cols) ->
  In "rsi_14"%string cols ->
  nth_error (WATCHLIST cfg) i = Some t ->
  ascendingb (map it_date items) = true ->
  (15 <= List.length items)%nat ->
  MIN_HISTORY_DAYS cfg <= Z.of_nat (List.length items) ->
  Forall (fun x => x = c) (trailing 15 (closes_of items)) ->
  (forall preds tr,
      process_ticker cfg model cols items t preds tr
      = (Ok (preds ++ [mkPrediction t None None "Missing feature values for today."]),
         tr ++ [EvFeatures t])) /\
  (forall resp,
      fst (run cfg w) = Ok resp ->
      nth_error (predictions (body resp)) i =
        Some (mkPrediction t None None "Missing feature values for today.")) /\
  (forall X, ~ In (EvPredict t X) (snd (run cfg w))).
Proof.
  intros items Ea Hrsi Hi Hasc Hlen Hmin Hflat.
  assert (Hne : items <> []) by (intros E; rewrite E in Hlen; cbn in Hlen; lia).
  pose proof (ascending_sorted items Hasc) as Hs.
  pose proof (query_sorted_rows items t Hne Hs) as Eq.
  destruct (prep_on_rows cfg items t cols Hne Hs)
    as (out & X & df_feat & Eo & E1 & Ep & Hn & Hflag & _).
  assert (Hins : insufficient cfg (history_table items t) = false).
  { unfold insufficient, empty, len. cbn [history_table nrows columns List.length].
    apply orb_false_iff. split; [|apply Z.ltb_ge; exact Hmin].
    apply orb_false_iff. split; [|reflexivity].
    apply Nat.eqb_neq. intros E0. apply Hne. now apply length_zero_iff_nil. }
  apply (run_flagged_entry cfg w model cols i t _ X df_feat Ea Hi Eq Hins Ep).
  rewrite Hflag. f_equal. apply existsb_exists.
  exists "rsi_14"%string. split; [exact Hrsi|].
  destruct (history_table_features items t Hs) as (out' & Eo' & _ & _ & Hr & _).
  rewrite Eo in Eo'. injection Eo' as <-.
  unfold latest_value.
  rewrite (add_ticker_onehots_lookup cfg out df_feat "rsi_14" E1 eq_refl), Hr, Hn.
  rewrite nth_floats.
  assert (Hcl : List.length (closes_of items) = List.length items)
    by (unfold closes_of; apply length_map).
  pose proof (rsi_14_flat (closes_of items) c ltac:(lia) Hflat) as Hnan.
  unfold last_value in Hnan. rewrite rsi_14_length, Hcl in Hnan.
  rewrite Hnan. reflexivity.
Qed.

Lemma flat_closes_witness :
  (forall preds tr,
      process_ticker small_config sample_model ["return_1d"; "rsi_14"]%string
                     (store flat_world "MSFT"
                            (today flat_world - LOOKBACK_DAYS small_config))
                     "MSFT" preds tr
      = (Ok (preds ++ [mkPrediction "MSFT" None None "Missing feature values for today."]),
         tr ++ [EvFeatures "MSFT"])) /\
  (forall resp,
      fst (run small_config flat_world) = Ok resp ->
      nth_error (predictions (body resp)) 0 =
        Some (mkPrediction "MSFT" None None "Missing feature values for today.")) /\
  (forall X, ~ In (EvPredict "MSFT" X) (snd (run small_config flat_world))).
Proof.
  apply (flat_closes_get_missing_entry small_config flat_world sample_model
           ["return_1d"; "rsi_14"]%string 0 "MSFT"%string (F64.of_Z 10)).
  - reflexivity.
  - cbn. tauto.
  - reflexivity.
  - vm_compute. reflexivity.
  - cbn. lia.
  - cbn. lia.
  - vm_compute. repeat constructor.
Defined.

(** The sample invocation returns, with that entry. *)
Example flat_closes_sample :
  fst (run small_config flat_world)
  = Ok (mkResponse 200
          [("Content-Type", "application/json");
           ("Access-Control-Allow-Origin", "*")]%string
          (mkBody "2026-02-03T00:00:00Z"
             [mkPrediction "MSFT" None None "Missing feature values for today."])).
Proof. vm_compute. reflexivity. Qed.

(** *** A schema column that no feature table has *)






(** ** The shape of every entry *)

Lemma why_string_shape (model : Model) (cols : list string) (df_feat : DataFrame)
      (wy : string) :
  _why_string model cols df_feat = Ok wy ->
  wy = FALLBACK \/ String.prefix "Driven mainly by " wy = true.
Proof.
  unfold _why_string. intros H.
  destruct (feature_importances_ model) as [imps|]; [|left; congruence].
  destruct (Nat.ltb (len df_feat) 10); [left; congruence|].
  bind_inv H. destruct v as [|s0 scores]; [left; congruence|].
  right. unfold sentence in H.
  destruct (map phrase _) as [|p0 [|p1 ps]]; [discriminate| |];
    injection H as <-; exact (prefix_append "Driven mainly by " _).
Qed.

Lemma process_ticker_shape (cfg : Config) (model : Model) (cols : list string)
      (items : list Item) (t : string) (preds ps : list Prediction) (tr tr' : list event) :
  process_ticker cfg model cols items t preds tr = (Ok ps, tr') ->
  exists p, ps = preds ++ [p] /\ ticker p = t /\ well_formed_prediction model p.
Proof.
  unfold process_ticker, bindM, lift, retM, emit. intros H.
  destruct (_query_ticker_history items t) as [df|e]; [|discriminate].
  destruct (insufficient cfg df).
  { injection H as <- _. eexists. split; [reflexivity|]. split; [reflexivity|].
    left. cbn. auto. }
  destruct (_prep_latest_features cfg df cols) as [[X df_feat]|e]; [|discriminate].
  destruct (has_missing X) as [[|]|e]; [| |discriminate].
  { injection H as <- _. eexists. split; [reflexivity|]. split; [reflexivity|].
    left. cbn. auto. }
  destruct (predict_proba model X) as [prob|e] eqn:Epp; [|discriminate].
  destruct (_why_string model cols df_feat) as [wy|e] eqn:Ew; [|discriminate].
  injection H as <- _. eexists. split; [reflexivity|]. split; [reflexivity|].
  right. exists X, prob. cbn [prob_up pred_up why]. split; [exact Epp|].
  split; [reflexivity|].
  split; [reflexivity|]. now apply (why_string_shape model cols df_feat).
Qed.

Lemma process_watchlist_shape (cfg : Config) (model : Model) (cols : list string)
      (query : string -> list Item) (ts : list string) (preds ps : list Prediction)
      (tr tr' : list event) :
  process_watchlist cfg model cols query ts preds tr = (Ok ps, tr') ->
  exists qs, ps = preds ++ qs /\ map ticker qs = ts /\
             Forall (well_formed_prediction model) qs.
Proof.
  revert preds tr. induction ts as [|t ts IH]; intros preds tr H;
    cbn [process_watchlist] in H.
  - unfold retM in H. injection H as <- _. exists []. rewrite app_nil_r.
    repeat split; constructor.
  - unfold bindM in H.
    destruct (process_ticker cfg model cols (query t) t preds tr) as [[ps1|e] tr1] eqn:E1;
      [|discriminate].
    destruct (process_ticker_shape _ _ _ _ _ _ _ _ _ E1) as (p & -> & Hp & Hw).
    destruct (IH _ _ H) as (qs & -> & Hq & HF).
    exists (p :: qs). rewrite <- app_assoc. split; [reflexivity|].
    cbn [map]. split; [now rewrite Hp, Hq | now constructor].
Qed.

(** X7.  Whatever the schema and the stored histories, a response the
    service returns has status 200 and one entry per watchlist ticker in
    watchlist order, and every entry is of one of two kinds: direction and
    probability both null with one of the two fixed messages, or a
    probability the classifier returned for some row together with the
    direction [probability >= 0.5] and a rationale that is the fallback
    sentence or begins "Driven mainly by ". *)
Theorem returned_entries_are_well_formed (cfg : Config) (w : World) (resp : Response) :
  fst (run cfg w) = Ok resp ->
  exists model cols,
    artifacts w = Ok (model, cols) /\
    statusCode resp = 200 /\
    map ticker (predictions (body resp)) = WATCHLIST cfg /\
    Forall (well_formed_prediction model) (predictions (body resp)).
Proof.
  unfold run, lambda_handler, bindM, lift, retM. intros H.
  destruct (artifacts w) as [[model cols]|e]; [|discriminate].
  match type of H with
  | context [process_watchlist ?c ?m ?cs ?q ?ts ?p ?tr] =>
      destruct (process_watchlist c m cs q ts p tr) as [[ps|e] tr2] eqn:Ew
  end; [|discriminate].
  cbn [fst] in H. injection H as <-.
  destruct (process_watchlist_shape _ _ _ _ _ _ _ _ _ Ew) as (qs & -> & Hq & HF).
  exists model, cols. cbn [statusCode body predictions app]. auto.
Qed.

Lemma returned_entries_witness :
  exists model cols,
    artifacts sample_world = Ok (model, cols) /\
    statusCode sample_response = 200 /\
    map ticker (predictions (body sample_response)) = WATCHLIST default_config /\
    Forall (well_formed_prediction model) (predictions (body sample_response)).
Proof.
  apply (returned_entries_are_well_formed default_config sample_world sample_response).
  vm_compute. reflexivity.
Defined.

(** ** No feature looks ahead *)

Lemma firstn_app_firstn {A : Type} (j m : nat) (a xs : list A) :
  (j <= m)%nat -> firstn j (a ++ firstn m xs) = firstn j (a ++ xs).
Proof.
  intros H. rewrite !firstn_app, firstn_firstn.
  f_equal. f_equal. lia.
Qed.

Lemma series_shift_firstn (k m : nat) (xs : list float) :
  series_shift k (firstn m xs) = firstn m (series_shift k xs).
Proof.
  unfold series_shift. rewrite firstn_firstn, length_firstn.
  apply firstn_app_firstn. lia.
Qed.

Lemma map2_firstn_both {A B C : Type} (f : A -> B -> C) (m : nat)
      (l1 : list A) (l2 : list B) :
  map2 f (firstn m l1) (firstn m l2) = firstn m (map2 f l1 l2).
Proof.
  revert l1 l2. induction m as [|m IH]; intros [|a l1] [|b l2];
    cbn [firstn map2]; auto.
  now rewrite IH.
Qed.

Lemma pct_change_firstn (k m : nat) (xs : list float) :
  pct_change k (firstn m xs) = firstn m (pct_change k xs).
Proof.
  unfold pct_change. now rewrite series_shift_firstn, map2_firstn_both, firstn_map.
Qed.

Lemma diff_firstn (m : nat) (xs : list float) :
  diff (firstn m xs) = firstn m (diff xs).
Proof. unfold diff. now rewrite series_shift_firstn, map2_firstn_both. Qed.

Lemma firstn_seq_min (m a n : nat) : firstn m (seq a n) = seq a (Nat.min m n).
Proof.
  revert a n. induction m as [|m IH]; intros a [|n]; cbn [firstn seq Nat.min]; auto.
  now rewrite IH.
Qed.

Lemma in_firstn {A : Type} (k : nat) (l : list A) (x : A) :
  In x (firstn k l) -> In x l.
Proof.
  revert l. induction k as [|k IH]; intros [|a l]; cbn [firstn In]; try tauto.
  intros [H|H]; auto.
Qed.

Lemma fold_range_ext {S : Type} (f : float -> S -> S) (v1 v2 : list float)
      (a b : nat) (st : S) :
  (forall j, (a <= j < b)%nat -> nth j v1 F64.nan = nth j v2 F64.nan) ->
  fold_range f v1 a b st = fold_range f v2 a b st.
Proof.
  unfold fold_range. intros H.
  assert (G : forall l, (forall j, In j l -> (a <= j < b)%nat) ->
                        forall st0,
                          fold_left (fun st j => f (nth j v1 F64.nan) st) l st0 =
                          fold_left (fun st j => f (nth j v2 F64.nan) st) l st0).
  { induction l as [|j l IH]; intros Hl st0; cbn [fold_left]; [reflexivity|].
    rewrite (H j) by (apply Hl; now left). apply IH. intros j' Hj'. apply Hl. now right. }
  apply G. intros j Hj. apply in_seq in Hj. lia.
Qed.

Lemma nth_firstn_lt {A : Type} (m j : nat) (l : list A) (d : A) :
  (j < m)%nat -> nth j (firstn m l) d = nth j l d.
Proof.
  revert j l. induction m as [|m IH]; intros j [|a l] Hj; cbn [firstn nth]; try lia;
    try reflexivity.
  destruct j; [reflexivity|]. apply IH. lia.
Qed.

Lemma RollMean_row_ext (w : nat) (v1 v2 : list float) (i : nat) (st : RollMean.state) :
  (1 <= w)%nat ->
  (forall j, (j <= i)%nat -> nth j v1 F64.nan = nth j v2 F64.nan) ->
  RollMean.row w v1 i st = RollMean.row w v2 i st.
Proof.
  intros Hw H. unfold RollMean.row, RollMean.setup, window_start, window_end.
  rewrite (H (S i - w)%nat) by lia.
  destruct (Nat.eqb i 0 || Nat.leb (S (i - 1)) (S i - w)).
  - apply fold_range_ext. intros j Hj. apply H. lia.
  - rewrite (fold_range_ext RollMean.remove_mean v1 v2) by (intros j Hj; apply H; lia).
    apply fold_range_ext. intros j Hj. apply H. lia.
Qed.

Lemma RollMean_rows_ext (w : nat) (minp : Z) (v1 v2 : list float) (k i : nat)
      (st : RollMean.state) :
  (1 <= w)%nat ->
  (forall j, (j < i + k)%nat -> nth j v1 F64.nan = nth j v2 F64.nan) ->
  RollMean.rows w minp v1 k i st = RollMean.rows w minp v2 k i st.
Proof.
  intros Hw. revert i st. induction k as [|k IH]; intros i st H; cbn [RollMean.rows];
    [reflexivity|].
  rewrite (RollMean_row_ext w v1 v2 i st Hw) by (intros j Hj; apply H; lia).
  f_equal. apply IH. intros j Hj. apply H. lia.
Qed.

Lemma RollMean_rows_firstn (w : nat) (minp : Z) (values : list float) (m k i : nat)
      (st : RollMean.state) :
  firstn m (RollMean.rows w minp values k i st)
  = RollMean.rows w minp values (Nat.min m k) i st.
Proof.
  revert m i st. induction k as [|k IH]; intros [|m] i st;
    cbn [RollMean.rows firstn Nat.min]; try reflexivity.
  now rewrite IH.
Qed.

Lemma RollMean_rows_start (w : nat) (minp : Z) (values : list float) (k : nat)
      (st st' : RollMean.state) :
  RollMean.rows w minp values k 0 st = RollMean.rows w minp values k 0 st'.
Proof. destruct k; reflexivity. Qed.

Lemma RollVar_row_ext (w : nat) (v1 v2 : list float) (i : nat) (st : RollVar.state) :
  (1 <= w)%nat ->
  (forall j, (j <= i)%nat -> nth j v1 F64.nan = nth j v2 F64.nan) ->
  RollVar.row w v1 i st = RollVar.row w v2 i st.
Proof.
  intros Hw H. unfold RollVar.row, RollVar.setup, window_start, window_end.
  rewrite (H (S i - w)%nat) by lia.
  destruct (Nat.eqb i 0 || Nat.leb (S (i - 1)) (S i - w)).
  - apply fold_range_ext. intros j Hj. apply H. lia.
  - rewrite (fold_range_ext RollVar.remove_var v1 v2) by (intros j Hj; apply H; lia).
    apply fold_range_ext. intros j Hj. apply H. lia.
Qed.

Lemma RollVar_rows_ext (w : nat) (minp ddof : Z) (v1 v2 : list float) (k i : nat)
      (st : RollVar.state) :
  (1 <= w)%nat ->
  (forall j, (j < i + k)%nat -> nth j v1 F64.nan = nth j v2 F64.nan) ->
  RollVar.rows w minp ddof v1 k i st = RollVar.rows w minp ddof v2 k i st.
Proof.
  intros Hw. revert i st. induction k as [|k IH]; intros i st H; cbn [RollVar.rows];
    [reflexivity|].
  rewrite (RollVar_row_ext w v1 v2 i st Hw) by (intros j Hj; apply H; lia).
  f_equal. apply IH. intros j Hj. apply H. lia.
Qed.

Lemma RollVar_rows_firstn (w : nat) (minp ddof : Z) (values : list float) (m k i : nat)
      (st : RollVar.state) :
  firstn m (RollVar.rows w minp ddof values k i st)
  = RollVar.rows w minp ddof values (Nat.min m k) i st.
Proof.
  revert m i st. induction k as [|k IH]; intros [|m] i st;
    cbn [RollVar.rows firstn Nat.min]; try reflexivity.
  now rewrite IH.
Qed.

Lemma RollVar_rows_start (w : nat) (minp ddof : Z) (values : list float) (k : nat)
      (st st' : RollVar.state) :
  RollVar.rows w minp ddof values k 0 st = RollVar.rows w minp ddof values k 0 st'.
Proof. destruct k; reflexivity. Qed.

Lemma roll_mean_firstn (w m : nat) (values : list float) :
  (1 <= w)%nat ->
  RollMean.roll_mean w (firstn m values) = firstn m (RollMean.roll_mean w values).
Proof.
  intros Hw. unfold RollMean.roll_mean. rewrite RollMean_rows_firstn, length_firstn.
  rewrite (RollMean_rows_start w _ values _ _ (RollMean.setup (firstn m values) 0)).
  apply RollMean_rows_ext; [exact Hw|].
  intros j Hj. apply nth_firstn_lt. lia.
Qed.

Lemma roll_var_firstn (w m : nat) (ddof : Z) (values : list float) :
  (1 <= w)%nat ->
  RollVar.roll_var w ddof (firstn m values) = firstn m (RollVar.roll_var w ddof values).
Proof.
  intros Hw. unfold RollVar.roll_var. rewrite RollVar_rows_firstn, length_firstn.
  rewrite (RollVar_rows_start w _ _ values _ _ (RollVar.setup (firstn m values) 0)).
  apply RollVar_rows_ext; [exact Hw|].
  intros j Hj. apply nth_firstn_lt. lia.
Qed.

Lemma rolling_mean_firstn (w m : nat) (xs : list float) :
  (1 <= w)%nat ->
  rolling_mean w (firstn m xs) = firstn m (rolling_mean w xs).
Proof.
  intros Hw. unfold rolling_mean. now rewrite <- firstn_map, roll_mean_firstn.
Qed.

Lemma rolling_std_firstn (w m : nat) (xs : list float) :
  (1 <= w)%nat ->
  rolling_std w (firstn m xs) = firstn m (rolling_std w xs).
Proof.
  intros Hw. unfold rolling_std.
  now rewrite <- firstn_map, roll_var_firstn, firstn_map.
Qed.

Lemma rsi_14_firstn (m : nat) (xs : list float) :
  rsi_14 (firstn m xs) = firstn m (rsi_14 xs).
Proof.
  unfold rsi_14, where_pos, where_neg.
  rewrite diff_firstn, <- !firstn_map, !rolling_mean_firstn by lia.
  rewrite <- !firstn_map.
  rewrite map2_firstn_both, <- firstn_map. reflexivity.
Qed.

Lemma sorted_firstn (k : nat) (rows : list Item) :
  StronglySorted by_date rows -> StronglySorted by_date (firstn k rows).
Proof.
  intros Hs. revert k. induction Hs as [|a l Hs IH Hall]; intros [|k]; cbn [firstn];
    try constructor; [apply IH|].
  rewrite Forall_forall in *. intros x Hx. apply Hall.
  now apply (in_firstn k l).
Qed.

Lemma history_table_lookup_firstn (rows : list Item) (t : string) (k : nat)
      (name : string) (s : Series) :
  (k <= List.length rows)%nat ->
  lookup name (columns (history_table rows t)) = Some s ->
  lookup name (columns (history_table (firstn k rows) t)) = Some (firstn k s).
Proof.
  intros Hk. unfold history_table, floats. cbn [columns lookup].
  rewrite length_firstn, Nat.min_l by exact Hk.
  repeat match goal with
         | |- context [String.eqb name ?n] => destruct (String.eqb name n)
         end;
    intros H; try discriminate; injection H as <-;
    rewrite ?firstn_map; try reflexivity.
  f_equal. revert k Hk. generalize (List.length rows) as n.
  induction n as [|n IH]; intros k Hk.
  - now replace k with 0%nat by lia.
  - destruct k as [|k]; [reflexivity|]. cbn [repeat firstn]. f_equal.
    apply IH. lia.
Qed.

(** X8.  No feature looks ahead.  For a history whose dates are in strictly
    ascending order, the feature table built from its first [k] bars alone
    is, column by column, the first [k] rows of the feature table built from
    the whole history: what a row holds depends on the bars up to its date
    only. *)
Theorem features_never_look_ahead (items : list Item) (t : string) (k : nat) :
  ascendingb (map it_date items) = true ->
  (1 <= k <= List.length items)%nat ->
  exists df df_k out out_k,
    _query_ticker_history items t = Ok df /\
    _query_ticker_history (firstn k items) t = Ok df_k /\
    add_features_lightweight df = Ok out /\
    add_features_lightweight df_k = Ok out_k /\
    nrows out_k = k /\
    forall name s,
      lookup name (columns out) = Some s ->
      lookup name (columns out_k) = Some (firstn k s).
Proof.
  intros Hasc (Hk1 & Hk). pose proof (ascending_sorted items Hasc) as Hs.
  assert (Hne : items <> []) by (intros ->; cbn in Hk; lia).
  assert (Hnk : firstn k items <> []).
  { destruct items as [|a l]; [congruence|]. destruct k; [lia | discriminate]. }
  pose proof (sorted_firstn k items Hs) as Hsk.
  destruct (history_table_features items t Hs) as (out & Ea & _).
  destruct (history_table_features (firstn k items) t Hsk) as (out_k & Eak & Hnk' & _).
  exists (history_table items t), (history_table (firstn k items) t), out, out_k.
  split; [now apply query_sorted_rows|]. split; [now apply query_sorted_rows|].
  split; [exact Ea|]. split; [exact Eak|].
  split; [rewrite Hnk', length_firstn; lia|].
  pose proof (history_table_columns items t out Hs Ea) as H.
  pose proof (history_table_columns (firstn k items) t out_k Hsk Eak) as Hk'.
  cbv zeta in H, Hk'. unfold closes_of in H, Hk'.
  rewrite <- !firstn_map in Hk'.
  destruct H as (Hkeep & H).
  destruct Hk' as (Hkeepk & Hk').
  intros name s Hl.
  destruct (in_dec string_dec name FEATURE_NAMES) as [Hin|Hout].
  - unfold floats in *.
    cbn [FEATURE_NAMES In] in Hin.
    repeat match type of Hin with
           | _ \/ _ => destruct Hin as [<- | Hin]
           end; try contradiction;
      repeat match goal with
             | Hx : _ /\ _ |- _ => destruct Hx
             end;
      match goal with
      | Hx : lookup ?n (columns out) = Some _,
        Hy : lookup ?n (columns out_k) = Some _,
        Hz : lookup ?n (columns out) = Some s |- lookup ?n _ = _ =>
          rewrite Hx in Hz; injection Hz as <-; rewrite Hy
      end;
      rewrite ?pct_change_firstn, ?rsi_14_firstn;
      rewrite ?rolling_mean_firstn, ?rolling_std_firstn by lia;
      rewrite ?map2_firstn_both, ?map2_firstn_both, ?firstn_map;
      reflexivity.
  - rewrite (Hkeepk name Hout). rewrite (Hkeep name Hout) in Hl.
    now apply history_table_lookup_firstn.
Qed.

Lemma features_never_look_ahead_witness :
  exists df df_k out out_k,
    _query_ticker_history (rising_bars 8 10) "MSFT" = Ok df /\
    _query_ticker_history (firstn 6 (rising_bars 8 10)) "MSFT" = Ok df_k /\
    add_features_lightweight df = Ok out /\
    add_features_lightweight df_k = Ok out_k /\
    nrows out_k = 6%nat /\
    forall name s,
      lookup name (columns out) = Some s ->
      lookup name (columns out_k) = Some (firstn 6 s).
Proof.
  apply (features_never_look_ahead (rising_bars 8 10) "MSFT"%string 6).
  - vm_compute. reflexivity.
  - cbn. lia.
Defined.

(** ** The order of the recorded steps *)

Lemma process_ticker_segment (cfg : Config) (model : Model) (cols : list string)
      (items : list Item) (t : string) (preds : list Prediction)
      (tr tr' : list event) (r : result (list Prediction)) :
  process_ticker cfg model cols items t preds tr = (r, tr') ->
  exists seg, tr' = tr ++ seg /\ ticker_steps t seg.
Proof.
  unfold process_ticker, bindM, lift, retM, emit, ticker_steps. intros H.
  destruct (_query_ticker_history items t) as [df|e];
    [|injection H as _ <-; exists []; rewrite app_nil_r; auto].
  destruct (insufficient cfg df);
    [injection H as _ <-; exists []; rewrite app_nil_r; auto|].
  destruct (_prep_latest_features cfg df cols) as [[X df_feat]|e];
    [|injection H as _ <-; exists [EvFeatures t]; auto].
  destruct (has_missing X) as [[|]|e];
    [injection H as _ <-; exists [EvFeatures t]; auto| |
     injection H as _ <-; exists [EvFeatures t]; auto].
  exists [EvFeatures t; EvPredict t X].
  destruct (predict_proba model X);
    [|injection H as _ <-; rewrite <- app_assoc; split; eauto].
  destruct (_why_string model cols df_feat); injection H as _ <-;
    rewrite <- app_assoc; split; eauto.
Qed.

Lemma process_watchlist_segments (cfg : Config) (model : Model) (cols : list string)
      (query : string -> list Item) (ts : list string) (preds : list Prediction)
      (tr tr' : list event) (r : result (list Prediction)) :
  process_watchlist cfg model cols query ts preds tr = (r, tr') ->
  exists segs,
    tr' = tr ++ List.concat segs /\
    Forall2 ticker_steps (firstn (List.length segs) ts) segs /\
    (List.length segs <= List.length ts)%nat /\
    (is_ok r = true -> List.length segs = List.length ts).
Proof.
  revert preds tr tr' r. induction ts as [|t ts IH]; intros preds tr tr' r H;
    cbn [process_watchlist] in H.
  - unfold retM in H. injection H as <- <-. exists []. cbn. rewrite app_nil_r.
    repeat split; auto.
  - unfold bindM in H.
    destruct (process_ticker cfg model cols (query t) t preds tr) as [r1 tr1] eqn:E1.
    destruct (process_ticker_segment _ _ _ _ _ _ _ _ _ E1) as (seg & -> & Hseg).
    destruct r1 as [preds1|e].
    + destruct (IH _ _ _ _ H) as (segs & -> & HF & Hle & Hok).
      exists (seg :: segs). cbn [List.concat List.length firstn].
      split; [now rewrite app_assoc|]. split; [now constructor|].
      split; [lia|]. intros Hr. now rewrite Hok.
    + injection H as <- <-. exists [seg]. cbn [List.concat List.length firstn].
      rewrite app_nil_r. split; [reflexivity|].
      split; [constructor; [exact Hseg | constructor]|].
      split; [lia | discriminate].
Qed.

(** X21.  The handler works through the watchlist once, in order: the steps
    it records are, ticker after ticker in watchlist order, the feature build
    of the ticker followed by at most one classifier call for it, or nothing;
    no classifier call comes without the feature build just before it, no
    ticker is visited twice, and a run that completes has visited every
    ticker. *)
Theorem steps_follow_the_watchlist (cfg : Config) (w : World) :
  exists segs,
    snd (run cfg w) = List.concat segs /\
    Forall2 ticker_steps (firstn (List.length segs) (WATCHLIST cfg)) segs /\
    (List.length segs <= List.length (WATCHLIST cfg))%nat /\
    (is_ok (fst (run cfg w)) = true -> List.length segs = List.length (WATCHLIST cfg)).
Proof.
  unfold run, lambda_handler, bindM, lift, retM.
  destruct (artifacts w) as [[model cols]|e].
  - match goal with
    | |- context [process_watchlist ?c ?m ?cs ?q ?ts ?p ?tr] =>
        destruct (process_watchlist c m cs q ts p tr) as [r tr2] eqn:Ew
    end.
    destruct (process_watchlist_segments _ _ _ _ _ _ _ _ _ Ew)
      as (segs & -> & HF & Hle & Hok).
    exists segs. cbn [app].
    destruct r as [preds|e]; cbn [fst snd is_ok] in *; repeat split; auto.
  - exists []. cbn. repeat split; auto; try lia; discriminate.
Qed.

(** ** Sorting twice *)

Lemma mapM_date_of_take_rows (s : Series) (keys : list Z) (perm : list nat) :
  mapM date_of s = Ok keys ->
  (forall i, In i perm -> (i < List.length keys)%nat) ->
  take_rows perm s = map CDate (map (fun i => nth i keys 0) perm).
Proof.
  intros H Hr. rewrite (mapM_date_of_inv _ _ H).
  apply (take_rows_map CDate 0 keys perm Hr).
Qed.

(** X22.  Sorting by date is idempotent: a well-formed frame of distinct
    dates that has been sorted by date is left exactly as it is by a second
    sort, so the sort at the head of the feature builder does not disturb
    what the history query has put in order. *)
Theorem sort_values_date_idempotent (df sorted : DataFrame) (ds : list Z) :
  wf_frame df ->
  lookup "date" (columns df) = Some (map CDate ds) ->
  NoDup ds ->
  sort_values_date df = Ok sorted ->
  sort_values_date sorted = Ok sorted.
Proof.
  intros Hwf Hdates Hdistinct H.
  destruct (sort_values_date_inv _ _ H) as (s & keys & Hl & Hk & ->).
  set (perm := sort_perm keys).
  assert (Hlen : List.length keys = nrows df).
  { rewrite (mapM_length _ _ _ Hk). now apply (wf_lookup df "date"). }
  apply (sort_values_date_sorted _ (map (fun i => nth i keys 0) perm)).
  - unfold wf_frame in *. cbn [columns nrows]. rewrite Forall_map.
    eapply Forall_impl; [|exact Hwf]. intros c Hc. cbn [snd].
    rewrite take_rows_length. unfold perm. rewrite sort_perm_length. exact Hlen.
  - cbn [columns]. rewrite lookup_map_snd, Hl. cbn [option_map]. f_equal.
    apply mapM_date_of_take_rows; [exact Hk|].
    intros i Hi. now apply sort_perm_range.
  - apply sort_perm_sorted.
Qed.

Lemma sort_values_date_idempotent_witness :
  sort_values_date
    (history_table [sample_bar 1 4 5 3 4 7; sample_bar 2 6 8 5 7 8; sample_bar 3 1 2 1 2 9]
                   "MSFT")
  = Ok (history_table [sample_bar 1 4 5 3 4 7; sample_bar 2 6 8 5 7 8;
                       sample_bar 3 1 2 1 2 9] "MSFT").
Proof.
  apply (sort_values_date_idempotent
           (history_table [sample_bar 3 1 2 1 2 9; sample_bar 1 4 5 3 4 7;
                           sample_bar 2 6 8 5 7 8] "MSFT") _ [3; 1; 2]).
  - apply wf_history_table.
  - reflexivity.
  - repeat constructor; cbn; intuition discriminate.
  - vm_compute. reflexivity.
Defined.
(** * Training and serving build the same features *)

(** ** Changing the sign of a rounded result *)

Lemma binary_round_aux_opp (s : bool) (m e : Z) (l : location) :
  binary_round_aux F64.prec F64.emax (negb s) m e l
  = SFopp (binary_round_aux F64.prec F64.emax s m e l).
Proof.
  unfold binary_round_aux.
  destruct (shr_fexp F64.prec F64.emax m e l) as [mrs' e'].
  destruct (shr_fexp F64.prec F64.emax _ e' loc_Exact) as [mrs'' e''].
  destruct (shr_m mrs''); [reflexivity| |reflexivity].
  destruct (e'' <=? F64.emax - F64.prec); reflexivity.
Qed.

Lemma binary_round_opp (s : bool) (m : positive) (e : Z) :
  binary_round F64.prec F64.emax (negb s) m e
  = SFopp (binary_round F64.prec F64.emax s m e).
Proof.
  unfold binary_round.
  destruct (shl_align m e _) as [mz ez]. apply binary_round_aux_opp.
Qed.

Lemma div_opp_l (x y : float) : F64.div (F64.opp x) y = F64.opp (F64.div x y).
Proof.
  destruct x as [sx|sx| |sx mx ex], y as [sy|sy| |sy my ey];
    cbn; try reflexivity; try (now destruct sx, sy).
  unfold F64.div, SFdiv. cbn [F64.opp SFopp].
  destruct (SFdiv_core_binary _ _ _ _ _ _) as [[mz ez] lz].
  replace (xorb (negb sx) sy) with (negb (xorb sx sy)) by (now destruct sx, sy).
  apply binary_round_aux_opp.
Qed.

(** ** Mirrored values through the arithmetic of the rolling mean *)

Lemma mirror_opp_r (a : float) : mirror a (F64.opp a).
Proof. destruct a; cbn; auto. Qed.

Lemma mirror_opp (a b : float) : mirror a b -> mirror (F64.opp a) (F64.opp b).
Proof.
  destruct a as [sa|sa| |sa ma ea], b as [sb|sb| |sb mb eb]; cbn; intros H;
    try exact I; try discriminate H; try (inversion H; subst; reflexivity).
Qed.

Lemma binary_normalize_opp (m e : Z) :
  mirror (binary_normalize F64.prec F64.emax m e false)
         (binary_normalize F64.prec F64.emax (- m) e false).
Proof.
  destruct m as [|p|p]; cbn [Z.opp binary_normalize].
  - exact I.
  - pose proof (binary_round_opp false p e) as Ho. cbn [negb] in Ho. rewrite Ho.
    apply mirror_opp_r.
  - pose proof (binary_round_opp false p e) as Ho. cbn [negb] in Ho. rewrite Ho.
    destruct (binary_round F64.prec F64.emax false p e); cbn; auto;
      now rewrite negb_involutive.
Qed.

Lemma cond_Zopp_negb (s : bool) (z : Z) : cond_Zopp (negb s) z = - cond_Zopp s z.
Proof. destruct s; cbn; lia. Qed.

Lemma add_opp (a b : float) :
  mirror (F64.add a b) (F64.add (F64.opp a) (F64.opp b)).
Proof.
  destruct a as [sa|sa| |sa ma ea], b as [sb|sb| |sb mb eb];
    try (destruct sa, sb; cbn; auto; fail);
    try (destruct sa; cbn; auto; fail);
    try (destruct sb; cbn; auto; fail);
    try (cbn; auto; fail).
  unfold F64.add, F64.opp, SFadd, SFopp.
  rewrite !cond_Zopp_negb, <- Z.opp_add_distr.
  apply binary_normalize_opp.
Qed.

Lemma add_zero_l (s : bool) (b : float) :
  match b with S754_zero _ => False | _ => True end ->
  F64.add (S754_zero s) b = b.
Proof. destruct b; intros H; try contradiction; reflexivity. Qed.

Lemma add_zero_r (s : bool) (a : float) :
  match a with S754_zero _ => False | _ => True end ->
  F64.add a (S754_zero s) = a.
Proof. destruct a; intros H; try contradiction; reflexivity. Qed.

Lemma add_zeros (s1 s2 : bool) : exists s, F64.add (S754_zero s1) (S754_zero s2) = S754_zero s.
Proof. destruct s1, s2; cbn; eauto. Qed.

Lemma add_mirror (a a' b b' : float) :
  mirror a a' -> mirror b b' -> mirror (F64.add a b) (F64.add a' b').
Proof.
  intros Ha Hb.
  destruct a as [sa|sa| |sa ma ea]; destruct a' as [sa'|sa'| |sa' ma' ea'];
    cbn in Ha; try discriminate Ha;
    destruct b as [sb|sb| |sb mb eb]; destruct b' as [sb'|sb'| |sb' mb' eb'];
    cbn in Hb; try discriminate Hb;
    try (destruct (add_zeros sa sb) as (s1 & ->); destruct (add_zeros sa' sb') as (s2 & ->);
         exact I);
    try (cbn; reflexivity);
    try (rewrite !add_zero_l by exact I; rewrite Hb; apply mirror_opp_r);
    try (rewrite !add_zero_r by exact I; rewrite Ha; apply mirror_opp_r);
    try (rewrite Ha, Hb; apply add_opp).
Qed.

Lemma sub_add_opp (a b : float) : F64.sub a b = F64.add a (F64.opp b).
Proof.
  destruct a as [sa|sa| |sa ma ea], b as [sb|sb| |sb mb eb];
    try (destruct sa, sb; reflexivity); reflexivity.
Qed.

Lemma sub_mirror (a a' b b' : float) :
  mirror a a' -> mirror b b' -> mirror (F64.sub a b) (F64.sub a' b').
Proof.
  intros Ha Hb. rewrite !sub_add_opp. apply add_mirror; [exact Ha|].
  now apply mirror_opp.
Qed.

Lemma div_mirror (a a' n : float) :
  mirror a a' -> mirror (F64.div a n) (F64.div a' n).
Proof.
  intros Ha.
  destruct a as [sa|sa| |sa ma ea]; destruct a' as [sa'|sa'| |sa' ma' ea'];
    cbn in Ha; try discriminate Ha;
    try (destruct n; cbn; auto; fail);
    try (rewrite Ha; change (S754_infinity (negb sa)) with (F64.opp (S754_infinity sa));
         rewrite div_opp_l; apply mirror_opp_r);
    try (rewrite Ha;
         change (S754_finite (negb sa) ma ea) with (F64.opp (S754_finite sa ma ea));
         rewrite div_opp_l; apply mirror_opp_r).
Qed.

Lemma ltb_mirror (a a' : float) :
  mirror a a' ->
  F64.ltb a' F64.zero = F64.ltb F64.zero a /\ F64.ltb F64.zero a' = F64.ltb a F64.zero.
Proof.
  destruct a as [sa|sa| |sa ma ea]; destruct a' as [sa'|sa'| |sa' ma' ea'];
    cbn; intros Ha; try discriminate Ha;
    try (inversion Ha; subst; destruct sa; split; reflexivity);
    try (split; reflexivity).
Qed.

Lemma compare_opp (a b : float) :
  SFcompare (F64.opp a) (F64.opp b) = option_map CompOpp (SFcompare a b).
Proof.
  destruct a as [sa|sa| |sa ma ea], b as [sb|sb| |sb mb eb]; cbn;
    try reflexivity; try (destruct sa; reflexivity); try (destruct sb; reflexivity);
    try (destruct sa, sb; reflexivity).
  destruct sa, sb; cbn; try reflexivity;
    destruct (ea ?= eb); cbn; rewrite ?CompOpp_involutive; reflexivity.
Qed.

Lemma eqb_opp (a b : float) : F64.eqb (F64.opp a) (F64.opp b) = F64.eqb a b.
Proof.
  unfold F64.eqb, SFeqb. rewrite compare_opp.
  destruct (SFcompare a b) as [[| |]|]; reflexivity.
Qed.

Lemma is_nan_opp (x : float) : F64.is_nan (F64.opp x) = F64.is_nan x.
Proof. destruct x; reflexivity. Qed.

Lemma signbit_opp (x : float) :
  F64.is_nan x = false -> F64.signbit (F64.opp x) = negb (F64.signbit x).
Proof. destruct x; intros H; try discriminate H; reflexivity. Qed.

Lemma opp_involutive (x : float) : F64.opp (F64.opp x) = x.
Proof. destruct x; cbn; try reflexivity; now rewrite negb_involutive. Qed.

(** ** The two rolling means, state by state *)

Lemma add_mean_mirror (val : float) (st st' : RollMean.state) :
  mirror_states st st' ->
  mirror_states (RollMean.add_mean val st) (RollMean.add_mean (F64.opp val) st').
Proof.
  intros (Hn & Hs & Hg & Ha & Hr & Hc & Hp).
  unfold RollMean.add_mean. rewrite is_nan_opp.
  destruct (F64.is_nan val) eqn:En; [repeat split; assumption|].
  unfold mirror_states. cbn.
  assert (Hy : mirror (F64.sub val (RollMean.compensation_add st))
                      (F64.sub (F64.opp val) (RollMean.compensation_add st')))
    by (apply sub_mirror; [apply mirror_opp_r | exact Ha]).
  assert (Ht : mirror (F64.add (RollMean.sum_x st)
                               (F64.sub val (RollMean.compensation_add st)))
                      (F64.add (RollMean.sum_x st')
                               (F64.sub (F64.opp val) (RollMean.compensation_add st'))))
    by (apply add_mirror; assumption).
  split; [lia|]. split; [exact Ht|].
  split; [rewrite (signbit_opp val En); destruct (F64.signbit val); cbn; lia|].
  split; [apply sub_mirror; [apply sub_mirror|]; assumption|].
  split; [exact Hr|].
  split; [rewrite Hp, eqb_opp, Hc; reflexivity | reflexivity].
Qed.

Lemma remove_mean_mirror (val : float) (st st' : RollMean.state) :
  mirror_states st st' ->
  mirror_states (RollMean.remove_mean val st) (RollMean.remove_mean (F64.opp val) st').
Proof.
  intros (Hn & Hs & Hg & Ha & Hr & Hc & Hp).
  unfold RollMean.remove_mean. rewrite is_nan_opp.
  destruct (F64.is_nan val) eqn:En; [repeat split; assumption|].
  unfold mirror_states. cbn.
  assert (Hy : mirror (F64.sub (F64.opp val) (RollMean.compensation_remove st))
                      (F64.sub (F64.opp (F64.opp val)) (RollMean.compensation_remove st')))
    by (apply sub_mirror; [apply mirror_opp_r | exact Hr]).
  assert (Ht : mirror (F64.add (RollMean.sum_x st)
                               (F64.sub (F64.opp val) (RollMean.compensation_remove st)))
                      (F64.add (RollMean.sum_x st')
                               (F64.sub (F64.opp (F64.opp val))
                                        (RollMean.compensation_remove st'))))
    by (apply add_mirror; assumption).
  split; [lia|]. split; [exact Ht|].
  split; [rewrite (signbit_opp val En); destruct (F64.signbit val); cbn; lia|].
  split; [exact Ha|].
  split; [apply sub_mirror; [apply sub_mirror|]; assumption|].
  split; assumption.
Qed.

Lemma nth_map_opp (j : nat) (v : list float) :
  nth j (map F64.opp v) F64.nan = F64.opp (nth j v F64.nan).
Proof. exact (map_nth F64.opp v F64.nan j). Qed.

Lemma fold_range_mirror (f : float -> RollMean.state -> RollMean.state)
      (v : list float) (a b : nat) (st st' : RollMean.state) :
  (forall val s s', mirror_states s s' -> mirror_states (f val s) (f (F64.opp val) s')) ->
  mirror_states st st' ->
  mirror_states (fold_range f v a b st) (fold_range f (map F64.opp v) a b st').
Proof.
  intros Hf. unfold fold_range. generalize (seq a (b - a)) as l.
  intros l. revert st st'. induction l as [|j l IH]; intros st st' H; cbn [fold_left];
    [exact H|].
  apply IH. rewrite nth_map_opp. now apply Hf.
Qed.

Lemma setup_mirror (v : list float) (s : nat) :
  mirror_states (RollMean.setup v s) (RollMean.setup (map F64.opp v) s).
Proof.
  unfold mirror_states, RollMean.setup. cbn. rewrite nth_map_opp.
  repeat split; reflexivity || exact I.
Qed.

Lemma row_mirror (w : nat) (v : list float) (i : nat) (st st' : RollMean.state) :
  mirror_states st st' ->
  mirror_states (RollMean.row w v i st) (RollMean.row w (map F64.opp v) i st').
Proof.
  intros H. unfold RollMean.row.
  destruct (Nat.eqb i 0 || Nat.leb (window_end (i - 1)) (window_start w i)).
  - apply fold_range_mirror; [exact add_mean_mirror | apply setup_mirror].
  - apply fold_range_mirror; [exact add_mean_mirror|].
    apply fold_range_mirror; [exact remove_mean_mirror | exact H].
Qed.

Lemma calc_mean_mirror (minp : Z) (st st' : RollMean.state) :
  mirror_states st st' ->
  mirror (RollMean.calc_mean minp st) (RollMean.calc_mean minp st').
Proof.
  intros (Hn & Hs & Hg & Ha & Hr & Hc & Hp).
  unfold RollMean.calc_mean. rewrite Hn, Hc.
  destruct ((minp <=? RollMean.nobs st) && (0 <? RollMean.nobs st)); [|reflexivity].
  destruct (RollMean.nobs st <=? RollMean.num_consecutive_same_value st).
  { rewrite Hp. apply mirror_opp_r. }
  pose proof (div_mirror _ _ (F64.of_Z (RollMean.nobs st)) Hs) as Hd.
  destruct (ltb_mirror _ _ Hd) as (H1 & H2). rewrite H1, H2, Hg.
  destruct (Z.eqb_spec (RollMean.neg_ct st) 0) as [E0|E0];
    destruct (Z.eqb_spec (RollMean.neg_ct st) (RollMean.nobs st)) as [E1|E1];
    destruct (Z.eqb_spec (RollMean.nobs st - RollMean.neg_ct st) 0) as [E2|E2];
    destruct (Z.eqb_spec (RollMean.nobs st - RollMean.neg_ct st) (RollMean.nobs st))
      as [E3|E3]; try lia; cbn [andb];
    repeat match goal with
           | |- context [if F64.ltb ?x ?y then _ else _] => destruct (F64.ltb x y)
           end;
    try exact I; try exact Hd.
Qed.

Lemma rows_mirror (w : nat) (minp : Z) (v : list float) (k i : nat)
      (st st' : RollMean.state) :
  mirror_states st st' ->
  Forall2 mirror (RollMean.rows w minp v k i st)
                 (RollMean.rows w minp (map F64.opp v) k i st').
Proof.
  revert i st st'. induction k as [|k IH]; intros i st st' H; cbn [RollMean.rows];
    [constructor|].
  pose proof (row_mirror w v i st st' H) as Hrow.
  constructor; [now apply calc_mean_mirror | now apply IH].
Qed.

Lemma inf_to_nan_opp (x : float) : inf_to_nan (F64.opp x) = F64.opp (inf_to_nan x).
Proof. destruct x; reflexivity. Qed.

(** The rolling mean of the negated values mirrors the rolling mean of the
    values, row by row. *)
Lemma rolling_mean_mirror (w : nat) (xs : list float) :
  Forall2 mirror (rolling_mean w xs) (rolling_mean w (map F64.opp xs)).
Proof.
  unfold rolling_mean, RollMean.roll_mean.
  rewrite !length_map, (map_map F64.opp inf_to_nan).
  rewrite (map_ext (fun x => inf_to_nan (F64.opp x))
                   (fun x => F64.opp (inf_to_nan x)) inf_to_nan_opp).
  rewrite <- (map_map inf_to_nan F64.opp).
  apply rows_mirror. apply setup_mirror.
Qed.

Lemma rsi_of_zero_divisors (g : float) (s1 s2 : bool) :
  rsi_of_rs (F64.div g (S754_zero s1)) = rsi_of_rs (F64.div g (S754_zero s2)).
Proof. destruct g as [sg|sg| |sg mg eg]; try destruct sg; destruct s1, s2; reflexivity. Qed.

(** The RSI from the mean of the negated losses, beside the RSI from the
    negated mean of the losses. *)
Lemma rsi_of_mirror (g m m' : float) :
  mirror m m' ->
  rsi_of_rs (F64.div g m') = rsi_of_rs (F64.div g (F64.opp m)).
Proof.
  destruct m as [s|s| |s mm em]; destruct m' as [s'|s'| |s' mm' em'];
    cbn [mirror]; intros H; try discriminate H; try (now rewrite H).
  cbn [F64.opp SFopp]. apply rsi_of_zero_divisors.
Qed.

(** ** The RSI of the training script is the RSI of the service *)

Lemma rsi_rows_mirror (gain l l' : list float) :
  Forall2 mirror l l' ->
  map rsi_of_rs (map2 F64.div gain l') = map rsi_of_rs (map2 F64.div gain (map F64.opp l)).
Proof.
  intros H. revert gain. induction H as [|m m' l l' Hm _ IH]; intros [|g gain];
    cbn [map map2]; try reflexivity.
  now rewrite (rsi_of_mirror g m m' Hm), IH.
Qed.

Lemma train_rsi_14_eq (close : list float) : Train.rsi_14 close = rsi_14 close.
Proof.
  unfold Train.rsi_14, rsi_14. cbv zeta.
  apply rsi_rows_mirror. apply rolling_mean_mirror.
Qed.

Lemma has_column_sorted (df sorted : DataFrame) (n : string) :
  sort_values_date df = Ok sorted -> has_column sorted n = has_column df n.
Proof.
  intros H. destruct (sort_values_date_inv _ _ H) as (s & keys & _ & _ & ->).
  unfold has_column. cbn [columns]. rewrite lookup_map_snd.
  now destruct (lookup n (columns df)).
Qed.

(** X9.  On every frame that has a high, a low and a vwap column, the feature
    builder of the training script and the feature builder of the service
    give the same result: the same feature table, value for value, or the
    same exception.  The two RSI formulas differ in where the losses are
    negated; the rolling mean of the negated losses being, row by row, the
    negated rolling mean of the losses or a zero beside a zero, that can only
    change the sign of a zero mean loss, and the RSI does not depend on that
    sign. *)
Theorem training_and_serving_features_agree (df : DataFrame) :
  has_column df "high" = true ->
  has_column df "low" = true ->
  has_column df "vwap" = true ->
  Train.add_features df = add_features_lightweight df.
Proof.
  intros Hh Hl Hv. unfold Train.add_features, add_features_lightweight.
  destruct (sort_values_date df) as [sorted|e] eqn:Es; [|reflexivity].
  cbn [bind].
  rewrite <- (has_column_sorted df sorted _ Es) in Hh.
  rewrite <- (has_column_sorted df sorted _ Es) in Hl.
  rewrite <- (has_column_sorted df sorted _ Es) in Hv.
  destruct (float_column sorted "close") as [close|e]; [|reflexivity].
  cbn [bind].
  match goal with
  | |- context [float_column ?d "volume"] =>
      destruct (float_column d "volume") as [volume|e]; [|reflexivity]
  end.
  cbn [bind]. rewrite train_rsi_14_eq.
  match goal with
  | |- context [has_column ?d "high" && has_column ?d "low"] =>
      assert (E1 : has_column d "high" = true)
        by (unfold has_column in *; frame_simpl; exact Hh);
      assert (E2 : has_column d "low" = true)
        by (unfold has_column in *; frame_simpl; exact Hl);
      rewrite E1, E2; cbn [andb];
      destruct (float_column d "high") as [high|e]; [|reflexivity]; cbn [bind];
      destruct (float_column d "low") as [low|e]; [|reflexivity]; cbn [bind];
      destruct (float_column d "open") as [open|e]; [|reflexivity]; cbn [bind]
  end.
  match goal with
  | |- context [has_column ?d "vwap"] =>
      assert (E3 : has_column d "vwap" = true)
        by (unfold has_column in *; frame_simpl; exact Hv);
      rewrite E3
  end.
  reflexivity.
Qed.

Lemma training_and_serving_witness :
  Train.add_features (history_table zigzag_bars "MSFT")
  = add_features_lightweight (history_table zigzag_bars "MSFT").
Proof.
  apply (training_and_serving_features_agree (history_table zigzag_bars "MSFT"));
    reflexivity.
Defined.

(** ** The training labels *)

Lemma nth_shift_back (xs : list float) (i : nat) :
  nth i (Train.shift_back xs) F64.nan = nth (S i) xs F64.nan.
Proof.
  destruct xs as [|x xs]; cbn [Train.shift_back nth]; [now destruct i|].
  destruct (Nat.lt_ge_cases i (List.length xs)) as [Hlt|Hge].
  - now apply app_nth1.
  - rewrite app_nth2 by exact Hge. rewrite (nth_overflow xs) by exact Hge.
    destruct (i - List.length xs)%nat as [|[|k]]; reflexivity.
Qed.

Lemma shift_back_length (xs : list float) :
  List.length (Train.shift_back xs) = List.length xs.
Proof.
  destruct xs as [|x xs]; cbn [Train.shift_back List.length]; [reflexivity|].
  rewrite length_app. cbn. lia.
Qed.

Lemma map_map2 {A B C D : Type} (g : C -> D) (f : A -> B -> C)
      (l1 : list A) (l2 : list B) :
  map g (map2 f l1 l2) = map2 (fun a b => g (f a b)) l1 l2.
Proof.
  revert l2. induction l1 as [|a l1 IH]; intros [|b l2]; cbn [map2 map]; auto.
  now rewrite IH.
Qed.

Lemma ltb_nan_r (x : float) : F64.ltb x F64.nan = false.
Proof. destruct x; reflexivity. Qed.

(** X10.  The labelling of the training script: on a frame with a numeric
    close column it adds a label for every row, 1 exactly when the close of
    the next row is greater (by the float comparison) and 0 otherwise; the
    last row, which has no next row, is labelled 0, and no label is
    missing. *)
Theorem training_labels (df : DataFrame) (close : list float) :
  float_column df "close" = Ok close ->
  exists out labels,
    Train.add_target df = Ok out /\
    lookup "target" (columns out) = Some (map CInt labels) /\
    List.length labels = List.length close /\
    (forall i, (i < List.length close)%nat ->
               nth i labels 0 =
               if F64.ltb (nth i close F64.nan) (nth (S i) close F64.nan)
               then 1 else 0) /\
    nth (List.length close - 1) labels 0 = 0 /\
    Forall (fun c => isna c = false) (map CInt labels).
Proof.
  intros Hc. unfold Train.add_target. rewrite Hc. cbn [bind].
  assert (Ht : float_column (set_column df "tomorrow_close"
                               (floats (Train.shift_back close))) "tomorrow_close"
               = Ok (Train.shift_back close)).
  { unfold float_column, get_column. frame_simpl. cbn [bind].
    apply mapM_to_float_floats. }
  assert (Hc' : float_column (set_column df "tomorrow_close"
                                (floats (Train.shift_back close))) "close"
                = Ok close).
  { unfold float_column, get_column in *. frame_simpl. exact Hc. }
  rewrite Ht. cbn [bind]. rewrite Hc'. cbn [bind].
  set (labels := map2 (fun t c => if F64.ltb c t then 1 else 0)
                      (Train.shift_back close) close).
  assert (Hlab : forall i, (i < List.length close)%nat ->
                           nth i labels 0 =
                           if F64.ltb (nth i close F64.nan) (nth (S i) close F64.nan)
                           then 1 else 0).
  { intros i Hi. unfold labels.
    rewrite (nth_map2 _ _ _ _ F64.nan F64.nan)
      by (rewrite ?shift_back_length; exact Hi).
    now rewrite nth_shift_back. }
  exists (set_column (set_column df "tomorrow_close" (floats (Train.shift_back close)))
                     "target" (map CInt labels)), labels.
  split; [unfold labels; now rewrite map_map2|].
  split; [frame_simpl; reflexivity|].
  split; [unfold labels; rewrite map2_length, shift_back_length; lia|].
  split; [exact Hlab|]. split.
  - destruct (List.length close) as [|n] eqn:En.
    + unfold labels. destruct close; [reflexivity | discriminate].
    + replace (S n - 1)%nat with n by lia.
      rewrite (Hlab n) by apply Nat.lt_succ_diag_r.
      rewrite (nth_overflow close (n := S n)) by (rewrite En; apply Nat.le_refl).
      now rewrite ltb_nan_r.
  - rewrite Forall_map. apply Forall_forall. reflexivity.
Qed.

Lemma training_labels_witness :
  exists out labels,
    Train.add_target (history_table (rising_bars 3 10) "MSFT") = Ok out /\
    lookup "target" (columns out) = Some (map CInt labels) /\
    List.length labels = 3%nat /\
    (forall i, (i < 3)%nat ->
               nth i labels 0 =
               if F64.ltb (nth i (closes_of (rising_bars 3 10)) F64.nan)
                          (nth (S i) (closes_of (rising_bars 3 10)) F64.nan)
               then 1 else 0) /\
    nth 2 labels 0 = 0 /\
    Forall (fun c => isna c = false) (map CInt labels).
Proof.
  apply (training_labels (history_table (rising_bars 3 10) "MSFT")
                         (closes_of (rising_bars 3 10))).
  reflexivity.
Defined.

(** * The ingest service *)

(** ** The day that is ingested *)

(** X11.  For every date New York can have but the first, 0001-01-01, the
    day the ingest asks for is a date, a Monday to Friday strictly before
    today and at most three days back, and every day strictly between the
    two is a Saturday or a Sunday: it is the latest weekday before today
    (market holidays are not looked at).  On 0001-01-01, a Monday, the
    subtraction of three days raises [OverflowError]. *)
Theorem previous_trading_day_is_latest_weekday (today_ny : Z) :
  Ingest.DATE_MIN <= today_ny <= Ingest.DATE_MAX ->
  (today_ny = Ingest.DATE_MIN -> Ingest.previous_trading_day today_ny = None) /\
  (Ingest.DATE_MIN < today_ny ->
   exists d,
     Ingest.previous_trading_day today_ny = Some d /\
     Ingest.DATE_MIN <= d /\
     d < today_ny /\ today_ny - d <= 3 /\
     0 <= dayofweek d < 5 /\
     forall x, d < x < today_ny -> 5 <= dayofweek x < 7).
Proof.
  intros Hrange. split.
  - intros ->. reflexivity.
  - intros Hmin.
    unfold Ingest.previous_trading_day, Ingest.minus_days, dayofweek,
      Ingest.DATE_MIN, Ingest.DATE_MAX in *. cbv zeta.
    destruct (Z.eqb_spec ((today_ny + 3) mod 7) 0) as [H0|H0];
      [|destruct (Z.eqb_spec ((today_ny + 3) mod 7) 6) as [H6|H6];
        [|destruct (Z.eqb_spec ((today_ny + 3) mod 7) 5) as [H5|H5]]];
      match goal with
      | |- context [(?a <=? ?b) && (?c <=? ?d)] =>
          replace ((a <=? b) && (c <=? d)) with true
            by (symmetry; apply andb_true_iff; split; apply Z.leb_le;
                Z.div_mod_to_equations; lia)
      end;
      eexists; (split; [reflexivity|]);
      (split; [Z.div_mod_to_equations; lia|]);
      (split; [lia|]); (split; [lia|]);
      (split; [|intros x Hx]);
      Z.div_mod_to_equations; lia.
Qed.

Lemma previous_trading_day_witness :
  (20000 = Ingest.DATE_MIN -> Ingest.previous_trading_day 20000 = None) /\
  (Ingest.DATE_MIN < 20000 ->
   exists d,
     Ingest.previous_trading_day 20000 = Some d /\
     Ingest.DATE_MIN <= d /\
     d < 20000 /\ 20000 - d <= 3 /\
     0 <= dayofweek d < 5 /\
     forall x, d < x < 20000 -> 5 <= dayofweek x < 7).
Proof.
  apply (previous_trading_day_is_latest_weekday 20000).
  unfold Ingest.DATE_MIN, Ingest.DATE_MAX. lia.
Defined.

(** The first date is a Monday, and a Monday of our days goes back to the
    Friday. *)
Example previous_trading_day_samples :
  dayofweek Ingest.DATE_MIN = 0 /\
  Ingest.previous_trading_day Ingest.DATE_MIN = None /\
  Ingest.previous_trading_day (Ingest.DATE_MIN + 1) = Some Ingest.DATE_MIN /\
  dayofweek 20486 = 0 /\ Ingest.previous_trading_day 20486 = Some 20483.
Proof. vm_compute. repeat split. Qed.

(** ** The float order *)

Lemma SFcompare_le_lt_trans (a b c : float) :
  SFcompare a b = Some Lt \/ SFcompare a b = Some Eq ->
  SFcompare b c = Some Lt ->
  SFcompare a c = Some Lt.
Proof.
  destruct a as [sa|sa| |sa ma ea], b as [sb|sb| |sb mb eb], c as [sc|sc| |sc mc ec];
    cbn [SFcompare];
    try (intros [H|H] H'; discriminate);
    try (destruct sa; intros [Hx|Hx] Hy; congruence);
    try (destruct sa, sb; intros [Hx|Hx] Hy; congruence);
    try (destruct sa, sc; intros [Hx|Hx] Hy; congruence);
    try (destruct sb, sc; intros [Hx|Hx] Hy; congruence);
    try (destruct sa, sb, sc; intros [Hx|Hx] Hy; congruence).
  all: change (PosDef.Pos.compare_cont Eq ma mb) with (Pos.compare ma mb);
    change (PosDef.Pos.compare_cont Eq mb mc) with (Pos.compare mb mc);
    change (PosDef.Pos.compare_cont Eq ma mc) with (Pos.compare ma mc).
  all: destruct sa, sb, sc;
    try (intros [Hx|Hx] Hy; congruence);
    destruct (Z.compare_spec ea eb), (Z.compare_spec eb ec), (Z.compare_spec ea ec);
    try (intros [Hx|Hx] Hy; congruence); try lia;
    destruct (Pos.compare_spec ma mb), (Pos.compare_spec mb mc), (Pos.compare_spec ma mc);
    cbn [CompOpp];
    try (intros [Hx|Hx] Hy; congruence); try lia.
Qed.

Lemma ltb_trans (a b c : float) :
  F64.ltb a b = true -> F64.ltb b c = true -> F64.ltb a c = true.
Proof.
  unfold F64.ltb, SFltb. intros H1 H2.
  destruct (SFcompare a b) as [[]|] eqn:E1; try discriminate.
  destruct (SFcompare b c) as [[]|] eqn:E2; try discriminate.
  now rewrite (SFcompare_le_lt_trans a b c (or_introl E1) E2).
Qed.

Lemma leb_ltb_trans (a b c : float) :
  F64.leb a b = true -> F64.ltb b c = true -> F64.ltb a c = true.
Proof.
  unfold F64.leb, F64.ltb, SFleb, SFltb. intros H1 H2.
  destruct (SFcompare b c) as [[]|] eqn:E2; try discriminate.
  destruct (SFcompare a b) as [[]|] eqn:E1; try discriminate.
  - now rewrite (SFcompare_le_lt_trans a b c (or_intror E1) E2).
  - now rewrite (SFcompare_le_lt_trans a b c (or_introl E1) E2).
Qed.

Lemma ltb_irrefl (a : float) : F64.ltb a a = false.
Proof.
  unfold F64.ltb, SFltb.
  destruct a as [s|[|]| |[|] m e]; cbn [SFcompare]; try reflexivity;
    rewrite Z.compare_refl;
    change (PosDef.Pos.compare_cont Eq m m) with (Pos.compare m m);
    now rewrite Pos.compare_refl.
Qed.

Lemma ltb_not_nan (a b : float) :
  F64.ltb a b = true -> F64.is_nan a = false /\ F64.is_nan b = false.
Proof. destruct a, b; cbn; intros H; try discriminate; auto. Qed.

(** ** The biggest mover *)

Lemma consider_winner (b : option Ingest.Winner) (x : Ingest.Row) :
  F64.eqb (Ingest.r_open x) F64.zero = false ->
  Ingest.consider b x =
  match b with
  | None => Some (Ingest.winner_of x)
  | Some b0 => if F64.ltb (Ingest.abs_change b0) (F64.abs (Ingest.pct_of x))
               then Some (Ingest.winner_of x) else b
  end.
Proof. intros H. unfold Ingest.consider. rewrite H. reflexivity. Qed.

Lemma fold_consider_some (l : list Ingest.Row) (b : Ingest.Winner) :
  fold_left Ingest.consider l (Some b) <> None.
Proof.
  revert b. induction l as [|x l IH]; intros b; cbn [fold_left]; [discriminate|].
  unfold Ingest.consider.
  destruct (F64.eqb (Ingest.r_open x) F64.zero); [apply IH|].
  destruct (F64.ltb _ _); apply IH.
Qed.

Lemma fold_consider_none (l : list Ingest.Row) :
  fold_left Ingest.consider l None = None <->
  Forall (fun x => F64.eqb (Ingest.r_open x) F64.zero = true) l.
Proof.
  induction l as [|x l IH]; cbn [fold_left].
  - split; [constructor | reflexivity].
  - unfold Ingest.consider.
    destruct (F64.eqb (Ingest.r_open x) F64.zero) eqn:E.
    + rewrite IH. split; [now constructor | now inversion 1].
    + split.
      * intros H. now apply fold_consider_some in H.
      * inversion 1; congruence.
Qed.

(** The loop, from any state: the result is the state it started from, never
    beaten since, or the first row to reach the final change, which beats the
    start and every row before it. *)
Lemma fold_consider_chain (l : list Ingest.Row) (b : option Ingest.Winner)
      (w : Ingest.Winner) :
  fold_left Ingest.consider l b = Some w ->
  (b = Some w /\
   Forall (fun y => F64.eqb (Ingest.r_open y) F64.zero = false ->
                    F64.ltb (Ingest.abs_change w) (F64.abs (Ingest.pct_of y)) = false) l)
  \/
  (exists l1 x l2,
      l = l1 ++ x :: l2 /\
      F64.eqb (Ingest.r_open x) F64.zero = false /\
      w = Ingest.winner_of x /\
      (forall b0, b = Some b0 ->
                  F64.ltb (Ingest.abs_change b0) (Ingest.abs_change w) = true) /\
      Forall (fun y => F64.eqb (Ingest.r_open y) F64.zero = false ->
                       F64.ltb (Ingest.abs_change w) (F64.abs (Ingest.pct_of y)) = false)
             l /\
      Forall (fun y => F64.eqb (Ingest.r_open y) F64.zero = false ->
                       F64.is_nan (F64.abs (Ingest.pct_of y)) = false ->
                       F64.ltb (F64.abs (Ingest.pct_of y)) (Ingest.abs_change w) = true)
             l1).
Proof.
  revert b. induction l as [|x l IH]; intros b H; cbn [fold_left] in H.
  - left. split; [exact H | constructor].
  - destruct (F64.eqb (Ingest.r_open x) F64.zero) eqn:Ex.
    + assert (Ec : Ingest.consider b x = b)
        by (unfold Ingest.consider; now rewrite Ex).
      rewrite Ec in H.
      destruct (IH b H) as [(Hb & HF) | (l1 & z & l2 & -> & Hz & -> & Hch & HF & HF1)].
      * left. split; [exact Hb|]. constructor; [congruence | exact HF].
      * right. exists (x :: l1), z, l2.
        split; [reflexivity|]. split; [exact Hz|]. split; [reflexivity|].
        split; [exact Hch|]. split.
        -- constructor; [congruence | exact HF].
        -- constructor; [congruence | exact HF1].
    + rewrite (consider_winner b x Ex) in H.
      assert (Hself : F64.ltb (Ingest.abs_change (Ingest.winner_of x))
                              (F64.abs (Ingest.pct_of x)) = false)
        by apply ltb_irrefl.
      assert (Hweak : forall z,
                 F64.ltb (F64.abs (Ingest.pct_of x))
                         (Ingest.abs_change (Ingest.winner_of z)) = true ->
                 F64.ltb (Ingest.abs_change (Ingest.winner_of z))
                         (F64.abs (Ingest.pct_of x)) = false).
      { intros z Hxz.
        destruct (F64.ltb (Ingest.abs_change (Ingest.winner_of z))
                          (F64.abs (Ingest.pct_of x))) eqn:Ezx; [|reflexivity].
        pose proof (ltb_trans _ _ _ Hxz Ezx) as Hxx.
        rewrite ltb_irrefl in Hxx. discriminate. }
      destruct b as [b0|].
      * destruct (F64.ltb (Ingest.abs_change b0) (F64.abs (Ingest.pct_of x))) eqn:Elt.
        -- destruct (IH _ H)
             as [(Hb & HF) | (l1 & z & l2 & -> & Hz & -> & Hch & HF & HF1)].
           ++ injection Hb as <-. right. exists [], x, l. cbn [app].
              split; [reflexivity|]. split; [exact Ex|]. split; [reflexivity|].
              split; [intros b1 Hb1; injection Hb1 as <-; exact Elt|].
              split; [|constructor].
              constructor; [intros _; exact Hself | exact HF].
           ++ pose proof (Hch _ eq_refl) as Hxz.
              cbn [Ingest.winner_of Ingest.abs_change] in Hxz.
              right. exists (x :: l1), z, l2.
              split; [reflexivity|]. split; [exact Hz|]. split; [reflexivity|].
              split; [intros b1 Hb1; injection Hb1 as <-;
                      eapply ltb_trans; [exact Elt | exact Hxz]|].
              split.
              ** constructor; [intros _; now apply Hweak | exact HF].
              ** constructor; [intros _ _; exact Hxz | exact HF1].
        -- destruct (IH _ H)
             as [(Hb & HF) | (l1 & z & l2 & -> & Hz & -> & Hch & HF & HF1)].
           ++ injection Hb as <-. left. split; [reflexivity|].
              constructor; [intros _; exact Elt | exact HF].
           ++ pose proof (Hch _ eq_refl) as Hbz.
              right. exists (x :: l1), z, l2.
              split; [reflexivity|]. split; [exact Hz|]. split; [reflexivity|].
              split; [exact Hch|]. split.
              ** constructor; [|exact HF]. intros _.
                 destruct (F64.ltb (Ingest.abs_change (Ingest.winner_of z))
                                   (F64.abs (Ingest.pct_of x))) eqn:Ezx; [|reflexivity].
                 pose proof (ltb_trans _ _ _ Hbz Ezx). congruence.
              ** constructor; [|exact HF1]. intros _ Hnan.
                 destruct (ltb_not_nan _ _ Hbz) as (Hb0 & _).
                 eapply leb_ltb_trans; [|exact Hbz].
                 now apply not_ltb_leb.
      * destruct (IH _ H)
          as [(Hb & HF) | (l1 & z & l2 & -> & Hz & -> & Hch & HF & HF1)].
        -- injection Hb as <-. right. exists [], x, l. cbn [app].
           split; [reflexivity|]. split; [exact Ex|]. split; [reflexivity|].
           split; [discriminate|]. split; [|constructor].
           constructor; [intros _; exact Hself | exact HF].
        -- pose proof (Hch _ eq_refl) as Hxz.
           cbn [Ingest.winner_of Ingest.abs_change] in Hxz.
           right. exists (x :: l1), z, l2.
           split; [reflexivity|]. split; [exact Hz|]. split; [reflexivity|].
           split; [discriminate|]. split.
           ++ constructor; [intros _; now apply Hweak | exact HF].
           ++ constructor; [intros _ _; exact Hxz | exact HF1].
Qed.

Lemma in_filter_eligible (rows : list Ingest.Row) (y : Ingest.Row) :
  In y rows -> Ingest.eligible y = true ->
  In y (filter Ingest.in_watchlist rows) /\
  F64.eqb (Ingest.r_open y) F64.zero = false.
Proof.
  intros Hy He. unfold Ingest.eligible in He. apply andb_true_iff in He.
  destruct He as (Hw & Hz). split; [apply filter_In; auto|].
  now apply negb_true_iff.
Qed.

(** X12.  The choice of the biggest mover fails in exactly two ways and
    otherwise returns a row of the response: with no watchlist ticker among
    the rows it raises the no-watchlist error; with watchlist rows that all
    open at zero it raises the no-winner error; in every other case it
    returns the figures of a watchlist row whose open is not zero. *)
Theorem pick_biggest_mover_outcomes (rows : list Ingest.Row) :
  match Ingest.pick_biggest_mover rows with
  | inl (Ingest.RuntimeError msg) =>
      (existsb Ingest.in_watchlist rows = false /\ msg = Ingest.NO_WATCHLIST) \/
      (existsb Ingest.in_watchlist rows = true /\
       existsb Ingest.eligible rows = false /\ msg = Ingest.NO_WINNER)
  | inr w =>
      exists x, In x rows /\ Ingest.eligible x = true /\ w = Ingest.winner_of x
  end.
Proof.
  unfold Ingest.pick_biggest_mover.
  destruct (filter Ingest.in_watchlist rows) as [|x0 wl] eqn:Ef.
  - left. split; [|reflexivity].
    destruct (existsb Ingest.in_watchlist rows) eqn:Ee; [|reflexivity].
    apply existsb_exists in Ee. destruct Ee as (x & Hx & Hw).
    assert (Hin : In x (filter Ingest.in_watchlist rows)) by (apply filter_In; auto).
    rewrite Ef in Hin. contradiction.
  - assert (Hwl : existsb Ingest.in_watchlist rows = true).
    { apply existsb_exists. exists x0.
      assert (Hin : In x0 (filter Ingest.in_watchlist rows)) by (rewrite Ef; now left).
      apply filter_In in Hin. exact Hin. }
    rewrite <- Ef.
    destruct (fold_left Ingest.consider (filter Ingest.in_watchlist rows) None)
      as [w|] eqn:Efold.
    + destruct (fold_consider_chain _ _ _ Efold)
        as [(Hb & _) | (l1 & x & l2 & El & Hx & -> & _)]; [discriminate|].
      exists x.
      assert (Hin : In x (filter Ingest.in_watchlist rows))
        by (rewrite El; apply in_elt).
      apply filter_In in Hin. destruct Hin as (Hin & Hw).
      split; [exact Hin|]. split; [|reflexivity].
      unfold Ingest.eligible. now rewrite Hw, Hx.
    + right. split; [exact Hwl|]. split; [|reflexivity].
      apply fold_consider_none in Efold. rewrite Forall_forall in Efold.
      destruct (existsb Ingest.eligible rows) eqn:Ee; [|reflexivity].
      apply existsb_exists in Ee. destruct Ee as (y & Hy & He).
      destruct (in_filter_eligible rows y Hy He) as (Hyw & Hz).
      rewrite (Efold y Hyw) in Hz. discriminate.
Qed.

(** X13.  The mover that is returned is beaten by no row it could have
    chosen: no watchlist row with a nonzero open has an absolute percent
    change greater than the winner's. *)
Theorem biggest_mover_is_not_beaten (rows : list Ingest.Row) (w : Ingest.Winner)
        (y : Ingest.Row) :
  Ingest.pick_biggest_mover rows = inr w ->
  In y rows -> Ingest.eligible y = true ->
  F64.ltb (Ingest.abs_change w) (F64.abs (Ingest.pct_of y)) = false.
Proof.
  unfold Ingest.pick_biggest_mover. intros H Hy He.
  destruct (in_filter_eligible rows y Hy He) as (Hyw & Hz).
  destruct (filter Ingest.in_watchlist rows) as [|x0 wl] eqn:Ef; [discriminate|].
  rewrite <- Ef in *.
  destruct (fold_left Ingest.consider (filter Ingest.in_watchlist rows) None)
    as [w'|] eqn:Efold; [|discriminate].
  injection H as ->.
  destruct (fold_consider_chain _ _ _ Efold)
    as [(Hb & _) | (l1 & x & l2 & El & Hx & -> & _ & HF & _)]; [discriminate|].
  rewrite Forall_forall in HF. now apply HF.
Qed.

Lemma biggest_mover_witness :
  F64.ltb (Ingest.abs_change (Ingest.winner_of (sample_row "AAPL" 100 110)))
          (F64.abs (Ingest.pct_of (sample_row "TSLA" 100 90))) = false.
Proof.
  apply (biggest_mover_is_not_beaten sample_rows
           (Ingest.winner_of (sample_row "AAPL" 100 110)) (sample_row "TSLA" 100 90)).
  - vm_compute. reflexivity.
  - cbn. tauto.
  - vm_compute. reflexivity.
Defined.

(** X14.  Ties go to the earliest row.  When no watchlist row with a nonzero
    open has an undefined (NaN) change, the winner is the first such row to
    reach the greatest absolute change: every such row before it in the
    response moved strictly less, and none after it moved more. *)
Theorem biggest_mover_is_the_earliest (rows : list Ingest.Row) (w : Ingest.Winner) :
  Ingest.pick_biggest_mover rows = inr w ->
  (forall y, In y rows -> Ingest.eligible y = true ->
             F64.is_nan (F64.abs (Ingest.pct_of y)) = false) ->
  exists l1 x l2,
    filter Ingest.in_watchlist rows = l1 ++ x :: l2 /\
    w = Ingest.winner_of x /\
    F64.eqb (Ingest.r_open x) F64.zero = false /\
    (forall y, In y l1 -> F64.eqb (Ingest.r_open y) F64.zero = false ->
               F64.ltb (F64.abs (Ingest.pct_of y)) (Ingest.abs_change w) = true) /\
    (forall y, In y l2 -> F64.eqb (Ingest.r_open y) F64.zero = false ->
               F64.leb (F64.abs (Ingest.pct_of y)) (Ingest.abs_change w) = true).
Proof.
  unfold Ingest.pick_biggest_mover. intros H Hnan.
  destruct (filter Ingest.in_watchlist rows) as [|x0 wl] eqn:Ef; [discriminate|].
  rewrite <- Ef in *.
  destruct (fold_left Ingest.consider (filter Ingest.in_watchlist rows) None)
    as [w'|] eqn:Efold; [|discriminate].
  injection H as ->.
  destruct (fold_consider_chain _ _ _ Efold)
    as [(Hb & _) | (l1 & x & l2 & El & Hx & -> & _ & HF & HF1)]; [discriminate|].
  assert (Hel : forall y, In y (l1 ++ x :: l2) ->
                          F64.eqb (Ingest.r_open y) F64.zero = false ->
                          F64.is_nan (F64.abs (Ingest.pct_of y)) = false).
  { intros y Hy Hz. rewrite <- El in Hy. apply filter_In in Hy.
    destruct Hy as (Hy & Hw). apply Hnan; [exact Hy|].
    unfold Ingest.eligible. now rewrite Hw, Hz. }
  exists l1, x, l2. split; [exact El|]. split; [reflexivity|]. split; [exact Hx|].
  rewrite Forall_forall in HF, HF1. split.
  - intros y Hy Hz. apply HF1; [exact Hy | exact Hz|].
    apply Hel; [apply in_or_app; now left | exact Hz].
  - intros y Hy Hz. apply not_ltb_leb.
    + apply (Hel x); [apply in_elt | exact Hx].
    + apply Hel; [apply in_or_app; right; now right | exact Hz].
    + apply HF; [|exact Hz]. rewrite El. apply in_or_app. right. now right.
Qed.

Lemma biggest_mover_earliest_witness :
  exists l1 x l2,
    filter Ingest.in_watchlist sample_rows = l1 ++ x :: l2 /\
    Ingest.winner_of (sample_row "AAPL" 100 110) = Ingest.winner_of x /\
    F64.eqb (Ingest.r_open x) F64.zero = false /\
    (forall y, In y l1 -> F64.eqb (Ingest.r_open y) F64.zero = false ->
               F64.ltb (F64.abs (Ingest.pct_of y))
                       (Ingest.abs_change (Ingest.winner_of (sample_row "AAPL" 100 110)))
               = true) /\
    (forall y, In y l2 -> F64.eqb (Ingest.r_open y) F64.zero = false ->
               F64.leb (F64.abs (Ingest.pct_of y))
                       (Ingest.abs_change (Ingest.winner_of (sample_row "AAPL" 100 110)))
               = true).
Proof.
  apply (biggest_mover_is_the_earliest sample_rows
           (Ingest.winner_of (sample_row "AAPL" 100 110))).
  - vm_compute. reflexivity.
  - intros y Hy _. cbn in Hy.
    repeat (destruct Hy as [<- | Hy]; [vm_compute; reflexivity|]). contradiction.
Defined.
(** ** Fetching with retries *)

Lemma requests_app (l1 l2 : list Ingest.step) :
  Ingest.requests (l1 ++ l2) = Ingest.requests l1 ++ Ingest.requests l2.
Proof. unfold Ingest.requests. apply flat_map_app. Qed.

Lemma sleeps_app (l1 l2 : list Ingest.step) :
  Ingest.sleeps (l1 ++ l2) = Ingest.sleeps l1 ++ Ingest.sleeps l2.
Proof. unfold Ingest.sleeps. apply flat_map_app. Qed.

Lemma pace_sleeps_app (l1 l2 : list Ingest.step) :
  Ingest.pace_sleeps (l1 ++ l2) = Ingest.pace_sleeps l1 ++ Ingest.pace_sleeps l2.
Proof. unfold Ingest.pace_sleeps. apply flat_map_app. Qed.

Lemma time_sleep_error (x : float) (e : Ingest.fetch_error) :
  Ingest.time_sleep x = Some e -> e = Ingest.SleepValueError \/ e = Ingest.OverflowError.
Proof.
  unfold Ingest.time_sleep. destruct (F64.is_nan x); [intros H; injection H; auto|].
  destruct (_ || _); [intros H; injection H; auto|].
  destruct (F64.ltb x F64.zero); [intros H; injection H; auto | discriminate].
Qed.

Lemma accepted_sleep_bounds (x : float) :
  Ingest.time_sleep (Ingest.min30 x) = None ->
  F64.leb F64.zero (Ingest.min30 x) = true /\
  F64.leb (Ingest.min30 x) Ingest.thirty = true.
Proof.
  unfold Ingest.time_sleep. intros H.
  destruct (F64.is_nan (Ingest.min30 x)) eqn:Hnan; [discriminate|].
  destruct (_ || _); [discriminate|].
  destruct (F64.ltb (Ingest.min30 x) F64.zero) eqn:Hneg; [discriminate|].
  split.
  - now apply not_ltb_leb.
  - unfold Ingest.min30 in *. destruct (F64.ltb Ingest.thirty x) eqn:E; [reflexivity|].
    now apply not_ltb_leb.
Qed.

(** What a call of [_pace] does: it ends with an exception of [time.sleep],
    or it goes on, having slept at most once, for a positive time that
    [time.sleep] accepts, and not at all when [MIN_GAP_S] is 0 or less. *)
Lemma pace_cases (min_gap_s : float) (clock : nat -> float) (ps : Ingest.pace_state) :
  (exists e,
      Ingest._pace min_gap_s clock ps = (inl e, [Ingest.EvPace]) /\
      (e = Ingest.SleepValueError \/ e = Ingest.OverflowError)) \/
  (exists ps' steps,
      Ingest._pace min_gap_s clock ps = (inr ps', steps) /\
      (steps = [Ingest.EvPace] \/
       exists wait,
         steps = [Ingest.EvPace; Ingest.EvPaceSleep wait] /\
         F64.ltb F64.zero wait = true /\
         Ingest.time_sleep wait = None /\
         F64.leb min_gap_s F64.zero = false)).
Proof.
  unfold Ingest._pace. destruct (F64.leb min_gap_s F64.zero) eqn:Eg; [right; eauto|].
  match goal with
  | |- context [F64.ltb F64.zero ?w] => destruct (F64.ltb F64.zero w) eqn:Ew
  end; [|right; eauto].
  match goal with
  | |- context [Ingest.time_sleep ?w] => destruct (Ingest.time_sleep w) as [e|] eqn:Es
  end.
  - left. exists e. split; [reflexivity|]. exact (time_sleep_error _ _ Es).
  - right. eexists; eexists. split; [reflexivity|]. right. eauto.
Qed.

Lemma pace_steps (steps : list Ingest.step) (min_gap_s : float) :
  (steps = [Ingest.EvPace] \/
   exists wait,
     steps = [Ingest.EvPace; Ingest.EvPaceSleep wait] /\
     F64.ltb F64.zero wait = true /\
     Ingest.time_sleep wait = None /\
     F64.leb min_gap_s F64.zero = false) ->
  Ingest.requests steps = [] /\ Ingest.sleeps steps = [] /\
  (List.length (Ingest.pace_sleeps steps) <= 1)%nat /\
  Forall (fun s => F64.ltb F64.zero s = true /\ Ingest.time_sleep s = None)
         (Ingest.pace_sleeps steps) /\
  (F64.leb min_gap_s F64.zero = true -> Ingest.pace_sleeps steps = []).
Proof.
  intros [->|(wait & -> & Hw & Hs & Hg)];
    cbn [Ingest.requests Ingest.sleeps Ingest.pace_sleeps flat_map app List.length].
  - split; [reflexivity|]. split; [reflexivity|]. split; [lia|].
    split; [constructor | reflexivity].
  - split; [reflexivity|]. split; [reflexivity|]. split; [lia|].
    split; [constructor; [split; assumption | constructor] | congruence].
Qed.

(** The record of one turn of the loop up to its request. *)
Lemma turn_steps (steps : list Ingest.step) (min_gap_s : float) (i : nat)
      (more : list Ingest.step) :
  (steps = [Ingest.EvPace] \/
   exists wait,
     steps = [Ingest.EvPace; Ingest.EvPaceSleep wait] /\
     F64.ltb F64.zero wait = true /\
     Ingest.time_sleep wait = None /\
     F64.leb min_gap_s F64.zero = false) ->
  Ingest.pace_sleeps more = [] -> Ingest.requests more = [] ->
  Ingest.requests (steps ++ [Ingest.EvGet i] ++ more) = [i] /\
  Ingest.sleeps (steps ++ [Ingest.EvGet i] ++ more) = Ingest.sleeps more /\
  (List.length (Ingest.pace_sleeps (steps ++ [Ingest.EvGet i] ++ more)) <= 1)%nat /\
  Forall (fun s => F64.ltb F64.zero s = true /\ Ingest.time_sleep s = None)
         (Ingest.pace_sleeps (steps ++ [Ingest.EvGet i] ++ more)) /\
  (F64.leb min_gap_s F64.zero = true ->
   Ingest.pace_sleeps (steps ++ [Ingest.EvGet i] ++ more) = []).
Proof.
  intros Hsteps Hp Hr.
  destruct (pace_steps steps min_gap_s Hsteps) as (H1 & H2 & H3 & H4 & H5).
  rewrite !requests_app, !sleeps_app, !pace_sleeps_app, H1, H2, Hp, Hr.
  cbn [Ingest.requests Ingest.sleeps Ingest.pace_sleeps flat_map app].
  rewrite !app_nil_r. split; [reflexivity|]. split; [reflexivity|]. auto.
Qed.

(** What every run of the loop records, however it ends: one request per
    attempt made, in order; at most one sleep before a retry per request, of
    0 to 30 seconds; at most one sleep of [_pace] per request. *)
Lemma get_json_loop_log {J : Type} (server : nat -> Ingest.reply J)
      (jitter : nat -> float) (min_gap_s : float) (clock : nat -> float)
      (attempts : Z) (n i : nat) (last : option Z)
      (ps : Ingest.pace_state) (log : list Ingest.step) :
  exists k evs,
    snd (Ingest.get_json_loop server jitter min_gap_s clock attempts n i last ps log)
    = log ++ evs /\
    (k <= n)%nat /\
    Ingest.requests evs = seq i k /\
    (List.length (Ingest.sleeps evs) <= k)%nat /\
    Forall (fun s => F64.leb F64.zero s = true /\ F64.leb s Ingest.thirty = true)
           (Ingest.sleeps evs) /\
    (List.length (Ingest.pace_sleeps evs) <= k)%nat /\
    Forall (fun s => F64.ltb F64.zero s = true /\ Ingest.time_sleep s = None)
           (Ingest.pace_sleeps evs) /\
    (F64.leb min_gap_s F64.zero = true -> Ingest.pace_sleeps evs = []).
Proof.
  revert i last ps log. induction n as [|n IH]; intros i last ps log;
    cbn [Ingest.get_json_loop].
  - exists 0%nat, []. rewrite app_nil_r. repeat split; auto.
  - destruct (pace_cases min_gap_s clock ps)
      as [(e & -> & _) | (ps' & steps & -> & Hsteps)].
    { exists 0%nat, [Ingest.EvPace]. cbn. repeat split; auto; lia. }
    destruct (turn_steps steps min_gap_s i [] Hsteps eq_refl eq_refl)
      as (T1 & T2 & T3 & T4 & T5).
    cbn [app] in T1, T2, T3, T4, T5.
    assert (Hone : forall r : Ingest.fetch_error + J,
               exists k evs,
                 snd (r, log ++ steps ++ [Ingest.EvGet i]) = log ++ evs /\
                 (k <= S n)%nat /\ Ingest.requests evs = seq i k /\
                 (List.length (Ingest.sleeps evs) <= k)%nat /\
                 Forall (fun s => F64.leb F64.zero s = true /\
                                  F64.leb s Ingest.thirty = true) (Ingest.sleeps evs) /\
                 (List.length (Ingest.pace_sleeps evs) <= k)%nat /\
                 Forall (fun s => F64.ltb F64.zero s = true /\ Ingest.time_sleep s = None)
                        (Ingest.pace_sleeps evs) /\
                 (F64.leb min_gap_s F64.zero = true -> Ingest.pace_sleeps evs = [])).
    { intros r. exists 1%nat, (steps ++ [Ingest.EvGet i]). cbn [snd].
      split; [reflexivity|]. split; [lia|]. split; [exact T1|].
      rewrite T2. cbn [Ingest.sleeps flat_map List.length].
      split; [lia|]. split; [constructor|]. auto. }
    destruct (server i) as [|st ra json]; [apply Hone|].
    destruct (st =? 200); [apply Hone|].
    destruct (existsb (Z.eqb st) Ingest.RETRYABLE).
    + destruct (Ingest.sleep_plus_jitter ra i (jitter i)) as [e|s]; [apply Hone|].
      destruct (Ingest.time_sleep (Ingest.min30 s)) eqn:Er; [apply Hone|].
      destruct (IH (S i) (Some st) ps'
                   ((log ++ steps ++ [Ingest.EvGet i]) ++ [Ingest.EvSleep (Ingest.min30 s)]))
        as (k & evs & -> & Hk & Hr & Hs & HF & Hp & HPF & Hg).
      exists (S k), ((steps ++ [Ingest.EvGet i]) ++ [Ingest.EvSleep (Ingest.min30 s)] ++ evs).
      split; [now rewrite <- !app_assoc|]. split; [lia|].
      rewrite (requests_app (steps ++ [Ingest.EvGet i])),
        (sleeps_app (steps ++ [Ingest.EvGet i])),
        (pace_sleeps_app (steps ++ [Ingest.EvGet i])), T1, T2.
      cbn [Ingest.requests Ingest.sleeps Ingest.pace_sleeps flat_map app seq].
      fold (Ingest.requests evs); fold (Ingest.sleeps evs); fold (Ingest.pace_sleeps evs).
      split; [now rewrite Hr|]. split; [cbn [List.length]; lia|].
      split; [constructor; [now apply accepted_sleep_bounds | exact HF]|].
      split; [rewrite length_app; lia|].
      split; [apply Forall_app; split; assumption|].
      intros Hle. now rewrite (T5 Hle), (Hg Hle).
    + destruct (Ingest.is_error_status st); [apply Hone|].
      destruct (IH (S i) (Some st) ps' (log ++ steps ++ [Ingest.EvGet i]))
        as (k & evs & -> & Hk & Hr & Hs & HF & Hp & HPF & Hg).
      exists (S k), ((steps ++ [Ingest.EvGet i]) ++ evs).
      split; [now rewrite <- !app_assoc|]. split; [lia|].
      rewrite (requests_app (steps ++ [Ingest.EvGet i])),
        (sleeps_app (steps ++ [Ingest.EvGet i])),
        (pace_sleeps_app (steps ++ [Ingest.EvGet i])), T1, T2.
      cbn [Ingest.requests Ingest.sleeps Ingest.pace_sleeps flat_map app seq].
      fold (Ingest.requests evs); fold (Ingest.sleeps evs); fold (Ingest.pace_sleeps evs).
      split; [now rewrite Hr|]. split; [lia|]. split; [exact HF|].
      split; [rewrite length_app; lia|].
      split; [apply Forall_app; split; assumption|].
      intros Hle. now rewrite (T5 Hle), (Hg Hle).
Qed.

(** X17.  However the server answers, whatever the jitters, the clock and
    [MIN_GAP_S], a fetch sends its requests one per attempt and never more
    than [attempts] of them.  Before a retry it sleeps at most once per
    request, never for less than 0 or more than 30 seconds.  Before a request
    [_pace] sleeps at most once, for a positive time that [time.sleep]
    accepts, and not at all when [MIN_GAP_S] is 0 or less. *)
Theorem get_json_requests_and_sleeps_are_bounded
        {J : Type} (server : nat -> Ingest.reply J) (jitter : nat -> float)
        (min_gap_s : float) (clock : nat -> float) (last_ts : float)
        (attempts : Z) :
  let log := snd (Ingest.get_json server jitter min_gap_s clock last_ts attempts) in
  exists k,
    Ingest.requests log = seq 0 k /\
    Z.of_nat k <= Z.max 0 attempts /\
    (List.length (Ingest.sleeps log) <= k)%nat /\
    Forall (fun s => F64.leb F64.zero s = true /\ F64.leb s Ingest.thirty = true)
           (Ingest.sleeps log) /\
    (List.length (Ingest.pace_sleeps log) <= k)%nat /\
    Forall (fun s => F64.ltb F64.zero s = true /\ Ingest.time_sleep s = None)
           (Ingest.pace_sleeps log) /\
    (F64.leb min_gap_s F64.zero = true -> Ingest.pace_sleeps log = []).
Proof.
  cbv zeta. unfold Ingest.get_json.
  destruct (get_json_loop_log server jitter min_gap_s clock attempts
                              (Z.to_nat attempts) 0 None (Ingest.mkPace last_ts 0) [])
    as (k & evs & -> & Hk & Hr & Hs & HF & Hp & HPF & Hg).
  exists k. cbn [app]. repeat split; auto. lia.
Qed.

(** The sample fetch with a gap of three seconds, step by step. *)
Example get_json_paced_sample :
  Ingest.get_json sample_server sample_jitter sample_gap sample_clock F64.zero 4
  = (inr 7%nat,
     [Ingest.EvPace; Ingest.EvGet 0;
      Ingest.EvSleep (F64.add (F64.of_Z 1) (sample_jitter 0));
      Ingest.EvPace; Ingest.EvPaceSleep (F64.of_Z 2); Ingest.EvGet 1;
      Ingest.EvSleep (F64.add (F64.of_Z 2) (sample_jitter 1));
      Ingest.EvPace; Ingest.EvPaceSleep (F64.of_Z 2); Ingest.EvGet 2]).
Proof. vm_compute. reflexivity. Qed.

(** The replies before attempt [k], from attempt [i] on, are all responses
    with a status other than 200. *)
Lemma get_json_loop_success {J : Type} (server : nat -> Ingest.reply J)
      (jitter : nat -> float) (min_gap_s : float) (clock : nat -> float)
      (attempts : Z) (n i : nat) (last : option Z)
      (ps : Ingest.pace_state) (log log' : list Ingest.step) (j : J) :
  Ingest.get_json_loop server jitter min_gap_s clock attempts n i last ps log
  = (inr j, log') ->
  exists k ra evs,
    (i <= k < i + n)%nat /\
    server k = Ingest.Reply 200 ra (Some j) /\
    (forall m, (i <= m < k)%nat ->
               exists st ra' js, server m = Ingest.Reply st ra' js /\ st <> 200) /\
    log' = log ++ evs /\
    Ingest.requests evs = seq i (S k - i).
Proof.
  revert i last ps log. induction n as [|n IH]; intros i last ps log H;
    cbn [Ingest.get_json_loop] in H; [discriminate|].
  destruct (pace_cases min_gap_s clock ps)
    as [(e & Ep & _) | (ps' & steps & Ep & Hsteps)];
    rewrite Ep in H; [discriminate|].
  destruct (turn_steps steps min_gap_s i [] Hsteps eq_refl eq_refl) as (T1 & _).
  cbn [app] in T1.
  destruct (server i) as [|st ra json] eqn:Es; [discriminate|].
  destruct (Z.eqb_spec st 200) as [->|Hne].
  - destruct json as [j'|]; [|discriminate]. injection H as <- <-.
    exists i, ra, (steps ++ [Ingest.EvGet i]).
    split; [lia|]. split; [exact Es|]. split; [intros m Hm; lia|].
    split; [reflexivity|]. replace (S i - i)%nat with 1%nat by lia. exact T1.
  - assert (Hstep : forall last' log1 evs1,
               Ingest.requests evs1 = [i] ->
               log1 = log ++ evs1 ->
               Ingest.get_json_loop server jitter min_gap_s clock attempts n (S i)
                                    last' ps' log1
               = (inr j, log') ->
               exists k ra0 evs,
                 (i <= k < i + S n)%nat /\
                 server k = Ingest.Reply 200 ra0 (Some j) /\
                 (forall m, (i <= m < k)%nat ->
                            exists st0 ra' js, server m = Ingest.Reply st0 ra' js /\
                                               st0 <> 200) /\
                 log' = log ++ evs /\
                 Ingest.requests evs = seq i (S k - i)).
    { intros last' log1 evs1 Hr1 -> H1.
      destruct (IH _ _ _ _ H1) as (k & ra0 & evs & Hk & Hsk & Hbefore & -> & Hr).
      exists k, ra0, (evs1 ++ evs). split; [lia|]. split; [exact Hsk|]. split.
      - intros m Hm. destruct (Nat.eq_dec m i) as [->|Hmi].
        + exists st, ra, json. split; [exact Es | exact Hne].
        + apply Hbefore. lia.
      - split; [now rewrite app_assoc|].
        rewrite requests_app, Hr1, Hr.
        replace (S k - i)%nat with (S (S k - S i)) by lia. reflexivity. }
    destruct (existsb (Z.eqb st) Ingest.RETRYABLE).
    + destruct (Ingest.sleep_plus_jitter ra i (jitter i)) as [e|s]; [discriminate|].
      destruct (Ingest.time_sleep (Ingest.min30 s)); [discriminate|].
      apply (Hstep _ _ ((steps ++ [Ingest.EvGet i]) ++ [Ingest.EvSleep (Ingest.min30 s)]))
        in H; [exact H | |now rewrite <- !app_assoc].
      rewrite requests_app, T1. reflexivity.
    + destruct (Ingest.is_error_status st); [discriminate|].
      now apply (Hstep _ _ (steps ++ [Ingest.EvGet i]) T1) in H.
Qed.

(** X18.  A fetch that returns, returns the body of the first answer with
    status 200: that answer came within the allowed attempts, every answer
    before it was a response with another status, and no request was sent
    after it. *)
Theorem get_json_returns_the_first_200
        {J : Type} (server : nat -> Ingest.reply J) (jitter : nat -> float)
        (min_gap_s : float) (clock : nat -> float) (last_ts : float)
        (attempts : Z) (j : J) (log : list Ingest.step) :
  Ingest.get_json server jitter min_gap_s clock last_ts attempts = (inr j, log) ->
  exists k ra,
    Z.of_nat k < attempts /\
    server k = Ingest.Reply 200 ra (Some j) /\
    (forall m, (m < k)%nat ->
               exists st ra' js, server m = Ingest.Reply st ra' js /\ st <> 200) /\
    Ingest.requests log = seq 0 (S k).
Proof.
  unfold Ingest.get_json. intros H.
  destruct (get_json_loop_success _ _ _ _ _ _ _ _ _ _ _ _ H)
    as (k & ra & evs & Hk & Hs & Hbefore & -> & Hr).
  exists k, ra. split; [lia|]. split; [exact Hs|]. split.
  - intros m Hm. apply Hbefore. lia.
  - cbn [app]. rewrite Hr. now rewrite Nat.sub_0_r.
Qed.

Lemma get_json_returns_witness :
  exists k ra,
    Z.of_nat k < 4 /\
    sample_server k = Ingest.Reply 200 ra (Some 7%nat) /\
    (forall m, (m < k)%nat ->
               exists st ra' js, sample_server m = Ingest.Reply st ra' js /\ st <> 200) /\
    Ingest.requests
      (snd (Ingest.get_json sample_server sample_jitter sample_gap sample_clock
                            F64.zero 4))
    = seq 0 (S k).
Proof.
  apply (get_json_returns_the_first_200 sample_server sample_jitter sample_gap
           sample_clock F64.zero 4 7%nat
           (snd (Ingest.get_json sample_server sample_jitter sample_gap sample_clock
                                 F64.zero 4))).
  vm_compute. reflexivity.
Defined.

Lemma get_json_loop_http_error {J : Type} (server : nat -> Ingest.reply J)
      (jitter : nat -> float) (min_gap_s : float) (clock : nat -> float)
      (attempts : Z) (n i : nat) (last : option Z)
      (ps : Ingest.pace_state) (log log' : list Ingest.step) (st : Z) :
  Ingest.get_json_loop server jitter min_gap_s clock attempts n i last ps log
  = (inl (Ingest.HTTPError st), log') ->
  exists k ra js evs,
    (i <= k < i + n)%nat /\
    server k = Ingest.Reply st ra js /\
    ~ In st Ingest.RETRYABLE /\ 400 <= st < 600 /\
    log' = log ++ evs /\
    Ingest.requests evs = seq i (S k - i).
Proof.
  revert i last ps log. induction n as [|n IH]; intros i last ps log H;
    cbn [Ingest.get_json_loop] in H; [discriminate|].
  destruct (pace_cases min_gap_s clock ps)
    as [(e & Ep & He) | (ps' & steps & Ep & Hsteps)];
    rewrite Ep in H; [injection H as -> _; destruct He; discriminate|].
  destruct (turn_steps steps min_gap_s i [] Hsteps eq_refl eq_refl) as (T1 & _).
  cbn [app] in T1.
  destruct (server i) as [|st0 ra json] eqn:Es; [discriminate|].
  destruct (Z.eqb_spec st0 200) as [->|Hne]; [destruct json; discriminate|].
  assert (Hstep : forall last' log1 evs1,
             Ingest.requests evs1 = [i] ->
             log1 = log ++ evs1 ->
             Ingest.get_json_loop server jitter min_gap_s clock attempts n (S i)
                                  last' ps' log1
             = (inl (Ingest.HTTPError st), log') ->
             exists k ra0 js evs,
               (i <= k < i + S n)%nat /\
               server k = Ingest.Reply st ra0 js /\
               ~ In st Ingest.RETRYABLE /\ 400 <= st < 600 /\
               log' = log ++ evs /\
               Ingest.requests evs = seq i (S k - i)).
  { intros last' log1 evs1 Hr1 -> H1.
    destruct (IH _ _ _ _ H1) as (k & ra0 & js & evs & Hk & Hsk & Hnr & Hrange & -> & Hr).
    exists k, ra0, js, (evs1 ++ evs). split; [lia|]. split; [exact Hsk|].
    split; [exact Hnr|]. split; [exact Hrange|].
    split; [now rewrite app_assoc|].
    rewrite requests_app, Hr1, Hr.
    replace (S k - i)%nat with (S (S k - S i)) by lia. reflexivity. }
  destruct (existsb (Z.eqb st0) Ingest.RETRYABLE) eqn:Er.
  - destruct (Ingest.sleep_plus_jitter ra i (jitter i)) as [e|s] eqn:Esl.
    + injection H as He _. subst e. exfalso.
      unfold Ingest.sleep_plus_jitter, Ingest.pow2 in Esl.
      destruct ra; try discriminate; destruct (Nat.ltb i 1024); discriminate.
    + destruct (Ingest.time_sleep (Ingest.min30 s)) as [e|] eqn:Et.
      { injection H as -> _. destruct (time_sleep_error _ _ Et); discriminate. }
      apply (Hstep _ _ ((steps ++ [Ingest.EvGet i]) ++ [Ingest.EvSleep (Ingest.min30 s)]))
        in H; [exact H | |now rewrite <- !app_assoc].
      rewrite requests_app, T1. reflexivity.
  - destruct (Ingest.is_error_status st0) eqn:Ee.
    + injection H as <- <-.
      exists i, ra, json, (steps ++ [Ingest.EvGet i]).
      split; [lia|]. split; [exact Es|]. split.
      * intros Hin. assert (Hex : existsb (Z.eqb st0) Ingest.RETRYABLE = true).
        { apply existsb_exists. exists st0. split; [exact Hin | apply Z.eqb_refl]. }
        congruence.
      * unfold Ingest.is_error_status in Ee. apply andb_true_iff in Ee.
        split; [lia|]. split; [reflexivity|].
        replace (S i - i)%nat with 1%nat by lia. exact T1.
    + now apply (Hstep _ _ (steps ++ [Ingest.EvGet i]) T1) in H.
Qed.

(** X19.  An answer with a 4xx or 5xx status outside the retryable five is
    not retried: when a fetch ends with the HTTP error of a status, that
    status is such a one, it was the answer to the last request sent, and the
    request came within the allowed attempts. *)
Theorem get_json_does_not_retry_other_errors
        {J : Type} (server : nat -> Ingest.reply J) (jitter : nat -> float)
        (min_gap_s : float) (clock : nat -> float) (last_ts : float)
        (attempts : Z) (st : Z) (log : list Ingest.step) :
  Ingest.get_json server jitter min_gap_s clock last_ts attempts
  = (inl (Ingest.HTTPError st), log) ->
  exists k ra js,
    Z.of_nat k < attempts /\
    server k = Ingest.Reply st ra js /\
    ~ In st Ingest.RETRYABLE /\ 400 <= st < 600 /\
    Ingest.requests log = seq 0 (S k).
Proof.
  unfold Ingest.get_json. intros H.
  destruct (get_json_loop_http_error _ _ _ _ _ _ _ _ _ _ _ _ H)
    as (k & ra & js & evs & Hk & Hs & Hnr & Hrange & -> & Hr).
  exists k, ra, js. split; [lia|]. split; [exact Hs|]. split; [exact Hnr|].
  split; [exact Hrange|]. cbn [app]. rewrite Hr. now rewrite Nat.sub_0_r.
Qed.

Lemma get_json_other_errors_witness :
  exists k ra js,
    Z.of_nat k < 4 /\
    lost_server k = Ingest.Reply 404 ra js /\
    ~ In 404 Ingest.RETRYABLE /\ 400 <= 404 < 600 /\
    Ingest.requests
      (snd (Ingest.get_json lost_server sample_jitter sample_gap sample_clock
                            F64.zero 4))
    = seq 0 (S k).
Proof.
  apply (get_json_does_not_retry_other_errors lost_server sample_jitter sample_gap
           sample_clock F64.zero 4 404
           (snd (Ingest.get_json lost_server sample_jitter sample_gap sample_clock
                                 F64.zero 4))).
  vm_compute. reflexivity.
Defined.

Lemma get_json_loop_exhausted {J : Type} (server : nat -> Ingest.reply J)
      (jitter : nat -> float) (min_gap_s : float) (clock : nat -> float)
      (attempts : Z) (n i : nat) (last l : option Z) (a : Z)
      (ps : Ingest.pace_state) (log log' : list Ingest.step) :
  Ingest.get_json_loop server jitter min_gap_s clock attempts n i last ps log
  = (inl (Ingest.AttemptsExhausted l a), log') ->
  a = attempts /\
  (forall m, (i <= m < i + n)%nat ->
             exists st ra js, server m = Ingest.Reply st ra js /\ st <> 200) /\
  (n = 0%nat -> l = last) /\
  (forall n', n = S n' ->
              exists st ra js, server (i + n')%nat = Ingest.Reply st ra js /\ l = Some st) /\
  exists evs,
    log' = log ++ evs /\
    Ingest.requests evs = seq i n /\
    List.length (Ingest.sleeps evs)
      = List.length (filter (Ingest.retried server) (seq i n)).
Proof.
  revert i last ps log. induction n as [|n IH]; intros i last ps log H;
    cbn [Ingest.get_json_loop] in H.
  - injection H as <- <- <-. split; [reflexivity|]. split; [intros m Hm; lia|].
    split; [reflexivity|]. split; [discriminate|].
    exists []. now rewrite app_nil_r.
  - destruct (pace_cases min_gap_s clock ps)
      as [(e & Ep & He) | (ps' & steps & Ep & Hsteps)];
      rewrite Ep in H; [injection H as -> _; destruct He; discriminate|].
    destruct (turn_steps steps min_gap_s i [] Hsteps eq_refl eq_refl) as (T1 & T2 & _).
    cbn [app] in T1, T2. cbn [Ingest.sleeps flat_map] in T2.
    destruct (server i) as [|st ra json] eqn:Es; [discriminate|].
    destruct (Z.eqb_spec st 200) as [->|Hne]; [destruct json; discriminate|].
    assert (Hstep : forall log1 evs1,
               Ingest.requests evs1 = [i] ->
               List.length (Ingest.sleeps evs1)
                 = (if Ingest.retried server i then 1 else 0)%nat ->
               log1 = log ++ evs1 ->
               Ingest.get_json_loop server jitter min_gap_s clock attempts n (S i)
                                    (Some st) ps' log1
               = (inl (Ingest.AttemptsExhausted l a), log') ->
               a = attempts /\
               (forall m, (i <= m < i + S n)%nat ->
                          exists st0 ra0 js, server m = Ingest.Reply st0 ra0 js /\
                                             st0 <> 200) /\
               (S n = 0%nat -> l = last) /\
               (forall n', S n = S n' ->
                           exists st0 ra0 js,
                             server (i + n')%nat = Ingest.Reply st0 ra0 js /\ l = Some st0) /\
               exists evs,
                 log' = log ++ evs /\
                 Ingest.requests evs = seq i (S n) /\
                 List.length (Ingest.sleeps evs)
                   = List.length (filter (Ingest.retried server) (seq i (S n)))).
    { intros log1 evs1 Hr1 Hs1 -> H1.
      destruct (IH _ _ _ _ H1) as (Ha & Hall & H0 & HS & evs & -> & Hr & Hsl).
      split; [exact Ha|]. split.
      { intros m Hm. destruct (Nat.eq_dec m i) as [->|Hmi].
        - exists st, ra, json. split; [exact Es | exact Hne].
        - apply Hall. lia. }
      split; [discriminate|]. split.
      { intros n' Hn'. injection Hn' as <-. destruct n as [|n0].
        - rewrite Nat.add_0_r. exists st, ra, json. split; [exact Es | now apply H0].
        - destruct (HS n0 eq_refl) as (st0 & ra0 & js & Hs0 & Hl).
          exists st0, ra0, js. split; [|exact Hl].
          now replace (i + S n0)%nat with (S i + n0)%nat by lia. }
      exists (evs1 ++ evs). split; [now rewrite app_assoc|].
      rewrite requests_app, sleeps_app, Hr1, Hr, length_app, Hs1, Hsl.
      split; [reflexivity|]. cbn [seq filter].
      destruct (Ingest.retried server i); cbn [List.length]; lia. }
    assert (Hret : Ingest.retried server i = existsb (Z.eqb st) Ingest.RETRYABLE).
    { unfold Ingest.retried. rewrite Es.
      replace (st =? 200) with false by (symmetry; now apply Z.eqb_neq).
      reflexivity. }
    destruct (existsb (Z.eqb st) Ingest.RETRYABLE) eqn:Er.
    + destruct (Ingest.sleep_plus_jitter ra i (jitter i)) as [e|s] eqn:Esl.
      * injection H as He _. subst e. exfalso.
        unfold Ingest.sleep_plus_jitter, Ingest.pow2 in Esl.
        destruct ra; try discriminate; destruct (Nat.ltb i 1024); discriminate.
      * destruct (Ingest.time_sleep (Ingest.min30 s)) as [e|] eqn:Et.
        { injection H as -> _. destruct (time_sleep_error _ _ Et); discriminate. }
        apply (Hstep _ ((steps ++ [Ingest.EvGet i]) ++ [Ingest.EvSleep (Ingest.min30 s)]))
          in H; [exact H | | |now rewrite <- !app_assoc].
        -- rewrite requests_app, T1. reflexivity.
        -- rewrite sleeps_app, T2, Hret. reflexivity.
    + destruct (Ingest.is_error_status st); [discriminate|].
      apply (Hstep _ (steps ++ [Ingest.EvGet i]) T1) in H;
        [exact H | now rewrite T2, Hret | reflexivity].
Qed.

(** X20.  A fetch gives up only after the last allowed attempt: when it ends
    with the attempts-exhausted error, it has sent exactly [attempts]
    requests, none was answered with status 200, the error carries the status
    of the last answer, and it has slept once for every answer with a
    retryable status, the answer to the last attempt included. *)
Theorem get_json_gives_up_after_the_last_attempt
        {J : Type} (server : nat -> Ingest.reply J) (jitter : nat -> float)
        (min_gap_s : float) (clock : nat -> float) (last_ts : float)
        (attempts : Z) (l : option Z) (a : Z) (log : list Ingest.step) :
  Ingest.get_json server jitter min_gap_s clock last_ts attempts
  = (inl (Ingest.AttemptsExhausted l a), log) ->
  a = attempts /\
  Ingest.requests log = seq 0 (Z.to_nat attempts) /\
  (forall m, (m < Z.to_nat attempts)%nat ->
             exists st ra js, server m = Ingest.Reply st ra js /\ st <> 200) /\
  (attempts <= 0 -> l = None) /\
  (0 < attempts ->
   exists st ra js,
     server (Z.to_nat attempts - 1)%nat = Ingest.Reply st ra js /\ l = Some st) /\
  List.length (Ingest.sleeps log)
    = List.length (filter (Ingest.retried server) (seq 0 (Z.to_nat attempts))).
Proof.
  unfold Ingest.get_json. intros H.
  destruct (get_json_loop_exhausted _ _ _ _ _ _ _ _ _ _ _ _ _ H)
    as (Ha & Hall & H0 & HS & evs & -> & Hr & Hsl).
  split; [exact Ha|]. cbn [app]. split; [exact Hr|]. split.
  - intros m Hm. apply Hall. lia.
  - split; [intros Hle; apply H0; lia|]. split; [|exact Hsl].
    intros Hpos. destruct (Z.to_nat attempts) as [|n'] eqn:En; [lia|].
    destruct (HS n' eq_refl) as (st & ra & js & Hs & Hl).
    exists st, ra, js. split; [|exact Hl].
    now replace (S n' - 1)%nat with (0 + n')%nat by lia.
Qed.

Lemma get_json_gives_up_witness :
  4 = 4 /\
  Ingest.requests
    (snd (Ingest.get_json busy_server sample_jitter sample_gap sample_clock F64.zero 4))
    = seq 0 (Z.to_nat 4) /\
  (forall m, (m < Z.to_nat 4)%nat ->
             exists st ra js, busy_server m = Ingest.Reply st ra js /\ st <> 200) /\
  (4 <= 0 -> Some 429 = None) /\
  (0 < 4 ->
   exists st ra js,
     busy_server (Z.to_nat 4 - 1)%nat = Ingest.Reply st ra js /\ Some 429 = Some st) /\
  List.length
    (Ingest.sleeps
       (snd (Ingest.get_json busy_server sample_jitter sample_gap sample_clock
                             F64.zero 4)))
    = List.length (filter (Ingest.retried busy_server) (seq 0 (Z.to_nat 4))).
Proof.
  apply (get_json_gives_up_after_the_last_attempt busy_server sample_jitter sample_gap
           sample_clock F64.zero 4 (Some 429) 4
           (snd (Ingest.get_json busy_server sample_jitter sample_gap sample_clock
                                 F64.zero 4))).
  vm_compute. reflexivity.
Defined.

(** * The read API *)

(** ** The order of date strings *)

Lemma ascii_compare_refl (c : ascii) : Ascii.compare c c = Eq.
Proof. unfold Ascii.compare. apply N.compare_refl. Qed.

Lemma ascii_compare_lt_trans (a b c : ascii) :
  Ascii.compare a b = Lt -> Ascii.compare b c = Lt -> Ascii.compare a c = Lt.
Proof.
  unfold Ascii.compare. rewrite !N.compare_lt_iff. apply N.lt_trans.
Qed.

Lemma string_compare_lt_trans (s t u : string) :
  String.compare s t = Lt -> String.compare t u = Lt -> String.compare s u = Lt.
Proof.
  revert t u. induction s as [|a s IH]; intros [|b t] [|c u]; cbn [String.compare];
    try congruence.
  destruct (Ascii.compare a b) eqn:Eab; try discriminate;
    destruct (Ascii.compare b c) eqn:Ebc; try discriminate; intros H1 H2.
  - apply Ascii.compare_eq_iff in Eab, Ebc. subst.
    rewrite ascii_compare_refl. now apply (IH t).
  - apply Ascii.compare_eq_iff in Eab. subst. now rewrite Ebc.
  - apply Ascii.compare_eq_iff in Ebc. subst. now rewrite Eab.
  - now rewrite (ascii_compare_lt_trans a b c Eab Ebc).
Qed.

Lemma string_leb_trans (s t u : string) :
  String.leb s t = true -> String.leb t u = true -> String.leb s u = true.
Proof.
  unfold String.leb.
  destruct (String.compare s t) eqn:Est; try discriminate;
    destruct (String.compare t u) eqn:Etu; try discriminate; intros _ _.
  - apply String.compare_eq_iff in Est. subst. now rewrite Etu.
  - apply String.compare_eq_iff in Est. subst. now rewrite Etu.
  - apply String.compare_eq_iff in Etu. subst. now rewrite Est.
  - now rewrite (string_compare_lt_trans s t u Est Etu).
Qed.

Lemma string_ltb_leb (s t : string) : String.ltb s t = true -> String.leb s t = true.
Proof. unfold String.ltb, String.leb. now destruct (String.compare s t). Qed.

Lemma string_not_ltb_leb (s t : string) :
  String.ltb s t = false -> String.leb t s = true.
Proof.
  unfold String.ltb, String.leb. rewrite (String.compare_antisym s t).
  now destruct (String.compare t s).
Qed.

(** ** Sorting with the latest first *)

Lemma api_insert_perm (x : Api.Item) (l : list Api.Item) :
  Permutation (Api.insert x l) (x :: l).
Proof.
  induction l as [|y l IH]; cbn [Api.insert]; [reflexivity|].
  destruct (String.ltb (Api.key x) (Api.key y)); [|reflexivity].
  rewrite IH. apply perm_swap.
Qed.

Lemma api_sort_perm (l : list Api.Item) : Permutation (Api.sort l) l.
Proof.
  induction l as [|x l IH]; cbn [Api.sort fold_right]; [reflexivity|].
  fold (Api.sort l). rewrite api_insert_perm. now constructor.
Qed.

Lemma api_insert_sorted (x : Api.Item) (l : list Api.Item) :
  StronglySorted (fun a b => Api.not_later b a) l ->
  StronglySorted (fun a b => Api.not_later b a) (Api.insert x l).
Proof.
  induction 1 as [|y l Hs IH Hall]; cbn [Api.insert]; [repeat constructor|].
  destruct (String.ltb (Api.key x) (Api.key y)) eqn:E.
  - constructor; [exact IH|].
    rewrite Forall_forall in *. intros z Hz.
    apply (Permutation_in _ (api_insert_perm x l)) in Hz.
    destruct Hz as [<- | Hz]; [now apply string_ltb_leb | now apply Hall].
  - apply string_not_ltb_leb in E.
    constructor; [now constructor|].
    constructor; [exact E|].
    rewrite Forall_forall in *. intros z Hz.
    unfold Api.not_later. eapply string_leb_trans; [apply (Hall z Hz) | exact E].
Qed.

Lemma api_sort_sorted (l : list Api.Item) :
  StronglySorted (fun a b => Api.not_later b a) (Api.sort l).
Proof.
  induction l as [|x l IH]; cbn [Api.sort fold_right]; [constructor|].
  now apply api_insert_sorted.
Qed.

Lemma scan_all_scanned (pages : list Api.Page) (acc : list Api.Item) :
  Api.ends pages -> Api.scan_all pages acc = Some (acc ++ Api.scanned pages).
Proof.
  revert acc. induction pages as [|p pages IH]; intros acc (r & Hr & Hm).
  - contradiction.
  - cbn [Api.scan_all Api.scanned]. destruct (Api.p_more p) eqn:Ep.
    + rewrite IH; [now rewrite app_assoc|].
      destruct Hr as [<- | Hr]; [congruence|]. now exists r.
    + now rewrite app_nil_r.
Qed.

Lemma sorted_split_not_later (l1 l2 : list Api.Item) :
  StronglySorted (fun a b => Api.not_later b a) (l1 ++ l2) ->
  forall a d, In a l1 -> In d l2 -> Api.not_later d a.
Proof.
  induction l1 as [|x l1 IH]; cbn [app]; intros Hs a d Ha Hd; [contradiction|].
  inversion Hs as [|? ? Hs' Hall]; subst.
  destruct Ha as [<- | Ha].
  - rewrite Forall_forall in Hall. apply Hall. apply in_or_app. now right.
  - now apply (IH Hs').
Qed.

Lemma sorted_app_l (l1 l2 : list Api.Item) :
  StronglySorted (fun a b => Api.not_later b a) (l1 ++ l2) ->
  StronglySorted (fun a b => Api.not_later b a) l1.
Proof.
  induction l1 as [|x l1 IH]; cbn [app]; intros Hs; [constructor|].
  inversion Hs as [|? ? Hs' Hall]; subst.
  constructor; [now apply IH|].
  rewrite Forall_forall in *. intros z Hz. apply Hall. apply in_or_app. now left.
Qed.

(** X15.  When the scan comes to an end and [DAYS] is not negative, the API
    answers 200 with the [DAYS] latest items of the table (all of them when
    there are fewer): the items returned and the items left out are together
    the items scanned, the returned ones run from the latest date to the
    earliest, and no item left out is later than a returned one. *)
Theorem api_returns_the_latest_days (DAYS : Z) (pages : list Api.Page) :
  Api.ends pages -> 0 <= DAYS ->
  exists resp dropped,
    Api.lambda_handler DAYS pages = Some resp /\
    Api.statusCode resp = 200 /\
    Permutation (Api.items (Api.body resp) ++ dropped) (Api.scanned pages) /\
    List.length (Api.items (Api.body resp))
      = Nat.min (Z.to_nat DAYS) (List.length (Api.scanned pages)) /\
    StronglySorted (fun a b => Api.not_later b a) (Api.items (Api.body resp)) /\
    forall a d, In a (Api.items (Api.body resp)) -> In d dropped -> Api.not_later d a.
Proof.
  intros He Hd. unfold Api.lambda_handler.
  rewrite (scan_all_scanned pages [] He). cbn [app].
  set (all := Api.scanned pages).
  unfold Api.slice_to. replace (0 <=? DAYS) with true by (symmetry; now apply Z.leb_le).
  eexists. exists (skipn (Z.to_nat DAYS) (Api.sort all)).
  split; [reflexivity|]. cbn [Api.statusCode Api.body Api.items].
  split; [reflexivity|].
  pose proof (api_sort_sorted all) as Hs.
  rewrite <- (firstn_skipn (Z.to_nat DAYS) (Api.sort all)) in Hs.
  split; [rewrite firstn_skipn; apply api_sort_perm|].
  split; [rewrite length_firstn, (Permutation_length (api_sort_perm all)); reflexivity|].
  split; [now apply sorted_app_l in Hs|].
  now apply sorted_split_not_later.
Qed.

Lemma api_returns_the_latest_witness :
  exists resp dropped,
    Api.lambda_handler 3 sample_pages = Some resp /\
    Api.statusCode resp = 200 /\
    Permutation (Api.items (Api.body resp) ++ dropped) (Api.scanned sample_pages) /\
    List.length (Api.items (Api.body resp))
      = Nat.min (Z.to_nat 3) (List.length (Api.scanned sample_pages)) /\
    StronglySorted (fun a b => Api.not_later b a) (Api.items (Api.body resp)) /\
    forall a d, In a (Api.items (Api.body resp)) -> In d dropped -> Api.not_later d a.
Proof.
  apply (api_returns_the_latest_days 3 sample_pages).
  - exists (nth 1 sample_pages (Api.mkPage None false)). split; [|reflexivity].
    cbn. right; left; reflexivity.
  - lia.
Defined.

(** X16.  A negative [DAYS] does not empty the answer: the slice then stops
    [-DAYS] items before the end, so the API returns the sorted items without
    the [-DAYS] earliest ones. *)
Theorem api_negative_days_drops_the_earliest (DAYS : Z) (pages : list Api.Page) :
  Api.ends pages -> DAYS < 0 ->
  exists resp dropped,
    Api.lambda_handler DAYS pages = Some resp /\
    Api.sort (Api.scanned pages) = Api.items (Api.body resp) ++ dropped /\
    List.length dropped
      = Nat.min (Z.to_nat (- DAYS)) (List.length (Api.scanned pages)).
Proof.
  intros He Hd. unfold Api.lambda_handler.
  rewrite (scan_all_scanned pages [] He). cbn [app].
  set (all := Api.scanned pages).
  unfold Api.slice_to. replace (0 <=? DAYS) with false by (symmetry; apply Z.leb_gt; lia).
  eexists. exists (skipn (List.length (Api.sort all) - Z.to_nat (- DAYS)) (Api.sort all)).
  split; [reflexivity|]. cbn [Api.body Api.items].
  split; [now rewrite firstn_skipn|].
  rewrite length_skipn, (Permutation_length (api_sort_perm all)). lia.
Qed.

Lemma api_negative_days_witness :
  exists resp dropped,
    Api.lambda_handler (-1) sample_pages = Some resp /\
    Api.sort (Api.scanned sample_pages) = Api.items (Api.body resp) ++ dropped /\
    List.length dropped
      = Nat.min (Z.to_nat (- -1)) (List.length (Api.scanned sample_pages)).
Proof.
  apply (api_negative_days_drops_the_earliest (-1) sample_pages).
  - exists (nth 1 sample_pages (Api.mkPage None false)). split; [|reflexivity].
    cbn. right; left; reflexivity.
  - lia.
Defined.
